(** * container_config_hash: config hashes for container startup configs

    A shallow embedding of the Ansible module
    [edpm_ansible/ansible_plugins/modules/container_config_hash.py]
    (class [ContainerConfigHashManager]) and the properties of its
    volume-to-hash resolution and reconciliation.

    Modelling conventions.
    - A Python [str] is a [string]; its characters are the code points
      U+0000..U+00FF.  Comparison of strings is by code point, as in Python.
    - The interpreter is Python 3: [filter] returns a lazy iterator object.
    - [module.fail_json] and uncaught exceptions end the run; they are the
      [Fail] and [Raise] outcomes below.  A loop that never exits is [Hang].
    - The filesystem is a flat store keyed by the literal path string (no
      symbolic links, no path normalisation); at a path there is a directory
      or a regular file, which holds the text that [f.read()] returns and its
      permission bits.
    - JSON numbers are integers (floating point is outside the model). *)

From Stdlib Require Import ZArith Ascii String Lia.
From Stdlib Require Import DecimalString DecimalZ DecimalPos DecimalFacts.
From stdpp Require Import gmap strings list sorting.

(** ** Python string methods *)

Module Str.

(** [s.startswith(pre)] *)
Fixpoint startswith (s pre : string) {struct pre} : bool :=
  match pre, s with
  | "", _ => true
  | String a pre', String b s' => Ascii.eqb a b && startswith s' pre'
  | String _ _, "" => false
  end.

(** [s.endswith(suf)] *)
Definition endswith (s suf : string) : bool :=
  startswith (String.rev s) (String.rev suf).

(** [s.rfind(c)] for a one-character [c]: the highest index of [c] in [s],
    or -1. *)
Fixpoint rfind (c : ascii) (s : string) : Z :=
  match s with
  | "" => -1
  | String a r =>
      let k := rfind c r in
      if (0 <=? k)%Z then (k + 1)%Z
      else if Ascii.eqb a c then 0%Z else (-1)%Z
  end.

(** [s[:n]] and [s[n:]] for [0 <= n] *)
Fixpoint take (n : nat) (s : string) : string :=
  match n, s with
  | S n', String a r => String a (take n' r)
  | _, _ => ""
  end.

Fixpoint drop (n : nat) (s : string) : string :=
  match n, s with
  | S n', String _ r => drop n' r
  | _, _ => s
  end.

(** [s[i:j]] for [0 <= i] *)
Definition slice (i j : nat) (s : string) : string := take (j - i) (drop i s).

(** [c * n] *)
Fixpoint repeat (c : ascii) (n : nat) : string :=
  match n with
  | O => ""
  | S n' => String c (repeat c n')
  end.

(** [s.rstrip(c)], [s.lstrip(c)], [s.strip(c)] for a one-character [c] *)
Fixpoint rstrip (c : ascii) (s : string) : string :=
  match s with
  | "" => ""
  | String a r =>
      match rstrip c r with
      | "" => if Ascii.eqb a c then "" else String a ""
      | r' => String a r'
      end
  end.

Fixpoint lstrip (c : ascii) (s : string) : string :=
  match s with
  | "" => ""
  | String a r => if Ascii.eqb a c then lstrip c r else s
  end.

Definition strip (c : ascii) (s : string) : string := rstrip c (lstrip c s).

(** [s.split(c)] for a one-character [c] *)
Fixpoint split (c : ascii) (s : string) : list string :=
  match s with
  | "" => [""]
  | String a r =>
      if Ascii.eqb a c then "" :: split c r
      else match split c r with
           | h :: t => String a h :: t
           | [] => [String a ""]
           end
  end.

(** [sep.join(l)] *)
Fixpoint join (sep : string) (l : list string) : string :=
  match l with
  | [] => ""
  | [x] => x
  | x :: l' => x +:+ sep +:+ join sep l'
  end.

(** [s.isascii()]: every character is below U+0080 *)
Fixpoint isascii (s : string) : bool :=
  match s with
  | "" => true
  | String a r => (N_of_ascii a <? 128)%N && isascii r
  end.

(** the characters of a string, as [for v in s] yields them *)
Fixpoint chars (s : string) : list string :=
  match s with
  | "" => []
  | String a r => String a "" :: chars r
  end.

End Str.

(** ** [os.path] (posixpath) *)

Module os_path.

Definition sep : ascii := "/"%char.
Definition extsep : ascii := "."%char.

(** [posixpath.dirname]:
    [i = p.rfind(sep) + 1; head = p[:i];
     if head and head != sep*len(head): head = head.rstrip(sep)] *)
Definition dirname (p : string) : string :=
  let i := Z.to_nat (Str.rfind sep p + 1) in
  let head := Str.take i p in
  if negb (String.eqb head "")
     && negb (String.eqb head (Str.repeat sep (String.length head)))
  then Str.rstrip sep head
  else head.

(** [posixpath.basename]: [i = p.rfind(sep) + 1; return p[i:]] *)
Definition basename (p : string) : string :=
  Str.drop (Z.to_nat (Str.rfind sep p + 1)) p.

(** [posixpath.join(a, b)] *)
Definition join (a b : string) : string :=
  if Str.startswith b (String sep "") then b
  else if String.eqb a "" || Str.endswith a (String sep "") then a +:+ b
  else a +:+ String sep "" +:+ b.

(** [genericpath._splitext]: the extension starts at the last dot of the
    last component, unless that component has only dots before it. *)
Definition splitext (p : string) : string * string :=
  let sepIndex := Str.rfind sep p in
  let dotIndex := Str.rfind extsep p in
  if (sepIndex <? dotIndex)%Z
     && negb (String.eqb
                (Str.slice (Z.to_nat (sepIndex + 1)) (Z.to_nat dotIndex) p)
                (Str.repeat extsep (Z.to_nat (dotIndex - (sepIndex + 1)))))
  then (Str.take (Z.to_nat dotIndex) p, Str.drop (Z.to_nat dotIndex) p)
  else (p, "").

End os_path.

(** ** JSON values, as [json.loads] builds them

    A JSON object becomes a Python [dict]: an association list in insertion
    order, with one entry per key. *)

#[warnings="-register-all"]
Inductive json : Type :=
| JNull
| JBool (b : bool)
| JInt (z : Z)
| JStr (s : string)
| JArr (l : list json)
| JObj (kvs : list (string * json)).

(** ** Outcomes *)

Inductive exception : Type :=
| TypeError
| AttributeError
| JSONDecodeError
| IsADirectoryError
| FileNotFoundError.

Inductive fmt_arg : Type :=
| ArgStr (s : string)
| ArgJson (j : json).

(** [template.format( *args )], kept unexpanded *)
Record message : Type := Format { template : string; args : list fmt_arg }.

Inductive outcome (A : Type) : Type :=
| Ok (a : A)            (* normal return *)
| Fail (msg : message)  (* module.fail_json(msg=...) *)
| Raise (e : exception) (* an exception nobody catches *)
| Hang.                 (* the loop never exits *)

Arguments Ok {A} a.
Arguments Fail {A} msg.
Arguments Raise {A} e.
Arguments Hang {A}.

(** ** Base Resolver: [_get_config_base] *)

Definition no_config_base (volume prefix : string) : message :=
  Format "Could not find config base for: {} with prefix: {}"
         [ArgStr volume; ArgStr prefix].

(** The [while path.startswith(prefix)] loop; [fuel] bounds the number of
    iterations. *)
Fixpoint crawl (fuel : nat) (prefix base base_generated volume path : string)
  : outcome string :=
  match fuel with
  | O => Hang
  | S fuel' =>
      if Str.startswith path prefix then
        let dirname := os_path.dirname path in
        if String.eqb dirname base || String.eqb dirname base_generated
        then Ok path
        else crawl fuel' prefix base base_generated volume dirname
      else Fail (no_config_base volume prefix)
  end.

(** Every iteration that does not reach a fixed point of [dirname] shortens
    [path], so [S (length volume)] iterations decide the loop
    ([crawl_hang_forever]). *)
Definition _get_config_base (prefix volume : string) : outcome string :=
  let base := Str.rstrip os_path.sep prefix in
  let base_generated := os_path.join base "ansible-generated" in
  crawl (S (String.length volume)) prefix base base_generated volume volume.

(** [outcome] is an error monad; stdpp's [x ← m; k] notation binds it. *)
Global Instance outcome_ret : MRet outcome := @Ok.
Global Instance outcome_bind : MBind outcome := λ A B k m,
  match m with
  | Ok a => k a
  | Fail msg => Fail msg
  | Raise e => Raise e
  | Hang => Hang
  end.

(** ** Python [dict] with [str] keys *)

Module Dict.

(** [d.get(k)] *)
Fixpoint get (k : string) (d : list (string * json)) : option json :=
  match d with
  | [] => None
  | (k', v) :: d' => if String.eqb k' k then Some v else get k d'
  end.

(** [k in d] *)
Definition contains (k : string) (d : list (string * json)) : bool :=
  match get k d with Some _ => true | None => false end.

(** [d[k] = v]: an existing key keeps its position, a new key goes last *)
Fixpoint set (k : string) (v : json) (d : list (string * json))
  : list (string * json) :=
  match d with
  | [] => [(k, v)]
  | (k', v') :: d' =>
      if String.eqb k' k then (k', v) :: d' else (k', v') :: set k v d'
  end.

(** [dict(pairs)] *)
Definition of_pairs (pairs : list (string * json)) : list (string * json) :=
  fold_left (λ d kv, set kv.1 kv.2 d) pairs [].

End Dict.

(** ** Volume Matcher: [_match_config_volumes] *)

(** [for v in volumes]: what iterating a decoded JSON value yields *)
Definition py_iter (volumes : json) : outcome (list json) :=
  match volumes with
  | JArr l => Ok l
  | JStr s => Ok (JStr <$> Str.chars s)
  | JObj d => Ok (JStr <$> d.*1)
  | JNull | JBool _ | JInt _ => Raise TypeError
  end.

(** [sorted(l)] on strings: ascending by code point.  The order is total and
    antisymmetric, so every sorting algorithm returns this list
    ([Sorted_unique]). *)
Definition sorted (l : list string) : list string := merge_sort String.le l.

(** The list comprehension
    [[self._get_config_base(prefix, v.split(":")[0])
      for v in volumes if v.startswith(prefix)]] *)
Fixpoint config_bases (prefix : string) (volumes : list json)
  : outcome (list string) :=
  match volumes with
  | [] => Ok []
  | JStr v :: volumes' =>
      if Str.startswith v prefix then
        base ← _get_config_base prefix (hd "" (Str.split ":" v));
        bases ← config_bases prefix volumes';
        Ok (base :: bases)
      else config_bases prefix volumes'
  | _ :: _ => Raise AttributeError (* v.startswith on a non-string *)
  end.

Definition error_fetching_volumes (prefix : string) (config : json) : message :=
  Format "Error fetching volumes. Prefix: {} - Config: {}"
         [ArgStr prefix; ArgJson config].

Definition _match_config_volumes (prefix : string) (config : json)
  : outcome (list string) :=
  match config with
  | JObj d =>
      let volumes := default (JArr []) (Dict.get "volumes" d) in
      vs ← py_iter volumes;
      bases ← config_bases prefix vs;
      Ok (sorted bases)
  | _ => (* config.get raises AttributeError, which is caught *)
      Fail (error_fetching_volumes prefix config)
  end.

(** ** [json.dumps(obj, indent=2)] and [json.loads] *)

Module Json.

Definition dquote : ascii := "034"%char.
Definition backslash : ascii := "\"%char.
Definition nl : ascii := "010"%char.

(** *** Encoder *)

Definition hex_digit (n : N) : ascii :=
  if (n <? 10)%N then ascii_of_N (48 + n) else ascii_of_N (87 + n).

(** [ESCAPE_DCT], and [\u00xx] for what is not printable ASCII
    ([ESCAPE_ASCII], [ensure_ascii=True]) *)
Definition escape (c : ascii) : string :=
  if Ascii.eqb c backslash then "\\"
  else if Ascii.eqb c dquote then String backslash (String dquote "")
  else if Ascii.eqb c "008" then "\b"
  else if Ascii.eqb c "012" then "\f"
  else if Ascii.eqb c "010" then "\n"
  else if Ascii.eqb c "013" then "\r"
  else if Ascii.eqb c "009" then "\t"
  else
    let n := N_of_ascii c in
    if (32 <=? n)%N && (n <=? 126)%N then String c ""
    else "\u00" +:+ String (hex_digit (n / 16)) (String (hex_digit (n mod 16)) "").

Fixpoint escape_all (s : string) : string :=
  match s with
  | "" => ""
  | String c r => escape c +:+ escape_all r
  end.

(** [encode_basestring_ascii] *)
Definition encode_str (s : string) : string :=
  String dquote (escape_all s +:+ String dquote "").

(** [int.__repr__] *)
Definition int_repr (z : Z) : string := NilZero.string_of_int (Z.to_int z).

(** ['\n' + ' ' * (2 * level)] *)
Definition newline_indent (level : nat) : string :=
  String nl (Str.repeat " " (2 * level)).

(** [key: value], given the encoder of the value *)
Definition encode_item (enc : json → string) (kv : string * json) : string :=
  let '(k, v) := kv in encode_str k +:+ ": " +:+ enc v.

(** [_iterencode] with [indent=2], item separator [','] and key separator
    [': '] *)
Fixpoint iterencode (level : nat) (o : json) : string :=
  match o with
  | JNull => "null"
  | JBool true => "true"
  | JBool false => "false"
  | JInt z => int_repr z
  | JStr s => encode_str s
  | JArr [] => "[]"
  | JArr l =>
      "[" +:+ newline_indent (S level)
      +:+ Str.join ("," +:+ newline_indent (S level))
            (iterencode (S level) <$> l)
      +:+ newline_indent level +:+ "]"
  | JObj [] => "{}"
  | JObj d =>
      "{" +:+ newline_indent (S level)
      +:+ Str.join ("," +:+ newline_indent (S level))
            (encode_item (iterencode (S level)) <$> d)
      +:+ newline_indent level +:+ "}"
  end.

Definition dumps (o : json) : string := iterencode 0 o.

(** *** Decoder *)

(** [WHITESPACE]: space, tab, line feed, carriage return *)
Definition is_ws (c : ascii) : bool :=
  Ascii.eqb c " " || Ascii.eqb c "009" || Ascii.eqb c "010" || Ascii.eqb c "013".

Fixpoint skip_ws (s : string) : string :=
  match s with
  | "" => ""
  | String c r => if is_ws c then skip_ws r else s
  end.

Definition hex_value (c : ascii) : option N :=
  let n := N_of_ascii c in
  if (48 <=? n)%N && (n <=? 57)%N then Some (n - 48)%N
  else if (97 <=? n)%N && (n <=? 102)%N then Some (n - 87)%N
  else if (65 <=? n)%N && (n <=? 70)%N then Some (n - 55)%N
  else None.

(** [BACKSLASH]: the one-character escapes *)
Definition unescape (e : ascii) : option ascii :=
  if Ascii.eqb e dquote then Some dquote
  else if Ascii.eqb e backslash then Some backslash
  else if Ascii.eqb e "/" then Some "/"%char
  else if Ascii.eqb e "b" then Some "008"%char
  else if Ascii.eqb e "f" then Some "012"%char
  else if Ascii.eqb e "n" then Some "010"%char
  else if Ascii.eqb e "r" then Some "013"%char
  else if Ascii.eqb e "t" then Some "009"%char
  else None.

Definition cons_str (c : ascii) (x : option (string * string))
  : option (string * string) :=
  match x with
  | Some (t, r) => Some (String c t, r)
  | None => None
  end.

(** [scanstring] in strict mode, from just after the opening quote: the
    decoded string and the rest of the input.  An escape above U+00FF is
    outside the model. *)
Fixpoint scanstring (s : string) : option (string * string) :=
  match s with
  | "" => None
  | String c r =>
      if Ascii.eqb c dquote then Some ("", r)
      else if Ascii.eqb c backslash then
        match r with
        | "" => None
        | String e r1 =>
            if Ascii.eqb e "u" then
              match r1 with
              | String h1 (String h2 (String h3 (String h4 r2))) =>
                  match hex_value h1, hex_value h2, hex_value h3, hex_value h4 with
                  | Some 0%N, Some 0%N, Some n3, Some n4 =>
                      cons_str (ascii_of_N (16 * n3 + n4)) (scanstring r2)
                  | _, _, _, _ => None
                  end
              | _ => None
              end
            else
              match unescape e with
              | Some ch => cons_str ch (scanstring r1)
              | None => None
              end
        end
      else if (N_of_ascii c <? 32)%N then None
      else cons_str c (scanstring r)
  end.

Definition is_digit (c : ascii) : bool :=
  (48 <=? N_of_ascii c)%N && (N_of_ascii c <=? 57)%N.

(** the longest run of digits at the head of the input *)
Fixpoint span_digits (s : string) : string * string :=
  match s with
  | "" => ("", "")
  | String c r =>
      if is_digit c
      then let '(ds, r') := span_digits r in (String c ds, r')
      else ("", s)
  end.

(** does a fraction (a dot and a digit) or an exponent (e or E, an
    optional sign, a digit) follow?  Then the number is a float. *)
Definition float_follows (s : string) : bool :=
  match s with
  | String c (String d r) =>
      (Ascii.eqb c "." && is_digit d)
      || ((Ascii.eqb c "e" || Ascii.eqb c "E")
          && (is_digit d
              || ((Ascii.eqb d "+" || Ascii.eqb d "-")
                  && match r with String d' _ => is_digit d' | "" => false end)))
  | _ => false
  end.

(** the integer part of [NUMBER_RE]: 0, or a run of digits that does not
    start with 0; a match that goes on as a float is outside the model *)
Definition scan_int (negative : bool) (s : string) : option (json * string) :=
  match s with
  | "" => None
  | String c r =>
      if is_digit c then
        let '(ds, r') :=
          if Ascii.eqb c "0" then ("0", r) else span_digits s in
        if float_follows r' then None
        else
          match NilEmpty.uint_of_string ds with
          | Some u =>
              Some (JInt (if negative then - Z.of_uint u else Z.of_uint u)%Z,
                    r')
          | None => None
          end
      else None
  end.

(** [NUMBER_RE]: an optional minus sign and the integer part *)
Definition scan_number (s : string) : option (json * string) :=
  match s with
  | String "-" r => scan_int true r
  | _ => scan_int false s
  end.

(** [s[end:end + 1] == c], with what follows the character *)
Definition next_is (c : ascii) (s : string) : option string :=
  match s with
  | String a r => if Ascii.eqb a c then Some r else None
  | "" => None
  end.

(** [scan_once], [JSONArray] and [JSONObject]; [fuel] bounds the recursion *)
Fixpoint scan_once (fuel : nat) (s : string) : option (json * string) :=
  match fuel with
  | O => None
  | S fuel' =>
      match s with
      | "" => None
      | String c r =>
          if Ascii.eqb c dquote then
            match scanstring r with
            | Some (t, r') => Some (JStr t, r')
            | None => None
            end
          else if Ascii.eqb c "{" then
            match next_is "}" (skip_ws r) with
            | Some r' => Some (JObj [], r')
            | None =>
                match parse_pairs fuel' (skip_ws r) with
                | Some (pairs, r') => Some (JObj (Dict.of_pairs pairs), r')
                | None => None
                end
            end
          else if Ascii.eqb c "[" then
            match next_is "]" (skip_ws r) with
            | Some r' => Some (JArr [], r')
            | None =>
                match parse_values fuel' (skip_ws r) with
                | Some (vs, r') => Some (JArr vs, r')
                | None => None
                end
            end
          else if Str.startswith s "null" then Some (JNull, Str.drop 4 s)
          else if Str.startswith s "true" then Some (JBool true, Str.drop 4 s)
          else if Str.startswith s "false" then Some (JBool false, Str.drop 5 s)
          else scan_number s
      end
  end
with parse_values (fuel : nat) (s : string) : option (list json * string) :=
  match fuel with
  | O => None
  | S fuel' =>
      match scan_once fuel' s with
      | Some (v, r) =>
          match next_is "," (skip_ws r) with
          | Some r' =>
              match parse_values fuel' (skip_ws r') with
              | Some (vs, r'') => Some (v :: vs, r'')
              | None => None
              end
          | None =>
              match next_is "]" (skip_ws r) with
              | Some r' => Some ([v], r')
              | None => None
              end
          end
      | None => None
      end
  end
with parse_pairs (fuel : nat) (s : string)
  : option (list (string * json) * string) :=
  match fuel with
  | O => None
  | S fuel' =>
      match next_is dquote s with
      | Some r =>
          match scanstring r with
          | Some (k, r1) =>
              match next_is ":" (skip_ws r1) with
              | Some r2 =>
                  match scan_once fuel' (skip_ws r2) with
                  | Some (v, r3) =>
                      match next_is "," (skip_ws r3) with
                      | Some r' =>
                          match parse_pairs fuel' (skip_ws r') with
                          | Some (ps, r'') => Some ((k, v) :: ps, r'')
                          | None => None
                          end
                      | None =>
                          match next_is "}" (skip_ws r3) with
                          | Some r' => Some ([(k, v)], r')
                          | None => None
                          end
                      end
                  | None => None
                  end
              | None => None
              end
          | None => None
          end
      | None => None
      end
  end.

(** [json.loads]: one value between optional whitespace.  A scan that
    succeeds with any fuel succeeds with this one ([loads_any_fuel]). *)
Definition loads (s : string) : option json :=
  match scan_once (2 * String.length s + 1) (skip_ws s) with
  | Some (v, r) => if String.eqb (skip_ws r) "" then Some v else None
  | None => None
  end.

End Json.

(** ** The filesystem and the module's state *)

Record file : Type := File { content : string; mode : Z }.

(** what is at a path: a regular file or a directory *)
Inductive node : Type :=
| Regular (f : file)
| Directory.

Abbreviation filesystem := (gmap string node).

(** [self.results['changed']], the filesystem, and what [module.warn] and
    [module.debug] were called with *)
Record state : Type := State {
  fs : filesystem;
  changed : bool;
  warnings : list message;
  debug_log : list message
}.

(** A method of the manager: it runs on a state and leaves one, whatever its
    outcome. *)
Definition M (A : Type) : Type := state → outcome A * state.

Global Instance M_ret : MRet M := λ A a st, (Ok a, st).
Global Instance M_bind : MBind M := λ A B k m st,
  match m st with
  | (Ok a, st') => k a st'
  | (Fail msg, st') => (Fail msg, st')
  | (Raise e, st') => (Raise e, st')
  | (Hang, st') => (Hang, st')
  end.

Definition lift {A : Type} (o : outcome A) : M A := λ st, (o, st).

(** A loop [for x in l: ... f(x) ...] that collects results is stdpp's
    [mapM f l], here in [M] and in [outcome]. *)

Definition os_path_exists (fs : filesystem) (path : string) : bool :=
  bool_decide (is_Some (fs !! path)).

Definition path_exists (path : string) : M bool :=
  λ st, (Ok (os_path_exists (fs st) path), st).

Definition module_warn (msg : message) : M unit :=
  λ st, (Ok (), State (fs st) (changed st) (warnings st ++ [msg]) (debug_log st)).

Definition module_debug (msg : message) : M unit :=
  λ st, (Ok (), State (fs st) (changed st) (warnings st) (debug_log st ++ [msg])).

Definition set_changed : M unit :=
  λ st, (Ok (), State (fs st) true (warnings st) (debug_log st)).

Definition put_fs (fs' : filesystem) : M unit :=
  λ st, (Ok (), State fs' (changed st) (warnings st) (debug_log st)).

(** [os.remove(path)] *)
Definition os_remove (path : string) : M unit :=
  λ st,
    match fs st !! path with
    | Some (Regular _) => put_fs (delete path (fs st)) st
    | Some Directory => (Raise IsADirectoryError, st)
    | None => (Raise FileNotFoundError, st)
    end.

(** [open(path, 'r').read()] *)
Definition read_file (path : string) : M string :=
  λ st,
    match fs st !! path with
    | Some (Regular f) => (Ok (content f), st)
    | Some Directory => (Raise IsADirectoryError, st)
    | None => (Raise FileNotFoundError, st)
    end.

(** permission bits of a file that [open] creates (0o644) *)
Definition NEW_FILE_MODE : Z := 420.

(** [open(path, 'wb').write(data)]: an existing file keeps its mode *)
Definition write_file (path data : string) : M unit :=
  λ st,
    match fs st !! path with
    | Some (Regular f) =>
        put_fs (<[path := Regular (File data (mode f))]> (fs st)) st
    | Some Directory => (Raise IsADirectoryError, st)
    | None => put_fs (<[path := Regular (File data NEW_FILE_MODE)]> (fs st)) st
    end.

(** [os.chmod(path, m)]; a directory's mode is not modelled *)
Definition os_chmod (path : string) (m : Z) : M unit :=
  λ st,
    put_fs (alter (λ n, match n with
                        | Regular f => Regular (File (content f) m)
                        | Directory => Directory
                        end) path (fs st)) st.

(** is [p] the path of a file that [os.walk(top)] reports, as
    [os.path.join(root, filename)]?  Then [(root, filename)]. *)
Definition walked (top p : string) : option (string * string) :=
  let root := Str.take (Z.to_nat (Str.rfind os_path.sep p)) p in
  let filename := os_path.basename p in
  if (String.eqb root top
      || Str.startswith root (top +:+ String os_path.sep ""))
     && String.eqb (os_path.join root filename) p
  then Some (root, filename)
  else None.

(** [os.walk(top)]: one [(root, dirnames, filenames)] entry per regular file
    stored under the directory [top].  The listing order is the store's. *)
Definition os_walk (fs : filesystem) (top : string)
  : list (string * list string * list string) :=
  match fs !! top with
  | Some Directory =>
      omap (λ entry,
              match entry with
              | (p, Regular _) =>
                  match walked top p with
                  | Some (root, filename) => Some (root, [], [filename])
                  | None => None
                  end
              | (_, Directory) => None
              end)
           (map_to_list fs)
  | _ => []
  end.

Definition walk (top : string)
  : M (list (string * list string * list string)) :=
  λ st, (Ok (os_walk (fs st) top), st).

(** [fnmatch.filter(names, '*.json')]: the pattern translates to the regular
    expression [(?s:.*\.json)\Z], a test of the suffix. *)
Definition fnmatch_filter_json (names : list string) : list string :=
  filter (λ name, Str.endswith name ".json" = true) names.

(** ** The manager's methods *)

Definition CONTAINER_STARTUP_CONFIG : string :=
  "/var/lib/edpm-config/container-startup-config".

Definition _remove_file (path : string) : M unit :=
  e ← path_exists path;
  if e : bool then os_remove path else mret ().

(** [_find(path)], with the default [pattern='*.json'] of its one call *)
Definition _find (path : string) : M (list string) :=
  e ← path_exists path;
  if e : bool then
    tree ← walk path;
    mret (tree ≫= λ entry, let '(root, _, filenames) := entry in
                           os_path.join root <$> fnmatch_filter_json filenames)
  else
    module_warn (Format "{} does not exists" [ArgStr path]);;
    mret [].

Definition _slurp (path : string) : M string :=
  e ← path_exists path;
  if e : bool then read_file path
  else
    module_warn (Format "{} was not found." [ArgStr path]);;
    mret "".

Definition _update_container_config (path : string) (config : json) : M unit :=
  write_file path (Json.dumps config);;
  os_chmod path 384 (* 0o600 *);;
  set_changed.

(** [_get_config_hash]: [None] when the digest file is absent *)
Definition _get_config_hash (config_volume : string) : M (option string) :=
  let hashfile := config_volume +:+ ".md5sum" in
  e ← path_exists hashfile;
  if e : bool then
    s ← _slurp hashfile;
    mret (Some (Str.strip Json.nl s))
  else mret None.

(** [filter(None, l)] is an iterator object; it yields the elements of [l]
    that are true, i.e. neither [None] nor ['']. *)
Record filter_object : Type := FilterNone { filter_source : list (option string) }.

Definition filter_yield (it : filter_object) : list string :=
  omap (λ h, match h with
             | Some s => if String.eqb s "" then None else Some s
             | None => None
             end) (filter_source it).

(** [bool(it)]: the class defines neither [__bool__] nor [__len__], so the
    object is true whatever it would yield. *)
Definition filter_truth (it : filter_object) : bool := true.

(** [config_hash == old_config_hash], a [str] against a decoded JSON value *)
Definition py_eq_str (s : string) (j : json) : bool :=
  match j with
  | JStr s' => String.eqb s s'
  | _ => false
  end.

(** [startup_config_json['environment'].get('EDPM_CONFIG_HASH', '')] when
    ['environment' in startup_config_json], [''] otherwise *)
Definition stored_hash (d : list (string * json)) : outcome json :=
  match Dict.get "environment" d with
  | None => Ok (JStr "")
  | Some (JObj env) => Ok (default (JStr "") (Dict.get "EDPM_CONFIG_HASH" env))
  | Some _ => Raise AttributeError
  end.

(** [if 'environment' not in cfg: cfg['environment'] = {}] and then
    [cfg['environment']['EDPM_CONFIG_HASH'] = config_hash] *)
Definition set_hash (config_hash : string) (d : list (string * json))
  : outcome (list (string * json)) :=
  let d1 := if Dict.contains "environment" d then d
            else Dict.set "environment" (JObj []) d in
  match Dict.get "environment" d1 with
  | Some (JObj env) =>
      Ok (Dict.set "environment"
            (JObj (Dict.set "EDPM_CONFIG_HASH" (JStr config_hash) env)) d1)
  | _ => Raise TypeError
  end.

Definition json_loads (s : string) : M json :=
  lift (match Json.loads s with
        | Some j => Ok j
        | None => Raise JSONDecodeError
        end).

(** The body of the loop of [_update_hashes], for one descriptor [config];
    [continue] is [mret ()]. *)
Definition update_hash (prefix config : string) : M unit :=
  let cname := (os_path.splitext (os_path.basename config)).1 in
  if Str.startswith cname "hashed-" then
    _remove_file config
  else
    text ← _slurp config;
    startup_config_json ← json_loads text;
    config_volumes ← lift (_match_config_volumes prefix startup_config_json);
    config_hashes ← mapM _get_config_hash config_volumes;
    let config_hashes := FilterNone config_hashes in
    match startup_config_json with
    | JObj d =>
        old_config_hash ← lift (stored_hash d);
        if filter_truth config_hashes then
          let config_hash := Str.join "-" (filter_yield config_hashes) in
          if py_eq_str config_hash old_config_hash then mret ()
          else
            module_debug (Format "Config change detected for {}, new hash: {}"
                                 [ArgStr cname; ArgStr config_hash]);;
            d' ← lift (set_hash config_hash d);
            _update_container_config config (JObj d')
        else mret ()
    | _ => lift (Raise TypeError) (* not reached: the matcher has failed *)
    end.

Definition _update_hashes (prefix : string) : M unit :=
  configs ← _find CONTAINER_STARTUP_CONFIG;
  mapM (update_hash prefix) configs;;
  mret ().

(** ** The module *)

Record params : Type := Params {
  check_mode : bool;
  config_vol_prefix : string;
  debug : bool;
  step : Z
}.

(** [AnsibleModule]: the arguments, and whether Ansible runs in check mode *)
Record module : Type := Module_ {
  module_params : params;
  module_check_mode : bool
}.

(** [ContainerConfigHashManager(module, results)] *)
Definition ContainerConfigHashManager (m : module) : M unit :=
  _update_hashes (config_vol_prefix (module_params m)).

(** [main]: [results = dict(changed=False)]; the final [changed] is what
    [exit_json] reports. *)
Definition main (m : module) (fs0 : filesystem) : outcome unit * state :=
  ContainerConfigHashManager m (State fs0 false [] []).


(** ** The methods as functions of the filesystem

    Proof devices: what the volume matcher keeps, what [_get_config_hash]
    reads, and what the loop body decides for an active descriptor whose text
    is [text].  [get_config_hash_run] and [update_hash_active] tie them to the
    methods above. *)


(** is [config] a descriptor of the legacy naming scheme? *)
Definition obsolete (config : string) : bool :=
  Str.startswith (os_path.splitext (os_path.basename config)).1 "hashed-".

Definition digest (fs : filesystem) (config_volume : string)
  : outcome (option string) :=
  let hashfile := config_volume +:+ ".md5sum" in
  match fs !! hashfile with
  | Some (Regular f) => Ok (Some (Str.strip Json.nl (content f)))
  | Some Directory => Raise IsADirectoryError
  | None => Ok None
  end.

Definition aggregate (config_hashes : list (option string)) : string :=
  Str.join "-" (filter_yield (FilterNone config_hashes)).

(** [None]: the descriptor stays as it is; [Some (h, j)]: it is rewritten as
    [j], which carries the hash [h]. *)
Definition reconcile (prefix : string) (fs : filesystem) (text : string)
  : outcome (option (string * json)) :=
  j ← match Json.loads text with
      | Some j => Ok j
      | None => Raise JSONDecodeError
      end;
  config_volumes ← _match_config_volumes prefix j;
  config_hashes ← mapM (digest fs) config_volumes;
  match j with
  | JObj d =>
      old_config_hash ← stored_hash d;
      let config_hash := aggregate config_hashes in
      if py_eq_str config_hash old_config_hash then Ok None
      else d' ← set_hash config_hash d; Ok (Some (config_hash, JObj d'))
  | _ => Raise TypeError
  end.

(** the descriptor at [path] rewritten with [data], as
    [_update_container_config] leaves the store *)
Definition rewritten (fs : filesystem) (path data : string) : filesystem :=
  <[path := Regular (File data 384)]> fs.

(** ** Well-formed JSON values

    Proof devices for the round trip of the codec. *)

(** a value as [json.loads] builds it: no dictionary holds a key twice *)
Fixpoint wf_json (j : json) : bool :=
  match j with
  | JArr l => forallb wf_json l
  | JObj d =>
      bool_decide (NoDup d.*1) && forallb (λ kv, let '(_, v) := kv in wf_json v) d
  | _ => true
  end.

(** fuel that [Json.scan_once] needs to read a value back *)
Fixpoint json_fuel (j : json) : nat :=
  match j with
  | JArr l => S (foldr (λ v n, S (json_fuel v) + n) 0 l)
  | JObj d => S (foldr (λ kv n, let '(_, v) := kv in S (json_fuel v) + n) 0 d)
  | _ => 1
  end.

(** what may follow a value in the encoder's output: the end of the text, a
    comma, or a line feed *)
Definition delimited (rest : string) : Prop :=
  match rest with
  | "" => True
  | String c _ => c = ","%char ∨ c = Json.nl
  end.

Abbreviation values_wf :=
  (forallb (λ kv : string * json, let '(_, v) := kv in wf_json v)).

(** [scan_once] reads the encoding of [v] back, at any indentation and with
    any fuel from [json_fuel v] on *)
Definition reads_back (v : json) : Prop :=
  ∀ (level : nat) (rest : string) (fuel : nat),
    json_fuel v ≤ fuel → delimited rest → wf_json v = true →
    Json.scan_once fuel (Json.iterencode level v +:+ rest) = Some (v, rest).

(** ** Stores and descriptors between two runs

    Proof devices for idempotence. *)

(** two stores with the same digest files *)
Definition same_digests (fs fs' : filesystem) : Prop :=
  ∀ config_volume : string,
    fs !! (config_volume +:+ ".md5sum") = fs' !! (config_volume +:+ ".md5sum").

(** [config] is settled in a store: an obsolete descriptor is gone, an active
    one is a file whose hash is up to date *)
Definition settled (prefix : string) (fs : filesystem) (config : string)
  : Prop :=
  if obsolete config then fs !! config = None
  else ∃ f, fs !! config = Some (Regular f)
            ∧ reconcile prefix fs (content f) = Ok None.

(** the store only loses regular files *)
Definition shrunk (fs fs' : filesystem) : Prop :=
  ∀ k, match fs' !! k with
       | Some Directory => fs !! k = Some Directory
       | Some (Regular _) => ∃ f, fs !! k = Some (Regular f)
       | None => True
       end.

(** what [_find] lists: the regular files below the directory [top] whose
    name matches [*.json] *)
Definition found (top : string) (fs : filesystem) (p : string) : Prop :=
  fs !! top = Some Directory
  ∧ (∃ f, fs !! p = Some (Regular f))
  ∧ ∃ root filename, walked top p = Some (root, filename)
                     ∧ Str.endswith filename ".json" = true.

(** what [_find] makes of one entry of the walk *)
Definition joined (entry : string * list string * list string) : list string :=
  let '(root, _, filenames) := entry in
  os_path.join root <$> fnmatch_filter_json filenames.

(** ** Scenarios *)

Definition nova_json : string :=
  "/var/lib/edpm-config/container-startup-config/nova.json".

Definition nova_volumes : json :=
  JArr [JStr "/var/lib/config-data/nova:/etc/nova:ro"].

(** a startup-config root that holds the descriptor [nova.json] with the
    text [descriptor], and the digest files [digests] *)
Definition nova_host (descriptor : string) (digests : list (string * string))
  : filesystem :=
  <[CONTAINER_STARTUP_CONFIG := Directory]>
    (<[nova_json := Regular (File descriptor 420)]>
       (list_to_map (prod_map id (λ text, Regular (File text 420)) <$> digests))).

Definition nova_digest : list (string * string) :=
  [("/var/lib/config-data/nova.md5sum", "abc123" +:+ String Json.nl "")].

Definition default_params (check : bool) : module :=
  Module_ (Params check "/var/lib/config-data" false 6) check.

(** * Properties of the string methods *)

Section string_facts.
Implicit Types (s t r pre : string) (a c : ascii) (n : nat).

Lemma str_app_nil_l t : "" +:+ t = t.
Proof. reflexivity. Qed.

Lemma str_app_cons a s t : String a s +:+ t = String a (s +:+ t).
Proof. reflexivity. Qed.

Lemma str_app_nil_r s : s +:+ "" = s.
Proof. induction s as [|a s IH]; [done|]. by rewrite str_app_cons, IH. Qed.

Lemma str_app_assoc s t r : (s +:+ t) +:+ r = s +:+ t +:+ r.
Proof. induction s as [|a s IH]; [reflexivity|]. by rewrite !str_app_cons, IH. Qed.

Lemma str_length_app s t :
  String.length (s +:+ t) = String.length s + String.length t.
Proof.
  induction s as [|a s IH]; [reflexivity|]. rewrite str_app_cons. simpl. lia.
Qed.

Lemma startswith_spec s pre :
  Str.startswith s pre = true ↔ ∃ r, s = pre +:+ r.
Proof.
  revert s. induction pre as [|a pre IH]; intros s; simpl.
  - split; [eauto|done].
  - destruct s as [|b s].
    + split; [done|]. by intros [r ?].
    + rewrite andb_true_iff, Ascii.eqb_eq, IH. split.
      * intros [-> [r ->]]. by exists r.
      * intros [r Hr]. rewrite str_app_cons in Hr. injection Hr as -> ->. eauto.
Qed.

Lemma startswith_app s r : Str.startswith (s +:+ r) s = true.
Proof. apply startswith_spec. eauto. Qed.

Lemma startswith_refl s : Str.startswith s s = true.
Proof. apply startswith_spec. exists "". by rewrite str_app_nil_r. Qed.

Lemma length_take n s : String.length (Str.take n s) = n `min` String.length s.
Proof.
  revert s. induction n as [|n IH]; intros [|a s]; simpl; try done.
  by rewrite IH.
Qed.

Lemma take_all n s : String.length s ≤ n → Str.take n s = s.
Proof.
  revert s. induction n as [|n IH]; intros [|a s]; simpl; try done; [lia|].
  intros ?. f_equal. apply IH. lia.
Qed.

Lemma take_drop n s : Str.take n s +:+ Str.drop n s = s.
Proof.
  revert s. induction n as [|n IH]; intros [|a s]; simpl; try done.
  by rewrite str_app_cons, IH.
Qed.

Lemma rfind_bounds c s :
  (-1 ≤ Str.rfind c s < Z.of_nat (String.length s))%Z.
Proof.
  induction s as [|a s IH]; simpl; [lia|].
  destruct (Z.leb_spec 0 (Str.rfind c s)); [lia|].
  destruct (Ascii.eqb a c); lia.
Qed.

Lemma length_rstrip c s : String.length (Str.rstrip c s) ≤ String.length s.
Proof.
  induction s as [|a s IH]; simpl; [done|].
  destruct (Str.rstrip c s); simpl in *; [destruct (Ascii.eqb a c); simpl|]; lia.
Qed.

Lemma rstrip_fixed c s :
  String.length (Str.rstrip c s) = String.length s → Str.rstrip c s = s.
Proof.
  induction s as [|a s IH]; simpl; [done|].
  pose proof (length_rstrip c s) as Hle.
  destruct (Str.rstrip c s) as [|b t] eqn:E; simpl in *.
  - destruct (Ascii.eqb a c); simpl; [lia|]. intros ?.
    destruct s; simpl in *; [done|lia].
  - intros ?. f_equal. apply IH. lia.
Qed.

(** a string whose last character is [c] loses it *)
Lemma rstrip_last c s :
  (0 ≤ Str.rfind c s)%Z →
  (Str.rfind c s + 1 = Z.of_nat (String.length s))%Z →
  String.length (Str.rstrip c s) < String.length s.
Proof.
  induction s as [|a s IH]; simpl; [lia|].
  pose proof (rfind_bounds c s). pose proof (length_rstrip c s).
  destruct (Z.leb_spec 0 (Str.rfind c s)).
  - intros _ ?. assert (String.length (Str.rstrip c s) < String.length s)
      by (apply IH; lia).
    destruct (Str.rstrip c s); simpl in *;
      [destruct (Ascii.eqb a c); simpl|]; lia.
  - destruct (Ascii.eqb a c) eqn:E; [|lia]. intros _ ?.
    destruct s; simpl in *; lia.
Qed.

Lemma repeat_length c n : String.length (Str.repeat c n) = n.
Proof. induction n; simpl; congruence. Qed.

(** [rstrip] empties exactly the strings made of [c] alone *)
Lemma rstrip_empty c s :
  Str.rstrip c s = "" ↔ s = Str.repeat c (String.length s).
Proof.
  induction s as [|a s IH]; simpl; [done|].
  destruct (Str.rstrip c s) as [|b t] eqn:E.
  - destruct (Ascii.eqb_spec a c) as [->|Hne].
    + split; [|done]. intros _. f_equal. by apply IH.
    + split; [done|]. intros [=]. done.
  - split; [done|]. intros [= -> Hs]. by apply IH in Hs.
Qed.

Lemma repeat_prefix c n s r :
  s +:+ r = Str.repeat c n → s = Str.repeat c (String.length s).
Proof.
  revert n. induction s as [|a s IH]; intros [|n]; simpl; try done.
  rewrite str_app_cons. intros [= -> Hs]. f_equal. eauto.
Qed.

End string_facts.

(** * [os.path.dirname] never lengthens a path *)

Lemma dirname_length p :
  String.length (os_path.dirname p) ≤ String.length p.
Proof.
  unfold os_path.dirname.
  set (head := Str.take _ p).
  assert (String.length head ≤ String.length p)
    by (unfold head; rewrite length_take; lia).
  pose proof (length_rstrip os_path.sep head).
  destruct (_ && _); lia.
Qed.

(** A path that [dirname] does not shorten is a fixed point of it ... *)
Lemma dirname_fixed p :
  String.length (os_path.dirname p) = String.length p → os_path.dirname p = p.
Proof.
  unfold os_path.dirname.
  set (i := Z.to_nat _). set (head := Str.take i p).
  assert (Hlen : String.length head = i `min` String.length p)
    by apply length_take.
  pose proof (length_rstrip os_path.sep head).
  assert (Hall : String.length head = String.length p → head = p).
  { intros ?. apply take_all. lia. }
  destruct (_ && _).
  - intros ?. rewrite rstrip_fixed by lia. apply Hall. lia.
  - done.
Qed.

(** ... and is made of separators alone. *)
Lemma dirname_fixed_seps p :
  String.length (os_path.dirname p) = String.length p →
  p = Str.repeat os_path.sep (String.length p).
Proof.
  unfold os_path.dirname.
  set (i := Z.to_nat _). set (head := Str.take i p).
  assert (Hlen : String.length head = i `min` String.length p)
    by apply length_take.
  assert (Hi : i = Z.to_nat (Str.rfind os_path.sep p + 1)) by done.
  pose proof (length_rstrip os_path.sep head) as Hle.
  pose proof (rfind_bounds os_path.sep p) as Hb.
  destruct (String.eqb_spec head "") as [E|E]; simpl.
  { rewrite E. simpl. by destruct p. }
  destruct (String.eqb_spec head (Str.repeat os_path.sep (String.length head)))
    as [E'|E']; simpl.
  { intros Hp. assert (head = p) as Hhead by (apply take_all; lia).
    by rewrite Hhead in E'. }
  intros Hp. exfalso.
  assert (head = p) as Hhead by (apply take_all; lia).
  rewrite Hhead in Hp.
  assert (String.length p ≠ 0) by (destruct p; [congruence|done]).
  enough (String.length (Str.rstrip os_path.sep p) < String.length p) by lia.
  rewrite Hhead in Hlen. apply rstrip_last; lia.
Qed.

Lemma dirname_shrinks p :
  p ≠ Str.repeat os_path.sep (String.length p) →
  String.length (os_path.dirname p) < String.length p.
Proof.
  intros Hp. pose proof (dirname_length p).
  destruct (decide (String.length (os_path.dirname p) = String.length p)) as [E|E];
    [|lia].
  by apply dirname_fixed_seps in E.
Qed.

Section more_string_facts.
Implicit Types (s t r pre : string) (a c : ascii) (n : nat).

Lemma startswith_trans s t r :
  Str.startswith s t = true → Str.startswith t r = true →
  Str.startswith s r = true.
Proof.
  rewrite !startswith_spec. intros [x ->] [y ->]. exists (y +:+ x).
  by rewrite str_app_assoc.
Qed.

Lemma startswith_app_cancel s t r :
  Str.startswith (s +:+ t) (s +:+ r) = Str.startswith t r.
Proof.
  induction s as [|a s IH]; [reflexivity|].
  rewrite !str_app_cons. simpl. by rewrite Ascii.eqb_refl, IH.
Qed.

Lemma take_app s t n :
  Str.take (String.length s + n) (s +:+ t) = s +:+ Str.take n t.
Proof.
  induction s as [|a s IH]; [reflexivity|].
  rewrite !str_app_cons. simpl. by rewrite IH.
Qed.

Lemma startswith_take s n : Str.startswith s (Str.take n s) = true.
Proof. apply startswith_spec. exists (Str.drop n s). by rewrite take_drop. Qed.

Lemma rfind_app c s r :
  (Z.of_nat (String.length s) ≤ Str.rfind c (s +:+ String c r))%Z.
Proof.
  induction s as [|a s IH].
  - rewrite str_app_nil_l. simpl. pose proof (rfind_bounds c r).
    destruct (Z.leb_spec 0 (Str.rfind c r)); [lia|].
    rewrite Ascii.eqb_refl. lia.
  - rewrite str_app_cons. simpl.
    destruct (Z.leb_spec 0 (Str.rfind c (s +:+ String c r))); lia.
Qed.

Lemma rstrip_cons c a s :
  Str.rstrip c (String a s) =
    match Str.rstrip c s with
    | "" => if Ascii.eqb a c then "" else String a ""
    | r => String a r
    end.
Proof. reflexivity. Qed.

Lemma rstrip_app c s t :
  Str.rstrip c (s +:+ t) =
    if String.eqb (Str.rstrip c t) "" then Str.rstrip c s
    else s +:+ Str.rstrip c t.
Proof.
  induction s as [|a s IH].
  - rewrite !str_app_nil_l. by destruct (String.eqb_spec (Str.rstrip c t) "") as [->|].
  - rewrite !str_app_cons, !rstrip_cons, IH.
    destruct (String.eqb_spec (Str.rstrip c t) "") as [E|E]; [done|].
    destruct s; [rewrite str_app_nil_l|rewrite str_app_cons]; [|done].
    by destruct (Str.rstrip c t).
Qed.

Lemma rstrip_idemp c s : Str.rstrip c (Str.rstrip c s) = Str.rstrip c s.
Proof.
  induction s as [|a s IH]; [done|]. rewrite rstrip_cons.
  destruct (Str.rstrip c s) as [|b t] eqn:E.
  - destruct (Ascii.eqb a c) eqn:Ea; simpl; [done|]. by rewrite Ea.
  - rewrite rstrip_cons, IH. done.
Qed.

(** what [rstrip] removes is a run of [c] *)
Lemma rstrip_split c s :
  s = Str.rstrip c s
      +:+ Str.repeat c (String.length s - String.length (Str.rstrip c s)).
Proof.
  induction s as [|a s IH]; [done|]. rewrite rstrip_cons.
  destruct (Str.rstrip c s) as [|b t] eqn:E.
  - rewrite str_app_nil_l in IH. simpl in IH. rewrite Nat.sub_0_r in IH.
    destruct (Ascii.eqb_spec a c) as [->|].
    + rewrite str_app_nil_l. simpl. by rewrite <-IH.
    + rewrite str_app_cons, str_app_nil_l. simpl. rewrite Nat.sub_0_r. by rewrite <-IH.
  - rewrite str_app_cons. simpl in *. by rewrite <-IH.
Qed.

Lemma startswith_rstrip c s : Str.startswith s (Str.rstrip c s) = true.
Proof. apply startswith_spec. eexists. apply rstrip_split. Qed.

(** a non-empty [rstrip] keeps the first character *)
Lemma rstrip_head c a s :
  Str.rstrip c (String a s) ≠ "" →
  ∃ t, Str.rstrip c (String a s) = String a t.
Proof.
  rewrite rstrip_cons. destruct (Str.rstrip c s); [|eauto].
  destruct (Ascii.eqb a c); [done|eauto].
Qed.

(** stripping a prefix of [s] keeps the separators that [s] starts with *)
Lemma rstrip_take_repeat c n k s :
  Str.rstrip c (Str.take n s) ≠ "" →
  Str.startswith s (Str.repeat c k) = true →
  Str.startswith (Str.rstrip c (Str.take n s)) (Str.repeat c k) = true.
Proof.
  revert n s. induction k as [|k IH]; intros n s Hne Hs; [done|].
  destruct s as [|b s]; [done|]. simpl in Hs.
  apply andb_true_iff in Hs as [->%Ascii.eqb_eq Hs].
  destruct n as [|n]; [done|]. simpl Str.take in *.
  rewrite rstrip_cons in *.
  destruct (Str.rstrip b (Str.take n s)) as [|a t] eqn:E.
  - by rewrite Ascii.eqb_refl in Hne.
  - simpl. rewrite Ascii.eqb_refl. simpl. rewrite <-E. apply IH; [|done].
    by rewrite E.
Qed.

End more_string_facts.

(** * [dirname] below a directory *)

Lemma dirname_prefix p : Str.startswith p (os_path.dirname p) = true.
Proof.
  unfold os_path.dirname. destruct (_ && _); [|apply startswith_take].
  eapply startswith_trans; [apply startswith_take|apply startswith_rstrip].
Qed.

Section dirname_below.
Variable base : string.
Hypothesis base_nonempty : base ≠ "".
Hypothesis base_stripped : Str.rstrip os_path.sep base = base.

Let below (p : string) : bool :=
  Str.startswith p (base +:+ String os_path.sep "").

Lemma base_not_seps r :
  base +:+ r ≠ Str.repeat os_path.sep (String.length (base +:+ r)).
Proof.
  intros E. apply repeat_prefix in E. apply rstrip_empty in E. congruence.
Qed.

(** The parent of a path below [base] is [base], or is below [base] and
    still begins with every separator written after [base]. *)
Lemma dirname_below p k :
  below p = true →
  os_path.dirname p = base
  ∨ (below (os_path.dirname p) = true
     ∧ (Str.startswith p (base +:+ Str.repeat os_path.sep k) = true →
        Str.startswith (os_path.dirname p)
                       (base +:+ Str.repeat os_path.sep k) = true)).
Proof.
  unfold below. intros [r ->]%startswith_spec.
  rewrite str_app_assoc, str_app_cons, str_app_nil_l. unfold os_path.dirname.
  set (p := base +:+ String os_path.sep r).
  pose proof (rfind_app os_path.sep base r) as Hi.
  pose proof (rfind_bounds os_path.sep p) as Hb.
  assert (Z.to_nat (Str.rfind os_path.sep p + 1)
          = String.length base + S (Z.to_nat (Str.rfind os_path.sep p)
                                    - String.length base)) as -> by (unfold p; lia).
  set (n := _ - _). unfold p. rewrite take_app. simpl Str.take.
  set (x := String os_path.sep (Str.take n r)).
  destruct (String.eqb_spec (base +:+ x) "") as [E|_].
  { by destruct base. }
  destruct (String.eqb_spec (base +:+ x)
              (Str.repeat os_path.sep (String.length (base +:+ x)))) as [E|_].
  { by apply base_not_seps in E. }
  simpl. rewrite rstrip_app, base_stripped.
  destruct (String.eqb_spec (Str.rstrip os_path.sep x) "") as [E|E]; [by left|].
  right. unfold x in *. split.
  - destruct (rstrip_head _ _ _ E) as [t ->].
    apply startswith_spec. exists t. by rewrite str_app_assoc.
  - rewrite !startswith_app_cancel. intros Hk.
    change (String os_path.sep (Str.take n r))
      with (Str.take (S n) (String os_path.sep r)) in *.
    by apply rstrip_take_repeat.
Qed.

End dirname_below.

(** * The crawl of [_get_config_base] *)

Section crawl_facts.
Variables prefix base base_generated volume : string.

Local Abbreviation loop n := (crawl n prefix base base_generated volume).


(** Fuel for one iteration per character decides the loop: if it runs out,
    the loop sits at a fixed point of [dirname] and never exits. *)
Lemma crawl_hang_forever path :
  loop (S (String.length path)) path = Hang → ∀ n, loop n path = Hang.
Proof.
  assert (∀ f path, String.length path < f → loop f path = Hang →
                    ∀ n, loop n path = Hang) as H; [|apply H; lia].
  clear path. induction f as [|f IH]; intros path Hlt Hf n; [lia|].
  simpl in Hf.
  destruct (Str.startswith path prefix) eqn:Hs; [|done].
  destruct (_ || _) eqn:Hstop; [done|].
  pose proof (dirname_length path).
  destruct (decide (String.length (os_path.dirname path) = String.length path))
    as [E|E].
  - apply dirname_fixed in E. clear IH Hf.
    induction n as [|n IHn]; [done|]. simpl. by rewrite Hs, Hstop, E.
  - destruct n as [|n]; [done|]. simpl. rewrite Hs, Hstop.
    apply IH; [lia|done].
Qed.

Lemma crawl_decided n path :
  Str.rstrip os_path.sep prefix ≠ "" →
  String.length path < n → loop n path ≠ Hang.
Proof.
  intros Hbase. revert path. induction n as [|n IH]; intros path Hlt; [lia|].
  simpl. destruct (Str.startswith path prefix) eqn:Hs; [|done].
  destruct (_ || _); [done|]. apply IH.
  enough (String.length (os_path.dirname path) < String.length path) by lia.
  apply dirname_shrinks. intros E.
  apply startswith_spec in Hs as [r Hr]. rewrite Hr in E.
  apply repeat_prefix, rstrip_empty in E. done.
Qed.

Lemma crawl_ok n path p :
  loop n path = Ok p →
  Str.startswith p prefix = true
  ∧ (os_path.dirname p = base ∨ os_path.dirname p = base_generated)
  ∧ ∃ k, p = Nat.iter k os_path.dirname path.
Proof.
  revert path. induction n as [|n IH]; intros path; [done|]. simpl.
  destruct (Str.startswith path prefix) eqn:Hs; [|done].
  destruct (_ || _) eqn:Hstop.
  - intros [= <-]. split; [done|]. split; [|by exists 0].
    apply orb_true_iff in Hstop as [?%String.eqb_eq|?%String.eqb_eq]; auto.
  - intros (? & ? & k & ->)%IH. split; [done|]. split; [done|].
    exists (S k). by rewrite Nat.iter_succ_r.
Qed.


Lemma crawl_ancestor k path :
  Str.startswith path (Nat.iter k os_path.dirname path) = true.
Proof.
  induction k as [|k IH]; simpl; [apply startswith_refl|].
  eapply startswith_trans; [apply IH|apply dirname_prefix].
Qed.

(** Below a non-empty stripped prefix the crawl reaches a stop condition. *)
Lemma crawl_below n path :
  base = Str.rstrip os_path.sep prefix → base ≠ "" →
  String.length path < n →
  Str.startswith path prefix = true →
  Str.startswith path (base +:+ String os_path.sep "") = true →
  ∃ p, loop n path = Ok p.
Proof.
  intros Hbase Hne.
  assert (Str.rstrip os_path.sep base = base) as Hstripped
    by (rewrite Hbase; apply rstrip_idemp).
  pose proof (rstrip_split os_path.sep prefix) as Hk. rewrite <-Hbase in Hk.
  set (k := _ - _) in Hk.
  revert path. induction n as [|n IH]; intros path Hlt Hs Hb; [lia|].
  simpl. rewrite Hs.
  destruct (String.eqb_spec (os_path.dirname path) base) as [E|E]; [by eexists|].
  destruct (String.eqb (os_path.dirname path) base_generated); [by eexists|].
  simpl.
  destruct (dirname_below base Hne Hstripped path k Hb) as [?|[Hb' Hs']]; [done|].
  apply IH; [|rewrite Hk; apply Hs'; by rewrite <-Hk|done].
  enough (String.length (os_path.dirname path) < String.length path) by lia.
  apply dirname_shrinks. apply startswith_spec in Hb as [r ->].
  rewrite str_app_assoc. by apply base_not_seps.
Qed.

End crawl_facts.



(** C1, as the code has it.  A volume source that starts with the prefix
    and lies below the stripped prefix (it starts with the stripped prefix
    followed by a separator) resolves: the Base Resolver returns an ancestor
    of the source, or the source itself (the source with its parent
    directory taken some number of times, so a whole number of path
    components up), whose parent directory is the stripped prefix or its
    [ansible-generated] directory.  The two sources of
    the nova example resolve to [/var/lib/config-data/nova] and
    [/var/lib/config-data/ansible-generated/nova]. *)
Theorem config_base_below_prefix :
  (∀ prefix volume : string,
     let base := Str.rstrip os_path.sep prefix in
     base ≠ "" →
     Str.startswith volume prefix = true →
     Str.startswith volume (base +:+ "/") = true →
     ∃ path, _get_config_base prefix volume = Ok path
             ∧ (∃ k, path = Nat.iter k os_path.dirname volume)
             ∧ Str.startswith volume path = true
             ∧ (os_path.dirname path = base
                ∨ os_path.dirname path = os_path.join base "ansible-generated"))
  ∧ _get_config_base "/var/lib/config-data"
      "/var/lib/config-data/nova/etc/nova/nova.conf"
    = Ok "/var/lib/config-data/nova"
  ∧ _get_config_base "/var/lib/config-data"
      "/var/lib/config-data/ansible-generated/nova/etc/nova.conf"
    = Ok "/var/lib/config-data/ansible-generated/nova".
Proof.
  split; [|by split].
  intros prefix volume base Hbase Hs Hb. unfold _get_config_base. fold base.
  destruct (crawl_below prefix base (os_path.join base "ansible-generated")
              volume (S (String.length volume)) volume)
    as [p Hp]; [done|done|lia|done|done|].
  exists p. split; [done|].
  apply crawl_ok in Hp as (_ & ? & k & ->). split; [by exists k|].
  split; [|done]. apply crawl_ancestor.
Qed.

Lemma config_base_below_prefix_witness :
  ∃ path, _get_config_base "/var/lib/config-data//"
            "/var/lib/config-data//glance/etc/glance" = Ok path
          ∧ (∃ k, path = Nat.iter k os_path.dirname
                           "/var/lib/config-data//glance/etc/glance")
          ∧ Str.startswith "/var/lib/config-data//glance/etc/glance" path = true
          ∧ (os_path.dirname path = "/var/lib/config-data"
             ∨ os_path.dirname path = "/var/lib/config-data/ansible-generated").
Proof.
  apply (proj1 config_base_below_prefix "/var/lib/config-data//"
           "/var/lib/config-data//glance/etc/glance").
  - vm_compute. discriminate.
  - reflexivity.
  - reflexivity.
Defined.

(** C1 as stated fails: a source can start with the prefix as a string and
    have no ancestor directly below it.  The prefix directory itself and a
    sibling directory whose name extends the prefix are such sources; the
    Base Resolver fails on both. *)
Lemma config_base_not_total :
  let prefix := "/var/lib/config-data" in
  (Str.startswith "/var/lib/config-data" prefix = true
   ∧ _get_config_base prefix "/var/lib/config-data"
     = Fail (no_config_base "/var/lib/config-data" prefix))
  ∧ (Str.startswith "/var/lib/config-data-old/nova/nova.conf" prefix = true
     ∧ _get_config_base prefix "/var/lib/config-data-old/nova/nova.conf"
       = Fail (no_config_base "/var/lib/config-data-old/nova/nova.conf" prefix)).
Proof. by vm_compute. Qed.

(** With the prefix [/] the stripped prefix is empty and the crawl never
    leaves the root. *)
Lemma crawl_root_prefix_hangs (fuel : nat) :
  crawl fuel "/" "" "ansible-generated" "/etc/nova" "/etc/nova" = Hang.
Proof. by apply crawl_hang_forever. Qed.

(** * The Volume Matcher *)











Lemma match_non_object (prefix : string) (config : json) :
  (∀ d, config ≠ JObj d) →
  _match_config_volumes prefix config
  = Fail (error_fetching_volumes prefix config).
Proof. intros H. destruct config; try done. by destruct (H kvs). Qed.

(** * The methods on a state *)

Lemma M_bind_run {A B : Type} (m : M A) (k : A → M B) (st : state) :
  (m ≫= k) st =
    match m st with
    | (Ok a, st') => k a st'
    | (Fail msg, st') => (Fail msg, st')
    | (Raise e, st') => (Raise e, st')
    | (Hang, st') => (Hang, st')
    end.
Proof. reflexivity. Qed.

Lemma get_config_hash_run (config_volume : string) (st : state) :
  _get_config_hash config_volume st = (digest (fs st) config_volume, st).
Proof.
  unfold _get_config_hash, digest, _slurp, path_exists, read_file.
  unfold os_path_exists, mbind, M_bind. cbv beta.
  destruct (fs st !! _) as [[f|]|] eqn:E.
  - rewrite bool_decide_true by eauto. cbv beta iota.
    rewrite bool_decide_true by (rewrite E; eauto). cbv beta iota.
    by rewrite E.
  - rewrite bool_decide_true by eauto. cbv beta iota.
    rewrite bool_decide_true by (rewrite E; eauto). cbv beta iota.
    by rewrite E.
  - rewrite bool_decide_false; [done|]. by intros [? ?].
Qed.

Lemma mapM_cons_run {A B : Type} (f : A → M B) (x : A) (l : list A) (st : state) :
  mapM f (x :: l) st =
    match f x st with
    | (Ok y, st') =>
        match mapM f l st' with
        | (Ok ys, st'') => (Ok (y :: ys), st'')
        | (Fail msg, st'') => (Fail msg, st'')
        | (Raise e, st'') => (Raise e, st'')
        | (Hang, st'') => (Hang, st'')
        end
    | (Fail msg, st') => (Fail msg, st')
    | (Raise e, st') => (Raise e, st')
    | (Hang, st') => (Hang, st')
    end.
Proof.
  change (mapM f (x :: l)) with (y ← f x; ys ← mapM f l; mret (y :: ys)).
  rewrite M_bind_run. by destruct (f x st) as [[y| | |] st'].
Qed.

Lemma get_config_hashes_run (config_volumes : list string) (st : state) :
  mapM _get_config_hash config_volumes st
  = (mapM (digest (fs st)) config_volumes, st).
Proof.
  induction config_volumes as [|v vs IH]; [reflexivity|].
  rewrite mapM_cons_run, get_config_hash_run.
  change (mapM (digest (fs st)) (v :: vs))
    with (y ← digest (fs st) v; ys ← mapM (digest (fs st)) vs; mret (y :: ys)).
  destruct (digest _ _); try done. rewrite IH.
  by destruct (mapM (digest (fs st)) vs).
Qed.

Lemma stored_hash_set_hash h d old :
  stored_hash d = Ok old → ∃ d', set_hash h d = Ok d'.
Proof.
  unfold stored_hash, set_hash, Dict.contains.
  destruct (Dict.get "environment" d) as [[| | | | |env]|] eqn:E; try done.
  - rewrite E. eauto.
  - intros _.
    assert (Dict.get "environment" (Dict.set "environment" (JObj []) d)
            = Some (JObj [])) as ->; [|eauto].
    clear E. induction d as [|[k v] d IH]; [done|]. simpl.
    destruct (String.eqb_spec k "environment") as [->|]; simpl; [done|].
    by destruct (String.eqb_spec k "environment").
Qed.

(** The loop body on an obsolete descriptor is [_remove_file]. *)
Lemma update_hash_obsolete prefix config st :
  obsolete config = true →
  update_hash prefix config st = _remove_file config st.
Proof. unfold update_hash, obsolete. by intros ->. Qed.

(** The loop body on an active descriptor that is a file of the store. *)
Lemma update_hash_active prefix config st f :
  obsolete config = false →
  fs st !! config = Some (Regular f) →
  update_hash prefix config st =
    match reconcile prefix (fs st) (content f) with
    | Ok None => (Ok (), st)
    | Ok (Some (h, j)) =>
        (Ok (),
         State (rewritten (fs st) config (Json.dumps j)) true (warnings st)
               (debug_log st
                ++ [Format "Config change detected for {}, new hash: {}"
                      [ArgStr (os_path.splitext (os_path.basename config)).1;
                       ArgStr h]]))
    | Fail msg => (Fail msg, st)
    | Raise e => (Raise e, st)
    | Hang => (Hang, st)
    end.
Proof.
  unfold update_hash, obsolete, reconcile. intros -> Hf.
  unfold _slurp, path_exists, read_file, json_loads, lift, os_path_exists.
  unfold mbind, M_bind, outcome_bind. cbv beta.
  rewrite bool_decide_true by eauto. cbv beta iota. rewrite Hf.
  destruct (Json.loads (content f)) as [j|]; [|done].
  destruct (_match_config_volumes prefix j) as [vols| | |] eqn:Ev; try done.
  rewrite get_config_hashes_run.
  destruct (mapM (digest (fs st)) vols) as [hs| | |]; try done.
  destruct j as [| | | | |d]; try done.
  destruct (stored_hash d) as [old| | |] eqn:Eo; try done.
  unfold filter_truth. fold (aggregate hs).
  destruct (py_eq_str (aggregate hs) old); [done|].
  destruct (stored_hash_set_hash (aggregate hs) d old Eo) as [d' Hd'].
  rewrite Hd'. unfold module_debug, _update_container_config, write_file.
  unfold mbind, M_bind. simpl. rewrite Hf. simpl.
  unfold rewritten, set_changed, os_chmod, put_fs. simpl. do 3 f_equal.
  apply map_eq. intros k. rewrite lookup_alter.
  destruct (decide (config = k)) as [->|].
  - by rewrite !lookup_insert_eq.
  - by rewrite !lookup_insert_ne.
Qed.

(** The loop stops at the first iteration that does not return. *)
Lemma mapM_app_abort {A B : Type} (f : A → M B) (l1 l2 : list A) (x : A)
    (st0 st st' : state) (r : list B) (o : outcome B) :
  mapM f l1 st0 = (Ok r, st) →
  f x st = (o, st') →
  (∀ y, o ≠ Ok y) →
  ∃ o', mapM f (l1 ++ x :: l2) st0 = (o', st')
        ∧ match o, o' with
          | Fail msg, Fail msg' => msg = msg'
          | Raise e, Raise e' => e = e'
          | Hang, Hang => True
          | _, _ => False
          end.
Proof.
  intros H1 Hx Ho. revert st0 r H1.
  induction l1 as [|y l1 IH]; intros st0 r H1.
  - injection H1 as _ ->. simpl app. rewrite mapM_cons_run, Hx.
    destruct o; [by destruct (Ho a)|by eexists..].
  - simpl app. rewrite mapM_cons_run in H1 |- *.
    destruct (f y st0) as [[b| | |] st1]; try done.
    destruct (mapM f l1 st1) as [[r1| | |] st2] eqn:E; try done.
    injection H1 as _ ->.
    destruct (IH _ _ E) as (o' & -> & Ho'). exists o'. split; [|done].
    by destruct o'; destruct o.
Qed.

(** * [strip] *)

Section strip_facts.
Implicit Types (s t : string) (c : ascii).

Lemma lstrip_repeat c n s : Str.lstrip c (Str.repeat c n +:+ s) = Str.lstrip c s.
Proof.
  induction n as [|n IH]; [reflexivity|].
  simpl Str.repeat. rewrite str_app_cons. simpl. by rewrite Ascii.eqb_refl.
Qed.

Lemma rstrip_repeat c n : Str.rstrip c (Str.repeat c n) = "".
Proof. apply rstrip_empty. by rewrite repeat_length. Qed.

Lemma rstrip_app_repeat c n s :
  Str.rstrip c (s +:+ Str.repeat c n) = Str.rstrip c s.
Proof. by rewrite rstrip_app, rstrip_repeat. Qed.

(** [strip] removes the run of [c] at both ends and nothing else *)
Lemma strip_both_ends c a b s :
  Str.lstrip c s = s → Str.rstrip c s = s →
  Str.strip c (Str.repeat c a +:+ s +:+ Str.repeat c b) = s.
Proof.
  intros Hl Hr. unfold Str.strip. rewrite lstrip_repeat.
  destruct s as [|x s].
  - rewrite str_app_nil_l. rewrite <-(str_app_nil_r (Str.repeat c b)).
    by rewrite lstrip_repeat.
  - assert (Ascii.eqb x c = false) as E.
    { destruct (Ascii.eqb x c) eqn:E; [|done]. exfalso.
      simpl in Hl. rewrite E in Hl.
      assert (String.length (Str.lstrip c s) ≤ String.length s).
      { clear. induction s as [|y s IH]; simpl; [done|].
        destruct (Ascii.eqb y c); simpl; lia. }
      apply (f_equal String.length) in Hl. simpl in Hl. lia. }
    rewrite str_app_cons. simpl Str.lstrip. rewrite E.
    by rewrite <-str_app_cons, rstrip_app_repeat.
Qed.

Lemma strip_only c n : Str.strip c (Str.repeat c n) = "".
Proof.
  rewrite <-(str_app_nil_r (Str.repeat c n)).
  exact (strip_both_ends c n 0 "" eq_refl eq_refl).
Qed.

End strip_facts.

(** * The Hash Aggregator *)

Lemma filter_yield_app hs1 hs2 :
  filter_yield (FilterNone (hs1 ++ hs2))
  = filter_yield (FilterNone hs1) ++ filter_yield (FilterNone hs2).
Proof. unfold filter_yield. simpl. apply omap_app. Qed.

(** C10. A digest file that holds newline characters only (the empty file
    included) reads as the empty digest; in the aggregate an empty digest is
    dropped just as the [None] of a missing digest file is, which is as if
    the ConfigBase were not in the list; and the digest of any file is its
    text without the newlines at either end. *)
Theorem newline_only_digest_dropped :
  (∀ (st : state) (config_volume : string) (f : file) (n : nat),
     fs st !! (config_volume +:+ ".md5sum") = Some (Regular f) →
     content f = Str.repeat Json.nl n →
     _get_config_hash config_volume st = (Ok (Some ""), st))
  ∧ (∀ (st : state) (config_volume : string),
       os_path_exists (fs st) (config_volume +:+ ".md5sum") = false →
       _get_config_hash config_volume st = (Ok None, st))
  ∧ (∀ hs1 hs2 : list (option string),
       aggregate (hs1 ++ Some "" :: hs2) = aggregate (hs1 ++ None :: hs2)
       ∧ aggregate (hs1 ++ None :: hs2) = aggregate (hs1 ++ hs2))
  ∧ (∀ (st : state) (config_volume : string) (f : file) (a b : nat) (s : string),
       fs st !! (config_volume +:+ ".md5sum") = Some (Regular f) →
       content f = Str.repeat Json.nl a +:+ s +:+ Str.repeat Json.nl b →
       Str.lstrip Json.nl s = s → Str.rstrip Json.nl s = s →
       _get_config_hash config_volume st = (Ok (Some s), st)).
Proof.
  assert (∀ (st : state) v f, fs st !! (v +:+ ".md5sum") = Some (Regular f) →
            _get_config_hash v st
            = (Ok (Some (Str.strip Json.nl (content f))), st)) as Hread.
  { intros st v f Hf. rewrite get_config_hash_run. unfold digest.
    by rewrite Hf. }
  split; [|split; [|split]].
  - intros st v f n Hf Hc. rewrite (Hread _ _ _ Hf), Hc. by rewrite strip_only.
  - intros st v He. rewrite get_config_hash_run. unfold digest.
    unfold os_path_exists in He. apply bool_decide_eq_false in He.
    destruct (fs st !! _); [|done]. destruct He. eauto.
  - intros hs1 hs2. unfold aggregate.
    by rewrite !filter_yield_app.
  - intros st v f a b s Hf Hc Hl Hr. rewrite (Hread _ _ _ Hf), Hc.
    by rewrite strip_both_ends.
Qed.

Lemma newline_only_digest_dropped_witness :
  let hashfile := "/var/lib/config-data/nova.md5sum" in
  let nl := String Json.nl "" in
  let st text := State {[ hashfile := Regular (File text 420) ]} false [] [] in
  _get_config_hash "/var/lib/config-data/nova" (st (nl +:+ nl))
  = (Ok (Some ""), st (nl +:+ nl))
  ∧ _get_config_hash "/var/lib/config-data/nova" (st (nl +:+ "abc123" +:+ nl))
    = (Ok (Some "abc123"), st (nl +:+ "abc123" +:+ nl)).
Proof.
  intros hashfile nl st. split.
  - apply (proj1 newline_only_digest_dropped (st (nl +:+ nl))
             "/var/lib/config-data/nova" (File (nl +:+ nl) 420) 2);
      reflexivity.
  - apply (proj2 (proj2 (proj2 newline_only_digest_dropped))
             (st (nl +:+ "abc123" +:+ nl)) "/var/lib/config-data/nova"
             (File (nl +:+ "abc123" +:+ nl) 420) 1 1 "abc123");
      reflexivity.
Defined.

(** * Python dictionaries *)

Section dict_facts.
Implicit Types (k : string) (v : json) (d : list (string * json)).

Lemma dict_get_set_eq k v d : Dict.get k (Dict.set k v d) = Some v.
Proof.
  induction d as [|[k' v'] d IH]; simpl.
  - by rewrite String.eqb_refl.
  - destruct (String.eqb_spec k' k) as [->|Hne]; simpl.
    + by rewrite String.eqb_refl.
    + by destruct (String.eqb_spec k' k).
Qed.

Lemma dict_get_set_ne k k' v d :
  k ≠ k' → Dict.get k' (Dict.set k v d) = Dict.get k' d.
Proof.
  intros Hne. induction d as [|[k1 v1] d IH]; simpl.
  - by destruct (String.eqb_spec k k').
  - destruct (String.eqb_spec k1 k) as [->|]; simpl.
    + by destruct (String.eqb_spec k k').
    + by rewrite IH.
Qed.

Lemma dict_set_new k v d : Dict.get k d = None → Dict.set k v d = d ++ [(k, v)].
Proof.
  induction d as [|[k' v'] d IH]; simpl; [done|].
  destruct (String.eqb k' k); [done|]. intros ?. by rewrite IH.
Qed.

Lemma dict_set_last k v v' d :
  Dict.get k d = None → Dict.set k v' (d ++ [(k, v)]) = d ++ [(k, v')].
Proof.
  induction d as [|[k1 v1] d IH]; simpl.
  - by rewrite String.eqb_refl.
  - destruct (String.eqb k1 k); [done|]. intros ?. by rewrite IH.
Qed.

End dict_facts.

(** what [set_hash] leaves in the descriptor *)
Lemma set_hash_spec h d d' :
  set_hash h d = Ok d' →
  (∃ env', Dict.get "environment" d' = Some (JObj env')
           ∧ Dict.get "EDPM_CONFIG_HASH" env' = Some (JStr h)
           ∧ ∀ env, Dict.get "environment" d = Some (JObj env) →
                    ∀ k, k ≠ "EDPM_CONFIG_HASH" →
                         Dict.get k env' = Dict.get k env)
  ∧ (∀ k, k ≠ "environment" → Dict.get k d' = Dict.get k d)
  ∧ (Dict.get "environment" d = None →
     d' = d ++ [("environment", JObj [("EDPM_CONFIG_HASH", JStr h)])]).
Proof.
  unfold set_hash, Dict.contains.
  destruct (Dict.get "environment" d) as [e|] eqn:E.
  - rewrite E. destruct e as [| | | | |env]; try done. intros [= <-].
    split; [|split; [|done]].
    + eexists. rewrite dict_get_set_eq. split; [done|].
      rewrite dict_get_set_eq. split; [done|]. intros ? [= <-] k ?.
      by rewrite dict_get_set_ne.
    + intros k ?. by rewrite dict_get_set_ne.
  - rewrite dict_get_set_eq. intros [= <-].
    split; [|split].
    + eexists. rewrite dict_get_set_eq. split; [done|]. split; [done|].
      by intros env ?.
    + intros k ?. by rewrite !dict_get_set_ne.
    + intros _. rewrite (dict_set_new _ _ d E). by apply dict_set_last.
Qed.

(** * The Reconciler *)

(** the loop body on an obsolete descriptor: a file is removed, an absent
    path is left alone *)
Lemma dict_set_set (k : string) (v1 v2 : json) (d : list (string * json)) :
  Dict.set k v2 (Dict.set k v1 d) = Dict.set k v2 d.
Proof.
  induction d as [|[k' v] d IH]; simpl.
  - by rewrite String.eqb_refl.
  - destruct (String.eqb_spec k' k) as [->|Hne]; simpl.
    + by rewrite String.eqb_refl.
    + destruct (String.eqb_spec k' k); [done|]. by rewrite IH.
Qed.

Lemma dict_set_get (k : string) (v : json) (d : list (string * json)) :
  Dict.get k d = Some v → Dict.set k v d = d.
Proof.
  induction d as [|[k' v'] d IH]; simpl; [done|].
  destruct (String.eqb_spec k' k) as [->|Hne]; [by intros [= ->]|].
  intros H. by rewrite IH.
Qed.

(** [set_hash] as one update of the descriptor *)
Lemma set_hash_eq (h : string) (d d' : list (string * json)) :
  set_hash h d = Ok d' →
  ∃ env, (Dict.get "environment" d = Some (JObj env)
          ∨ (Dict.get "environment" d = None ∧ env = []))
         ∧ d' = Dict.set "environment"
                  (JObj (Dict.set "EDPM_CONFIG_HASH" (JStr h) env)) d.
Proof.
  unfold set_hash, Dict.contains.
  destruct (Dict.get "environment" d) as [e|] eqn:He.
  - rewrite He. destruct e as [| | | | |env]; try done.
    intros [= <-]. exists env. split; [by left|done].
  - rewrite dict_get_set_eq. intros [= <-]. exists []. split; [by right|].
    by rewrite dict_set_set.
Qed.

Lemma update_hash_removes (prefix config : string) (st : state) :
  obsolete config = true →
  (∀ f, fs st !! config = Some (Regular f) →
        update_hash prefix config st
        = (Ok (), State (delete config (fs st)) (changed st) (warnings st)
                        (debug_log st)))
  ∧ (fs st !! config = None → update_hash prefix config st = (Ok (), st)).
Proof.
  intros Hobs. rewrite update_hash_obsolete by done.
  unfold _remove_file, path_exists, os_remove, os_path_exists.
  unfold mbind, M_bind. cbv beta. split.
  - intros f Hf. rewrite bool_decide_true by eauto. cbv beta iota.
    by rewrite Hf.
  - intros Hnone. rewrite bool_decide_false; [done|]. rewrite Hnone.
    by intros [? ?].
Qed.

Lemma reconcile_object prefix fs text d config_volumes config_hashes old :
  Json.loads text = Some (JObj d) →
  _match_config_volumes prefix (JObj d) = Ok config_volumes →
  mapM (digest fs) config_volumes = Ok config_hashes →
  stored_hash d = Ok old →
  reconcile prefix fs text =
    if py_eq_str (aggregate config_hashes) old then Ok None
    else d' ← set_hash (aggregate config_hashes) d;
         Ok (Some (aggregate config_hashes, JObj d')).
Proof.
  intros Hd Hv Hh Ho. unfold reconcile. rewrite Hd.
  unfold mbind at 1 2 3 4. unfold outcome_bind at 1 2 3 4.
  by rewrite Hv, Hh, Ho.
Qed.

(** C9. An active descriptor whose aggregate is not empty and differs from
    the stored hash is rewritten: the loop body stores the text
    [json.dumps(descriptor, indent=2)] at the descriptor's own path with
    mode 0o600 and sets [changed]; in the descriptor written, [environment]
    is a map whose [EDPM_CONFIG_HASH] is the aggregate, every other field is
    as before, an [environment] that was there keeps its place and every
    other variable it holds (the descriptor written is the one read with
    that one variable assigned), and an [environment] that was absent is
    created last.  In the nova scenario the descriptor gains the hash
    [abc123] and the run reports a change. *)
Theorem changed_hash_rewrites_descriptor :
  (∀ (prefix config : string) (st : state) (f : file)
     (d : list (string * json)) (config_volumes : list string)
     (config_hashes : list (option string)) (old : json),
     Str.startswith (os_path.splitext (os_path.basename config)).1 "hashed-"
     = false →
     fs st !! config = Some (Regular f) →
     Json.loads (content f) = Some (JObj d) →
     _match_config_volumes prefix (JObj d) = Ok config_volumes →
     mapM (digest (fs st)) config_volumes = Ok config_hashes →
     stored_hash d = Ok old →
     aggregate config_hashes ≠ "" →
     py_eq_str (aggregate config_hashes) old = false →
     ∃ d' env' st',
       update_hash prefix config st = (Ok (), st')
       ∧ fs st' = <[config := Regular (File (Json.dumps (JObj d')) 384)]> (fs st)
       ∧ changed st' = true
       ∧ Dict.get "environment" d' = Some (JObj env')
       ∧ Dict.get "EDPM_CONFIG_HASH" env'
         = Some (JStr (aggregate config_hashes))
       ∧ (∀ k, k ≠ "environment" → Dict.get k d' = Dict.get k d)
       ∧ (∀ env, Dict.get "environment" d = Some (JObj env) →
            (∀ k, k ≠ "EDPM_CONFIG_HASH" → Dict.get k env' = Dict.get k env)
            ∧ env' = Dict.set "EDPM_CONFIG_HASH"
                       (JStr (aggregate config_hashes)) env
            ∧ d' = Dict.set "environment" (JObj env') d)
       ∧ (Dict.get "environment" d = None →
          d' = d ++ [("environment",
                      JObj [("EDPM_CONFIG_HASH",
                             JStr (aggregate config_hashes))])]))
  ∧ (let run := main (default_params false)
                  (nova_host (Json.dumps (JObj [("volumes", nova_volumes)]))
                             nova_digest) in
     run.1 = Ok ()
     ∧ changed run.2 = true
     ∧ fs run.2 !! nova_json
       = Some (Regular
                 (File (Json.dumps
                          (JObj [("volumes", nova_volumes);
                                 ("environment",
                                  JObj [("EDPM_CONFIG_HASH", JStr "abc123")])]))
                       384))).
Proof.
  split; [|by vm_compute].
  intros prefix config st f d vols hs old Hact Hf Hd Hv Hh Ho _ Hne.
  rewrite (update_hash_active prefix config st f Hact Hf).
  rewrite (reconcile_object _ _ _ _ _ _ _ Hd Hv Hh Ho), Hne.
  destruct (stored_hash_set_hash (aggregate hs) d old Ho) as [d' Hd'].
  rewrite Hd'. simpl.
  destruct (set_hash_spec _ _ _ Hd') as ((env' & He' & Hh' & Hkeep) & ? & ?).
  exists d', env'. eexists. split; [done|]. simpl.
  repeat (split; [done|]). split; [|done].
  intros env He. split; [by apply Hkeep|].
  destruct (set_hash_eq _ _ _ Hd') as (env0 & [He0|[He0 _]] & ->);
    [|congruence].
  rewrite He in He0. injection He0 as <-.
  rewrite dict_get_set_eq in He'. by injection He' as <-.
Qed.

Lemma changed_hash_rewrites_descriptor_witness :
  let env := [("TZ", JStr "UTC"); ("EDPM_CONFIG_HASH", JStr "0ld");
              ("KOLLA_CONFIG_STRATEGY", JStr "COPY_ALWAYS")] in
  let d := [("image", JStr "quay.io/nova"); ("volumes", nova_volumes);
            ("environment", JObj env)] in
  let d' := [("image", JStr "quay.io/nova"); ("volumes", nova_volumes);
             ("environment",
              JObj [("TZ", JStr "UTC"); ("EDPM_CONFIG_HASH", JStr "abc123");
                    ("KOLLA_CONFIG_STRATEGY", JStr "COPY_ALWAYS")])] in
  let st := State (nova_host (Json.dumps (JObj d)) nova_digest) false [] [] in
  ∃ st',
    update_hash "/var/lib/config-data" nova_json st = (Ok (), st')
    ∧ fs st' = <[nova_json := Regular (File (Json.dumps (JObj d')) 384)]> (fs st)
    ∧ changed st' = true.
Proof.
  intros env d d' st.
  assert (fs st !! nova_json
          = Some (Regular (File (Json.dumps (JObj d)) 420))) as Hf
    by (vm_compute; reflexivity).
  assert (Json.loads (content (File (Json.dumps (JObj d)) 420))
          = Some (JObj d)) as Hd by (vm_compute; reflexivity).
  assert (mapM (digest (fs st)) ["/var/lib/config-data/nova"]
          = Ok [Some "abc123"]) as Hh by (vm_compute; reflexivity).
  destruct (proj1 changed_hash_rewrites_descriptor "/var/lib/config-data"
              nova_json st (File (Json.dumps (JObj d)) 420) d
              ["/var/lib/config-data/nova"] [Some "abc123"] (JStr "0ld")
              eq_refl Hf Hd eq_refl Hh eq_refl)
    as (d1 & env1 & st' & Hrun & Hfs & Hch & _ & _ & _ & Henv & _).
  - vm_compute. discriminate.
  - reflexivity.
  - destruct (Henv env eq_refl) as (_ & Henv1 & Hd1).
    exists st'. split; [exact Hrun|]. split; [|exact Hch].
    rewrite Hfs, Hd1, Henv1. reflexivity.
Defined.

(** The text that the nova scenario leaves in [nova.json]. *)
Example nova_json_text :
  let q s := String Json.dquote (s +:+ String Json.dquote "") in
  Json.dumps (JObj [("volumes", nova_volumes);
                    ("environment", JObj [("EDPM_CONFIG_HASH", JStr "abc123")])])
  = Str.join (String Json.nl "")
      ["{";
       "  " +:+ q "volumes" +:+ ": [";
       "    " +:+ q "/var/lib/config-data/nova:/etc/nova:ro";
       "  ],";
       "  " +:+ q "environment" +:+ ": {";
       "    " +:+ q "EDPM_CONFIG_HASH" +:+ ": " +:+ q "abc123";
       "  }";
       "}"].
Proof. reflexivity. Qed.

(** C3 on the code.  A descriptor that stores the hash [0ld] and has no
    digest file to read: nothing is retained, the aggregate is empty, and
    the descriptor is rewritten with an empty [EDPM_CONFIG_HASH] all the
    same; the run reports a change. *)
Theorem empty_aggregate_is_written :
  let d hash := [("volumes", nova_volumes);
                 ("environment", JObj [("EDPM_CONFIG_HASH", JStr hash)])] in
  let fs0 := nova_host (Json.dumps (JObj (d "0ld"))) [] in
  let run := main (default_params false) fs0 in
  reconcile "/var/lib/config-data" fs0 (Json.dumps (JObj (d "0ld")))
  = Ok (Some ("", JObj (d "")))
  ∧ run.1 = Ok ()
  ∧ changed run.2 = true
  ∧ fs run.2 !! nova_json
    = Some (Regular (File (Json.dumps (JObj (d ""))) 384)).
Proof. by vm_compute. Qed.

(** C4 on the code.  Neither the [check_mode] argument nor Ansible's check
    mode is ever read: a run in check mode is the run without it.  In the
    nova scenario it rewrites the descriptor and changes its mode. *)
Theorem check_mode_writes :
  (∀ (m : module) (fs0 : filesystem),
     main m fs0
     = main (Module_ (Params false (config_vol_prefix (module_params m))
                             (debug (module_params m)) (step (module_params m)))
                     false) fs0)
  ∧ (let fs0 := nova_host (Json.dumps (JObj [("volumes", nova_volumes)]))
                          nova_digest in
     let run := main (default_params true) fs0 in
     fs0 !! nova_json
     = Some (Regular (File (Json.dumps (JObj [("volumes", nova_volumes)])) 420))
     ∧ run.1 = Ok ()
     ∧ fs run.2 !! nova_json
       = Some (Regular
                 (File (Json.dumps
                          (JObj [("volumes", nova_volumes);
                                 ("environment",
                                  JObj [("EDPM_CONFIG_HASH", JStr "abc123")])]))
                       384))).
Proof. split; [by intros [[? ? ? ?] ?] ?|by vm_compute]. Qed.

(** * [json.loads] reads back what [json.dumps] writes *)

(** ** Strings *)

Lemma scanstring_escape (c : ascii) (r : string) :
  Json.scanstring (Json.escape c +:+ r) = Json.cons_str c (Json.scanstring r).
Proof. by destruct c as [[] [] [] [] [] [] [] []]. Qed.

Lemma scanstring_escape_all (s r : string) :
  Json.scanstring (Json.escape_all s +:+ String Json.dquote r) = Some (s, r).
Proof.
  induction s as [|c s IH]; [reflexivity|].
  simpl Json.escape_all. by rewrite str_app_assoc, scanstring_escape, IH.
Qed.

Lemma encode_str_app (s r : string) :
  Json.encode_str s +:+ r
  = String Json.dquote (Json.escape_all s +:+ String Json.dquote r).
Proof. unfold Json.encode_str. by rewrite str_app_cons, str_app_assoc. Qed.

(** ** Numbers *)

Lemma delimited_not_digit rest :
  delimited rest →
  Json.span_digits rest = ("", rest) ∧ Json.float_follows rest = false.
Proof.
  destruct rest as [|c r]; [done|]. intros [->| ->]; split; try done.
  all: by destruct r.
Qed.

Lemma span_digits_uint (d : Decimal.uint) (rest : string) :
  Json.span_digits rest = ("", rest) →
  Json.span_digits (NilEmpty.string_of_uint d +:+ rest)
  = (NilEmpty.string_of_uint d, rest).
Proof.
  intros Hrest. induction d; simpl NilEmpty.string_of_uint;
    [by rewrite str_app_nil_l|..]; rewrite str_app_cons; simpl; by rewrite IHd.
Qed.

(** the decimal digits of an integer: a single 0, or digits that begin with
    one that is not 0 *)
Lemma to_int_digits (z : Z) :
  ∃ d, (Z.to_int z = Decimal.Pos d ∨ Z.to_int z = Decimal.Neg d)
       ∧ (d = Decimal.D0 Decimal.Nil
          ∨ (Decimal.nzhead d = d ∧ d ≠ Decimal.Nil)).
Proof.
  pose proof (DecimalZ.to_of (Z.to_int z)) as H. rewrite DecimalZ.of_to in H.
  destruct (Z.to_int z) as [d|d] eqn:E; exists d; (split; [auto|]).
  - simpl in H. injection H as H. unfold Decimal.unorm in H.
    destruct (Decimal.nzhead d) eqn:En; try (right; split; congruence).
    by left.
  - simpl in H. destruct (Decimal.nzhead d) eqn:En; try done;
      right; split; congruence.
Qed.

Lemma nzhead_fixed_first (d : Decimal.uint) :
  Decimal.nzhead d = d → d ≠ Decimal.Nil →
  ∃ c r, NilEmpty.string_of_uint d = String c r
         ∧ Json.is_digit c = true ∧ c ≠ "0"%char
         ∧ c ≠ Json.dquote ∧ c ≠ "{"%char ∧ c ≠ "["%char ∧ c ≠ "-"%char
         ∧ c ≠ "n"%char ∧ c ≠ "t"%char ∧ c ≠ "f"%char.
Proof.
  intros Hd Hne. destruct d; try done; simpl.
  - exfalso. simpl in Hd. pose proof (nb_digits_nzhead d) as Hle.
    rewrite Hd in Hle. simpl in Hle. lia.
  - by eexists _, _.
  - by eexists _, _.
  - by eexists _, _.
  - by eexists _, _.
  - by eexists _, _.
  - by eexists _, _.
  - by eexists _, _.
  - by eexists _, _.
  - by eexists _, _.
Qed.

Lemma scan_number_repr (z : Z) (rest : string) :
  delimited rest →
  Json.scan_number (Json.int_repr z +:+ rest) = Some (JInt z, rest).
Proof.
  intros [Hspan Hfloat]%delimited_not_digit.
  destruct (to_int_digits z) as (d & Hz & Hd).
  assert (z = Z.of_int (Z.to_int z)) as Hof by (by rewrite DecimalZ.of_to).
  unfold Json.int_repr.
  destruct Hd as [->|[Hd Hne]].
  - destruct Hz as [Hz|Hz]; rewrite Hz in *; simpl in Hof; subst z; simpl;
      rewrite ?str_app_cons, str_app_nil_l; unfold Json.scan_number;
      simpl; by rewrite Hfloat.
  - destruct (nzhead_fixed_first d Hd Hne)
      as (c & r & Hs & Hc & Hc0 & _ & _ & _ & Hm & _).
    assert (NilZero.string_of_uint d = NilEmpty.string_of_uint d) as Hnz
      by (by destruct d).
    pose proof (span_digits_uint d rest Hspan) as Hsp.
    pose proof (NilEmpty.usu d) as Husu.
    assert (Json.scan_int false (NilEmpty.string_of_uint d +:+ rest)
            = Some (JInt (Z.of_uint d), rest)
            ∧ Json.scan_int true (NilEmpty.string_of_uint d +:+ rest)
              = Some (JInt (- Z.of_uint d), rest)) as [Hpos Hneg].
    { apply Ascii.eqb_neq in Hc0. rewrite Hs in *. rewrite str_app_cons in *.
      unfold Json.scan_int. by rewrite Hc, Hc0, Hsp, Hfloat, Husu. }
    destruct Hz as [Hz|Hz]; rewrite Hz in *; simpl in Hof; subst z; simpl;
      rewrite Hnz; rewrite ?str_app_cons; [|exact Hneg].
    rewrite <-Hpos. rewrite Hs, str_app_cons.
    by destruct c as [[] [] [] [] [] [] [] []].
Qed.

Lemma scan_once_number (fuel : nat) (z : Z) (rest : string) :
  delimited rest →
  Json.scan_once (S fuel) (Json.int_repr z +:+ rest) = Some (JInt z, rest).
Proof.
  intros Hrest. rewrite <-(scan_number_repr z rest Hrest).
  assert (∃ c r, Json.int_repr z = String c r
                 ∧ (c = "-"%char ∨ Json.is_digit c = true)) as (c & r & -> & Hc).
  { destruct (to_int_digits z) as (d & Hz & Hd). unfold Json.int_repr.
    destruct Hd as [->|[Hd Hne]].
    - destruct Hz as [-> | ->]; simpl; eauto.
    - destruct (nzhead_fixed_first d Hd Hne) as (c & r & Hs & Hc & _).
      assert (NilZero.string_of_uint d = NilEmpty.string_of_uint d) as Hnz
        by (by destruct d).
      destruct Hz as [-> | ->]; simpl; rewrite Hnz; [rewrite Hs|]; eauto. }
  rewrite str_app_cons. destruct Hc as [->|Hc]; [reflexivity|].
  destruct c as [[] [] [] [] [] [] [] []]; try discriminate Hc; reflexivity.
Qed.

(** ** Values *)

(** induction on a value with the hypothesis on every element below it *)
Lemma json_nested_ind (P : json → Prop) :
  P JNull → (∀ b, P (JBool b)) → (∀ z, P (JInt z)) → (∀ s, P (JStr s)) →
  (∀ l, Forall P l → P (JArr l)) →
  (∀ d, Forall (λ kv, P kv.2) d → P (JObj d)) →
  ∀ j, P j.
Proof.
  intros Hnull Hbool Hint Hstr Harr Hobj.
  refine (fix go (j : json) : P j :=
            match j with
            | JNull => Hnull
            | JBool b => Hbool b
            | JInt z => Hint z
            | JStr s => Hstr s
            | JArr l =>
                Harr l ((fix go_list (l : list json) : Forall P l :=
                           match l with
                           | [] => Forall_nil_2 _
                           | x :: l' => Forall_cons_2 _ x l' (go x) (go_list l')
                           end) l)
            | JObj d =>
                Hobj d ((fix go_dict (d : list (string * json))
                           : Forall (λ kv, P kv.2) d :=
                           match d with
                           | [] => Forall_nil_2 _
                           | (k, v) :: d' =>
                               Forall_cons_2 (λ kv, P kv.2) (k, v) d' (go v)
                                             (go_dict d')
                           end) d)
            end).
Qed.

Lemma skip_ws_indent (level : nat) (s : string) :
  Json.skip_ws (Json.newline_indent level +:+ s) = Json.skip_ws s.
Proof.
  unfold Json.newline_indent. rewrite str_app_cons.
  generalize (2 * level). intros n. simpl.
  induction n as [|n IH]; [reflexivity|].
  simpl Str.repeat. rewrite str_app_cons. by simpl.
Qed.

Lemma skip_ws_cons (c : ascii) (s : string) :
  Json.is_ws c = false → Json.skip_ws (String c s) = String c s.
Proof. simpl. by intros ->. Qed.

Lemma int_repr_first (z : Z) :
  ∃ c r, Json.int_repr z = String c r
         ∧ (c = "-"%char ∨ Json.is_digit c = true).
Proof.
  destruct (to_int_digits z) as (d & Hz & Hd). unfold Json.int_repr.
  destruct Hd as [->|[Hd Hne]].
  - destruct Hz as [-> | ->]; simpl; eauto.
  - destruct (nzhead_fixed_first d Hd Hne) as (c & r & Hs & Hc & _).
    assert (NilZero.string_of_uint d = NilEmpty.string_of_uint d) as Hnz
      by (by destruct d).
    destruct Hz as [-> | ->]; simpl; rewrite Hnz; [rewrite Hs|]; eauto.
Qed.

(** the encoder's output begins with a character that is no whitespace and
    closes nothing *)
Lemma iterencode_first (level : nat) (j : json) :
  ∃ c r, Json.iterencode level j = String c r
         ∧ Json.is_ws c = false
         ∧ Ascii.eqb c "]" = false ∧ Ascii.eqb c "}" = false.
Proof.
  destruct j as [|[]|z|s|[|x l]|[|kv d]]; try (by eexists _, _).
  destruct (int_repr_first z) as (c & r & Hr & Hc). simpl. rewrite Hr.
  exists c, r. split; [done|].
  destruct Hc as [->|Hc]; [done|].
  by destruct c as [[] [] [] [] [] [] [] []].
Qed.

Lemma skip_ws_iterencode (level : nat) (j : json) (s : string) :
  Json.skip_ws (Json.iterencode level j +:+ s) = Json.iterencode level j +:+ s.
Proof.
  destruct (iterencode_first level j) as (c & r & -> & Hc & _).
  rewrite str_app_cons. by apply skip_ws_cons.
Qed.

Lemma next_is_iterencode (c : ascii) (level : nat) (j : json) (s : string) :
  c = "]"%char ∨ c = "}"%char →
  Json.next_is c (Json.iterencode level j +:+ s) = None.
Proof.
  destruct (iterencode_first level j) as (a & r & -> & _ & H1 & H2).
  rewrite str_app_cons. simpl. by intros [-> | ->]; rewrite ?H1, ?H2.
Qed.

(** ** Dictionaries without a repeated key *)

Lemma dict_get_None (k : string) (d : list (string * json)) :
  Dict.get k d = None ↔ k ∉ d.*1.
Proof.
  induction d as [|[k' v] d IH]; simpl.
  - split; [|done]. intros _. apply not_elem_of_nil.
  - rewrite not_elem_of_cons. destruct (String.eqb_spec k' k) as [->|Hne].
    + split; [done|]. by intros [? _].
    + rewrite IH. split; [by split|by intros [_ ?]].
Qed.

Lemma of_pairs_NoDup (d : list (string * json)) :
  NoDup d.*1 → Dict.of_pairs d = d.
Proof.
  unfold Dict.of_pairs.
  assert (∀ acc, NoDup (acc ++ d).*1 →
                 fold_left (λ d kv, Dict.set kv.1 kv.2 d) d acc = acc ++ d) as H.
  { induction d as [|[k v] d IH]; intros acc Hnd; simpl.
    - by rewrite List.app_nil_r.
    - rewrite dict_set_new.
      + rewrite IH; rewrite <-List.app_assoc; [done|]. by simpl.
      + apply dict_get_None. rewrite fmap_app in Hnd.
        apply NoDup_app in Hnd as (_ & Hnd & _). intros Hin.
        apply (Hnd k Hin). simpl. by left. }
  apply (H []).
Qed.

(** ** One step of the decoder *)

Lemma parse_values_S (f : nat) (s : string) :
  Json.parse_values (S f) s =
    match Json.scan_once f s with
    | Some (v, r) =>
        match Json.next_is "," (Json.skip_ws r) with
        | Some r' =>
            match Json.parse_values f (Json.skip_ws r') with
            | Some (vs, r'') => Some (v :: vs, r'')
            | None => None
            end
        | None =>
            match Json.next_is "]" (Json.skip_ws r) with
            | Some r' => Some ([v], r')
            | None => None
            end
        end
    | None => None
    end.
Proof. reflexivity. Qed.

Lemma parse_pairs_S (f : nat) (s : string) :
  Json.parse_pairs (S f) s =
    match Json.next_is Json.dquote s with
    | Some r =>
        match Json.scanstring r with
        | Some (k, r1) =>
            match Json.next_is ":" (Json.skip_ws r1) with
            | Some r2 =>
                match Json.scan_once f (Json.skip_ws r2) with
                | Some (v, r3) =>
                    match Json.next_is "," (Json.skip_ws r3) with
                    | Some r' =>
                        match Json.parse_pairs f (Json.skip_ws r') with
                        | Some (ps, r'') => Some ((k, v) :: ps, r'')
                        | None => None
                        end
                    | None =>
                        match Json.next_is "}" (Json.skip_ws r3) with
                        | Some r' => Some ([(k, v)], r')
                        | None => None
                        end
                    end
                | None => None
                end
            | None => None
            end
        | None => None
        end
    | None => None
    end.
Proof. reflexivity. Qed.

Lemma scan_once_array (f : nat) (r : string) :
  Json.scan_once (S f) (String "[" r) =
    match Json.next_is "]" (Json.skip_ws r) with
    | Some r' => Some (JArr [], r')
    | None =>
        match Json.parse_values f (Json.skip_ws r) with
        | Some (vs, r') => Some (JArr vs, r')
        | None => None
        end
    end.
Proof. reflexivity. Qed.

Lemma scan_once_object (f : nat) (r : string) :
  Json.scan_once (S f) (String "{" r) =
    match Json.next_is "}" (Json.skip_ws r) with
    | Some r' => Some (JObj [], r')
    | None =>
        match Json.parse_pairs f (Json.skip_ws r) with
        | Some (pairs, r') => Some (JObj (Dict.of_pairs pairs), r')
        | None => None
        end
    end.
Proof. reflexivity. Qed.

Lemma next_is_eq (c : ascii) (r : string) :
  Json.next_is c (String c r) = Some r.
Proof. simpl. by rewrite Ascii.eqb_refl. Qed.

Lemma join_cons2 (sep a b : string) (l : list string) :
  Str.join sep (a :: b :: l) = a +:+ sep +:+ Str.join sep (b :: l).
Proof. reflexivity. Qed.

Lemma join_cons_head (sep a : string) (l : list string) :
  ∃ t, Str.join sep (a :: l) = a +:+ t.
Proof.
  destruct l; simpl; [exists ""; by rewrite str_app_nil_r|eauto].
Qed.

Lemma delimited_indent (level : nat) (s : string) :
  delimited (Json.newline_indent level +:+ s).
Proof. unfold Json.newline_indent. rewrite str_app_cons. by right. Qed.

(** ** The round trip *)

Lemma parse_values_items (level : nat) (l : list json) (x : json)
    (rest : string) (fuel : nat) :
  Forall reads_back (x :: l) →
  forallb wf_json (x :: l) = true →
  foldr (λ v n, S (json_fuel v) + n) 0 (x :: l) ≤ fuel →
  Json.parse_values fuel
    (Str.join ("," +:+ Json.newline_indent (S level))
              (Json.iterencode (S level) <$> (x :: l))
     +:+ Json.newline_indent level +:+ String "]" rest)
  = Some (x :: l, rest).
Proof.
  revert x fuel. induction l as [|y l IH]; intros x fuel HP Hwf Hfuel.
  - apply Forall_cons in HP as [Hx _]. simpl in Hwf, Hfuel.
    apply andb_true_iff in Hwf as [Hwx _].
    destruct fuel as [|f]; [lia|]. rewrite parse_values_S. simpl Str.join.
    rewrite Hx; [|lia|apply delimited_indent|done].
    rewrite skip_ws_indent, skip_ws_cons by done. done.
  - apply Forall_cons in HP as [Hx HP].
    change (forallb wf_json (x :: y :: l))
      with (wf_json x && forallb wf_json (y :: l)) in Hwf.
    apply andb_true_iff in Hwf as [Hwx Hwf].
    change (foldr _ 0 (x :: y :: l))
      with (S (json_fuel x) + foldr (λ v n, S (json_fuel v) + n) 0 (y :: l))
      in Hfuel.
    destruct fuel as [|f]; [lia|]. rewrite parse_values_S.
    rewrite !fmap_cons, join_cons2.
    rewrite !str_app_assoc, str_app_cons, str_app_nil_l.
    rewrite Hx; [|lia|by left|done].
    rewrite skip_ws_cons by done. rewrite next_is_eq. cbv beta iota.
    rewrite skip_ws_indent.
    destruct (join_cons_head ("," +:+ Json.newline_indent (S level))
                (Json.iterencode (S level) y)
                (Json.iterencode (S level) <$> l)) as [t Ht].
    rewrite Ht at 1. rewrite str_app_assoc, skip_ws_iterencode.
    rewrite <-str_app_assoc, <-Ht, <-fmap_cons.
    rewrite IH; [done|done|done|lia].
Qed.

Lemma skip_ws_encode_str (k s : string) :
  Json.skip_ws (Json.encode_str k +:+ s) = Json.encode_str k +:+ s.
Proof. rewrite encode_str_app. by apply skip_ws_cons. Qed.

Lemma join_cons_fmap {A : Type} (sep a : string) (g : A → string)
    (b : A) (l : list A) :
  Str.join sep (a :: (g <$> b :: l))
  = a +:+ sep +:+ Str.join sep (g <$> b :: l).
Proof. reflexivity. Qed.

Lemma encode_item_eq (enc : json → string) (k : string) (v : json) :
  Json.encode_item enc (k, v) = Json.encode_str k +:+ ": " +:+ enc v.
Proof. reflexivity. Qed.

(** the items of a non-empty dictionary begin with the quote of a key *)
Lemma items_first (sep : string) (enc : json → string)
    (kv : string * json) (d : list (string * json)) (s : string) :
  ∃ r, Str.join sep (Json.encode_item enc <$> kv :: d) +:+ s
       = String Json.dquote r.
Proof.
  destruct kv as [k v].
  destruct (join_cons_head sep (Json.encode_item enc (k, v))
              (Json.encode_item enc <$> d)) as [t Ht].
  rewrite fmap_cons, Ht, encode_item_eq, !str_app_assoc, encode_str_app.
  eauto.
Qed.

Lemma skip_ws_items (sep : string) (enc : json → string)
    (kv : string * json) (d : list (string * json)) (s : string) :
  Json.skip_ws (Str.join sep (Json.encode_item enc <$> kv :: d) +:+ s)
  = Str.join sep (Json.encode_item enc <$> kv :: d) +:+ s.
Proof.
  destruct (items_first sep enc kv d s) as [r ->]. by apply skip_ws_cons.
Qed.

Lemma parse_pairs_items (level : nat) (d : list (string * json))
    (k : string) (v : json) (rest : string) (fuel : nat) :
  Forall (λ kv, reads_back kv.2) ((k, v) :: d) →
  forallb (λ kv, let '(_, v) := kv in wf_json v) ((k, v) :: d) = true →
  foldr (λ kv n, let '(_, v) := kv in S (json_fuel v) + n) 0 ((k, v) :: d)
  ≤ fuel →
  Json.parse_pairs fuel
    (Str.join ("," +:+ Json.newline_indent (S level))
       (Json.encode_item (Json.iterencode (S level)) <$> (k, v) :: d)
     +:+ Json.newline_indent level +:+ String "}" rest)
  = Some ((k, v) :: d, rest).
Proof.
  revert k v fuel. induction d as [|[k' v'] d IH]; intros k v fuel HP Hwf Hfuel.
  - apply Forall_cons in HP as [Hv _]. simpl in Hwf, Hfuel, Hv.
    apply andb_true_iff in Hwf as [Hwv _].
    destruct fuel as [|f]; [lia|]. rewrite parse_pairs_S.
    change (Str.join ?sep (?g <$> [?a])) with (g a).
    rewrite encode_item_eq.
    rewrite !str_app_assoc, encode_str_app, next_is_eq, scanstring_escape_all.
    rewrite !str_app_cons, !str_app_nil_l.
    rewrite skip_ws_cons, next_is_eq by done.
    change (Json.skip_ws (String " " ?s)) with (Json.skip_ws s).
    rewrite skip_ws_iterencode.
    rewrite Hv; [|lia|apply delimited_indent|done].
    rewrite skip_ws_indent, skip_ws_cons by done. done.
  - apply Forall_cons in HP as [Hv HP]. simpl in Hv.
    change (forallb ?f ((k, v) :: ?t)) with (wf_json v && forallb f t) in Hwf.
    apply andb_true_iff in Hwf as [Hwv Hwf].
    change (foldr ?f 0 ((k, v) :: ?t)) with (S (json_fuel v) + foldr f 0 t)
      in Hfuel.
    destruct fuel as [|f]; [lia|]. rewrite parse_pairs_S.
    rewrite (fmap_cons _ (k, v)), join_cons_fmap.
    rewrite encode_item_eq.
    rewrite !str_app_assoc, encode_str_app, next_is_eq, scanstring_escape_all.
    rewrite !str_app_cons, !str_app_nil_l.
    rewrite skip_ws_cons, next_is_eq by done.
    change (Json.skip_ws (String " " ?s)) with (Json.skip_ws s).
    rewrite skip_ws_iterencode.
    rewrite Hv; [|lia|by left|done].
    rewrite skip_ws_cons by done. rewrite next_is_eq. cbv beta iota.
    rewrite skip_ws_indent, skip_ws_items.
    rewrite IH; [done|done|done|lia].
Qed.

Lemma values_first (sep : string) (level : nat) (x : json) (l : list json)
    (s : string) :
  ∃ c r, Str.join sep (Json.iterencode level <$> x :: l) +:+ s = String c r
         ∧ Ascii.eqb c "]" = false.
Proof.
  destruct (join_cons_head sep (Json.iterencode level x)
              (Json.iterencode level <$> l)) as [t Ht].
  destruct (iterencode_first level x) as (c & r & Hx & _ & Hc & _).
  rewrite fmap_cons, Ht, Hx, !str_app_cons. eauto.
Qed.

Lemma skip_ws_values (sep : string) (level : nat) (x : json) (l : list json)
    (s : string) :
  Json.skip_ws (Str.join sep (Json.iterencode level <$> x :: l) +:+ s)
  = Str.join sep (Json.iterencode level <$> x :: l) +:+ s.
Proof.
  destruct (join_cons_head sep (Json.iterencode level x)
              (Json.iterencode level <$> l)) as [t Ht].
  by rewrite fmap_cons, Ht, str_app_assoc, skip_ws_iterencode.
Qed.

Lemma bracket_app (o c : ascii) (a j b rest : string) :
  (String o "" +:+ a +:+ j +:+ b +:+ String c "") +:+ rest
  = String o (a +:+ j +:+ b +:+ String c rest).
Proof. by rewrite !str_app_assoc, !str_app_cons, !str_app_nil_l. Qed.

(** Every value reads back. *)
Lemma scan_once_iterencode (j : json) : reads_back j.
Proof.
  induction j as [|b|z|s|l IH|d IH] using json_nested_ind;
    intros level rest fuel Hfuel Hrest Hwf;
    (destruct fuel as [|f]; [simpl in Hfuel; lia|]).
  - reflexivity.
  - by destruct b.
  - by apply scan_once_number.
  - simpl Json.iterencode. rewrite encode_str_app.
    change (Json.scan_once (S f) (String Json.dquote ?r))
      with (match Json.scanstring r with
            | Some (t, r') => Some (JStr t, r')
            | None => None
            end).
    by rewrite scanstring_escape_all.
  - destruct l as [|x l]; [reflexivity|].
    change (Json.iterencode level (JArr (x :: l)))
      with ("[" +:+ Json.newline_indent (S level)
            +:+ Str.join ("," +:+ Json.newline_indent (S level))
                  (Json.iterencode (S level) <$> x :: l)
            +:+ Json.newline_indent level +:+ "]").
    rewrite bracket_app, scan_once_array, skip_ws_indent, skip_ws_values.
    destruct (values_first ("," +:+ Json.newline_indent (S level)) (S level)
                x l (Json.newline_indent level +:+ String "]" rest))
      as (c & r & Hr & Hc).
    rewrite Hr at 1. simpl Json.next_is. rewrite Hc.
    rewrite parse_values_items; [done|done|done|].
    simpl in Hfuel. simpl. lia.
  - destruct d as [|[k v] d]; [reflexivity|].
    change (Json.iterencode level (JObj ((k, v) :: d)))
      with ("{" +:+ Json.newline_indent (S level)
            +:+ Str.join ("," +:+ Json.newline_indent (S level))
                  (Json.encode_item (Json.iterencode (S level)) <$> (k, v) :: d)
            +:+ Json.newline_indent level +:+ "}").
    rewrite bracket_app, scan_once_object, skip_ws_indent.
    rewrite skip_ws_items.
    destruct (items_first ("," +:+ Json.newline_indent (S level))
                (Json.iterencode (S level)) (k, v) d
                (Json.newline_indent level +:+ String "}" rest)) as [r Hr].
    rewrite Hr at 1.
    change (Json.next_is "}" (String Json.dquote r)) with (@None string).
    cbv beta iota.
    change (wf_json (JObj ((k, v) :: d)))
      with (bool_decide (NoDup ((k, v) :: d).*1)
            && forallb (λ kv, let '(_, v) := kv in wf_json v) ((k, v) :: d))
      in Hwf.
    apply andb_true_iff in Hwf as [Hnd%bool_decide_eq_true Hwf].
    rewrite parse_pairs_items; [|done|done|].
    + by rewrite of_pairs_NoDup.
    + simpl in Hfuel. simpl. lia.
Qed.

(** ** The fuel of [json.loads] is enough for an encoded value *)

Lemma newline_indent_length (level : nat) :
  String.length (Json.newline_indent level) = S (2 * level).
Proof. unfold Json.newline_indent. simpl. by rewrite repeat_length. Qed.

Lemma join_fuel {A : Type} (sep : string) (enc : A → string)
    (fuel : A → nat) (l : list A) :
  1 ≤ String.length sep →
  Forall (λ v, fuel v ≤ String.length (enc v)) l →
  foldr (λ v n, S (fuel v) + n) 0 l
  ≤ S (String.length (Str.join sep (enc <$> l))).
Proof.
  intros Hsep. induction 1 as [|x l Hx Hl IH]; [simpl; lia|].
  destruct l as [|y l]; [simpl in *; lia|].
  rewrite fmap_cons, join_cons_fmap, !str_length_app.
  change (foldr ?f 0 (x :: ?t)) with (S (fuel x) + foldr f 0 t). lia.
Qed.

Lemma json_fuel_length (j : json) (level : nat) :
  json_fuel j ≤ String.length (Json.iterencode level j).
Proof.
  revert level.
  induction j as [|b|z|s|l IH|d IH] using json_nested_ind; intros level.
  - simpl. lia.
  - destruct b; simpl; lia.
  - destruct (int_repr_first z) as (c & r & Hr & _). simpl. rewrite Hr.
    simpl. lia.
  - simpl. lia.
  - destruct l as [|x l]; [simpl; lia|].
    change (Json.iterencode level (JArr (x :: l)))
      with ("[" +:+ Json.newline_indent (S level)
            +:+ Str.join ("," +:+ Json.newline_indent (S level))
                  (Json.iterencode (S level) <$> x :: l)
            +:+ Json.newline_indent level +:+ "]").
    rewrite !str_length_app, !newline_indent_length.
    assert (Forall (λ v, json_fuel v ≤ String.length
                                         (Json.iterencode (S level) v)) (x :: l))
      as HF by (eapply Forall_impl; [exact IH|]; simpl; auto).
    pose proof (join_fuel ("," +:+ Json.newline_indent (S level))
                  (Json.iterencode (S level)) json_fuel (x :: l)
                  ltac:(rewrite str_length_app; simpl; lia) HF) as Hj.
    change (json_fuel (JArr (x :: l)))
      with (S (foldr (λ v n, S (json_fuel v) + n) 0 (x :: l))).
    set (J := Str.join _ _) in *. simpl String.length. lia.
  - destruct d as [|[k v] d]; [simpl; lia|].
    change (Json.iterencode level (JObj ((k, v) :: d)))
      with ("{" +:+ Json.newline_indent (S level)
            +:+ Str.join ("," +:+ Json.newline_indent (S level))
                  (Json.encode_item (Json.iterencode (S level)) <$> (k, v) :: d)
            +:+ Json.newline_indent level +:+ "}").
    rewrite !str_length_app, !newline_indent_length.
    change (json_fuel (JObj ((k, v) :: d)))
      with (S (foldr (λ kv n, let '(_, v) := kv in S (json_fuel v) + n) 0
                 ((k, v) :: d))).
    assert (foldr (λ kv n, let '(_, v) := kv in S (json_fuel v) + n) 0
              ((k, v) :: d)
            = foldr (λ kv n, S (json_fuel kv.2) + n) 0 ((k, v) :: d)) as ->.
    { generalize ((k, v) :: d). intros l.
      induction l as [|[] l IHl]; simpl in *; [done|lia]. }
    assert (Forall (λ kv, json_fuel kv.2
                          ≤ String.length
                              (Json.encode_item (Json.iterencode (S level)) kv))
              ((k, v) :: d))
      as HF.
    { eapply Forall_impl; [exact IH|]. intros [k' v'] Hv. simpl in *.
      rewrite !str_length_app. specialize (Hv (S level)). lia. }
    pose proof (join_fuel ("," +:+ Json.newline_indent (S level))
                  (Json.encode_item (Json.iterencode (S level)))
                  (λ kv, json_fuel kv.2) ((k, v) :: d)
                  ltac:(rewrite str_length_app; simpl; lia) HF) as Hj.
    set (J := Str.join _ _) in *. simpl String.length. lia.
Qed.

(** [json.loads(json.dumps(j, indent=2)) == j] for a value whose
    dictionaries hold each key once *)
Lemma loads_dumps (j : json) :
  wf_json j = true → Json.loads (Json.dumps j) = Some j.
Proof.
  intros Hwf. unfold Json.loads, Json.dumps.
  rewrite <-(str_app_nil_r (Json.iterencode 0 j)) at 2.
  rewrite skip_ws_iterencode.
  rewrite scan_once_iterencode; [done| |done|done].
  pose proof (json_fuel_length j 0). lia.
Qed.

(** ** What the decoder builds is well formed *)

Lemma dict_set_keys (k : string) (v : json) (d : list (string * json)) :
  (Dict.set k v d).*1 = if decide (k ∈ d.*1) then d.*1 else d.*1 ++ [k].
Proof.
  induction d as [|[k' v'] d IH].
  - rewrite decide_False; [done|]. apply not_elem_of_nil.
  - rewrite fmap_cons. simpl Dict.set.
    destruct (String.eqb_spec k' k) as [->|Hne]; rewrite fmap_cons; simpl fst.
    + rewrite decide_True; [done|]. by left.
    + rewrite IH. destruct (decide (k ∈ d.*1)) as [Hin|Hin].
      * rewrite decide_True; [done|]. by right.
      * rewrite decide_False; [done|]. rewrite not_elem_of_cons. by split.
Qed.

Lemma dict_set_NoDup (k : string) (v : json) (d : list (string * json)) :
  NoDup d.*1 → NoDup (Dict.set k v d).*1.
Proof.
  intros Hnd. rewrite dict_set_keys. destruct (decide _) as [|Hin]; [done|].
  apply NoDup_app. split; [done|]. split; [|apply NoDup_singleton].
  intros x Hx ->%list_elem_of_singleton. done.
Qed.

Lemma dict_set_values_wf (k : string) (v : json) (d : list (string * json)) :
  wf_json v = true → values_wf d = true → values_wf (Dict.set k v d) = true.
Proof.
  intros Hv. induction d as [|[k' v'] d IH]; simpl.
  - by rewrite Hv.
  - intros [Hv' Hd]%andb_true_iff.
    destruct (String.eqb k' k); simpl; rewrite ?Hv, ?Hv', ?Hd, ?IH; done.
Qed.

Lemma dict_get_wf (k : string) (v : json) (d : list (string * json)) :
  Dict.get k d = Some v → values_wf d = true → wf_json v = true.
Proof.
  induction d as [|[k' v'] d IH]; simpl; [done|].
  intros Hg [Hv' Hd]%andb_true_iff.
  destruct (String.eqb k' k); [congruence|auto].
Qed.

Lemma wf_json_obj (d : list (string * json)) :
  wf_json (JObj d) = true ↔ NoDup d.*1 ∧ values_wf d = true.
Proof.
  change (wf_json (JObj d)) with (bool_decide (NoDup d.*1) && values_wf d).
  by rewrite andb_true_iff, bool_decide_eq_true.
Qed.

Lemma of_pairs_wf (pairs : list (string * json)) :
  values_wf pairs = true → wf_json (JObj (Dict.of_pairs pairs)) = true.
Proof.
  intros Hp. unfold Dict.of_pairs.
  assert (∀ acc, wf_json (JObj acc) = true →
                 wf_json (JObj (fold_left (λ d kv, Dict.set kv.1 kv.2 d)
                                          pairs acc)) = true) as H.
  { induction pairs as [|[k v] pairs IH]; intros acc Hacc; [done|].
    simpl in Hp. apply andb_true_iff in Hp as [Hv Hp]. simpl.
    apply IH; [done|]. apply wf_json_obj in Hacc as [Hnd Hvs].
    apply wf_json_obj. split; [by apply dict_set_NoDup|].
    by apply dict_set_values_wf. }
  apply H. apply wf_json_obj. split; [constructor|done].
Qed.

Lemma scan_int_wf (negative : bool) (s r : string) (j : json) :
  Json.scan_int negative s = Some (j, r) → wf_json j = true.
Proof.
  unfold Json.scan_int. destruct s as [|c s]; [done|].
  destruct (Json.is_digit c); [|done].
  destruct (if Ascii.eqb c "0" then _ else _) as [ds r'].
  destruct (Json.float_follows r'); [done|].
  destruct (NilEmpty.uint_of_string ds); [|done]. by intros [= <- _].
Qed.

Lemma scan_number_wf (s r : string) (j : json) :
  Json.scan_number s = Some (j, r) → wf_json j = true.
Proof.
  unfold Json.scan_number. repeat case_match; apply scan_int_wf.
Qed.

Lemma scan_once_cons (f : nat) (c : ascii) (r : string) :
  Json.scan_once (S f) (String c r) =
    if Ascii.eqb c Json.dquote then
      match Json.scanstring r with
      | Some (t, r') => Some (JStr t, r')
      | None => None
      end
    else if Ascii.eqb c "{" then
      match Json.next_is "}" (Json.skip_ws r) with
      | Some r' => Some (JObj [], r')
      | None =>
          match Json.parse_pairs f (Json.skip_ws r) with
          | Some (pairs, r') => Some (JObj (Dict.of_pairs pairs), r')
          | None => None
          end
      end
    else if Ascii.eqb c "[" then
      match Json.next_is "]" (Json.skip_ws r) with
      | Some r' => Some (JArr [], r')
      | None =>
          match Json.parse_values f (Json.skip_ws r) with
          | Some (vs, r') => Some (JArr vs, r')
          | None => None
          end
      end
    else if Str.startswith (String c r) "null"
         then Some (JNull, Str.drop 4 (String c r))
    else if Str.startswith (String c r) "true"
         then Some (JBool true, Str.drop 4 (String c r))
    else if Str.startswith (String c r) "false"
         then Some (JBool false, Str.drop 5 (String c r))
    else Json.scan_number (String c r).
Proof. reflexivity. Qed.

Lemma decoded_wf (fuel : nat) :
  (∀ s j r, Json.scan_once fuel s = Some (j, r) → wf_json j = true)
  ∧ (∀ s vs r, Json.parse_values fuel s = Some (vs, r) →
               forallb wf_json vs = true)
  ∧ (∀ s ps r, Json.parse_pairs fuel s = Some (ps, r) → values_wf ps = true).
Proof.
  induction fuel as [|f (IHv & IHl & IHp)]; [by repeat split|].
  split; [|split].
  - intros [|c s] j r; [done|]. rewrite scan_once_cons.
    repeat case_match; try done; try (by intros [= <- _]).
    + intros [= <- _]. apply of_pairs_wf. eauto.
    + intros [= <- _]. simpl. eauto.
    + apply scan_number_wf.
  - intros s vs r. rewrite parse_values_S.
    repeat case_match; try done; intros [= <- _]; simpl;
      apply andb_true_iff; eauto.
  - intros s ps r. rewrite parse_pairs_S.
    repeat case_match; try done; intros [= <- _]; simpl;
      apply andb_true_iff; eauto.
Qed.

Lemma loads_wf (s : string) (j : json) :
  Json.loads s = Some j → wf_json j = true.
Proof.
  unfold Json.loads.
  destruct (Json.scan_once _ _) as [[v r]|] eqn:E; [|done].
  destruct (String.eqb _ _); [|done]. intros [= <-].
  by apply (decoded_wf _) in E.
Qed.

Lemma set_hash_wf (h : string) (d d' : list (string * json)) :
  wf_json (JObj d) = true → set_hash h d = Ok d' → wf_json (JObj d') = true.
Proof.
  rewrite !wf_json_obj. intros [Hnd Hvs]. unfold set_hash.
  set (d1 := if Dict.contains "environment" d then d else _).
  assert (NoDup d1.*1 ∧ values_wf d1 = true) as [Hnd1 Hvs1].
  { unfold d1. destruct (Dict.contains _ _); [done|].
    split; [by apply dict_set_NoDup|by apply dict_set_values_wf]. }
  destruct (Dict.get "environment" d1) as [[| | | | |env]|] eqn:E; try done.
  intros [= <-]. split; [by apply dict_set_NoDup|].
  apply dict_set_values_wf; [|done].
  pose proof (dict_get_wf _ _ _ E Hvs1) as [Hnde Hvse]%wf_json_obj.
  apply wf_json_obj. split; [by apply dict_set_NoDup|].
  by apply dict_set_values_wf.
Qed.

(** ** The fuel of [json.loads] is enough for every text *)

Lemma skip_ws_length (s : string) :
  String.length (Json.skip_ws s) ≤ String.length s.
Proof.
  induction s as [|c s IH]; simpl; [done|].
  destruct (Json.is_ws c); simpl; lia.
Qed.

Lemma next_is_length (c : ascii) (s r : string) :
  Json.next_is c s = Some r → String.length s = S (String.length r).
Proof.
  destruct s as [|a s]; simpl; [done|].
  destruct (Ascii.eqb a c); [|done]. by intros [= ->].
Qed.

Lemma cons_str_Some (c : ascii) (x : option (string * string)) (t r : string) :
  Json.cons_str c x = Some (t, r) → ∃ t', x = Some (t', r).
Proof. destruct x as [[t' r']|]; [|done]. intros [= _ <-]. eauto. Qed.

Lemma scanstring_length (s t r : string) :
  Json.scanstring s = Some (t, r) → String.length r < String.length s.
Proof.
  assert (∀ n s t r, String.length s ≤ n → Json.scanstring s = Some (t, r) →
                     String.length r < String.length s) as H; [|by eapply H].
  clear. induction n as [|n IH]; intros [|c s] t r Hn; try done;
    [simpl in Hn; lia|].
  simpl in Hn. simpl Json.scanstring.
  destruct (Ascii.eqb c Json.dquote); [intros [= _ <-]; simpl; lia|].
  destruct (Ascii.eqb c Json.backslash).
  - destruct s as [|e s]; [done|].
    destruct (Ascii.eqb e "u").
    + destruct s as [|h1 [|h2 [|h3 [|h4 s]]]]; try done.
      repeat case_match; try done.
      intros [t' Ht]%cons_str_Some. apply IH in Ht; simpl in *; lia.
    + destruct (Json.unescape e); [|done].
      intros [t' Ht]%cons_str_Some. apply IH in Ht; simpl in *; lia.
  - destruct (N.ltb _ _); [done|].
    intros [t' Ht]%cons_str_Some. apply IH in Ht; simpl in *; lia.
Qed.

Lemma span_digits_length (s ds r : string) :
  Json.span_digits s = (ds, r) →
  String.length s = String.length ds + String.length r.
Proof.
  revert ds r. induction s as [|c s IH]; intros ds r; simpl.
  - by intros [= <- <-].
  - destruct (Json.is_digit c); [|by intros [= <- <-]].
    destruct (Json.span_digits s) as [ds' r'] eqn:E. intros [= <- <-].
    simpl. by rewrite (IH _ _ eq_refl).
Qed.

Lemma scan_int_length (negative : bool) (s r : string) (j : json) :
  Json.scan_int negative s = Some (j, r) → String.length r < String.length s.
Proof.
  unfold Json.scan_int. destruct s as [|c s]; [done|].
  destruct (Json.is_digit c) eqn:Ec; [|done].
  destruct (Ascii.eqb c "0").
  - destruct (Json.float_follows s); [done|]. simpl. intros [= _ <-].
    simpl. lia.
  - destruct (Json.span_digits (String c s)) as [ds r'] eqn:E.
    pose proof (span_digits_length _ _ _ E) as Hlen.
    simpl in E. rewrite Ec in E. destruct (Json.span_digits s).
    injection E as <- <-.
    destruct (Json.float_follows _); [done|].
    destruct (NilEmpty.uint_of_string _); [|done]. intros [= _ <-].
    simpl in *. lia.
Qed.

Lemma scan_number_length (s r : string) (j : json) :
  Json.scan_number s = Some (j, r) → String.length r < String.length s.
Proof.
  unfold Json.scan_number.
  repeat case_match; intros Hs%scan_int_length; simpl in *; lia.
Qed.

Lemma length_drop (n : nat) (s : string) :
  String.length (Str.drop n s) = String.length s - n.
Proof.
  revert s. induction n as [|n IH]; intros [|c s]; simpl; try done; lia.
Qed.

Lemma startswith_length (s pre : string) :
  Str.startswith s pre = true → String.length pre ≤ String.length s.
Proof.
  intros [r ->]%startswith_spec. rewrite str_length_app. lia.
Qed.

Local Ltac lengths :=
  repeat match goal with
         | H : Json.next_is _ _ = Some _ |- _ => apply next_is_length in H
         | H : Json.scanstring _ = Some _ |- _ => apply scanstring_length in H
         | |- context [Json.skip_ws ?s] =>
             lazymatch goal with
             | _ : String.length (Json.skip_ws s) ≤ String.length s |- _ => fail
             | _ => pose proof (skip_ws_length s)
             end
         | _ : context [Json.skip_ws ?s] |- _ =>
             lazymatch goal with
             | _ : String.length (Json.skip_ws s) ≤ String.length s |- _ => fail
             | _ => pose proof (skip_ws_length s)
             end
         end.

(** every successful scan consumes input *)
Lemma decoded_shorter (fuel : nat) :
  (∀ s j r, Json.scan_once fuel s = Some (j, r) →
            String.length r < String.length s)
  ∧ (∀ s vs r, Json.parse_values fuel s = Some (vs, r) →
               String.length r < String.length s)
  ∧ (∀ s ps r, Json.parse_pairs fuel s = Some (ps, r) →
               String.length r < String.length s).
Proof.
  induction fuel as [|f (IHv & IHl & IHp)]; [by repeat split|].
  split; [|split].
  - intros [|c s] j r; [done|]. rewrite scan_once_cons.
    destruct (Ascii.eqb c Json.dquote).
    { destruct (Json.scanstring s) as [[t r']|] eqn:E; [|done].
      intros [= _ <-]. lengths. simpl. lia. }
    destruct (Ascii.eqb c "{").
    { destruct (Json.next_is "}" _) eqn:E1.
      - intros [= _ <-]. lengths. simpl. lia.
      - destruct (Json.parse_pairs f _) as [[ps r']|] eqn:E2; [|done].
        intros [= _ <-]. apply IHp in E2. lengths. simpl. lia. }
    destruct (Ascii.eqb c "[").
    { destruct (Json.next_is "]" _) eqn:E1.
      - intros [= _ <-]. lengths. simpl. lia.
      - destruct (Json.parse_values f _) as [[vs r']|] eqn:E2; [|done].
        intros [= _ <-]. apply IHl in E2. lengths. simpl. lia. }
    destruct (Str.startswith _ "null") eqn:E1.
    { intros [= _ <-]. apply startswith_length in E1.
      pose proof (length_drop 4 (String c s)). simpl in *. lia. }
    destruct (Str.startswith _ "true") eqn:E2.
    { intros [= _ <-]. apply startswith_length in E2.
      pose proof (length_drop 4 (String c s)). simpl in *. lia. }
    destruct (Str.startswith _ "false") eqn:E3.
    { intros [= _ <-]. apply startswith_length in E3.
      pose proof (length_drop 5 (String c s)). simpl in *. lia. }
    apply scan_number_length.
  - intros s vs r. rewrite parse_values_S.
    destruct (Json.scan_once f s) as [[v r1]|] eqn:E1; [|done].
    apply IHv in E1.
    destruct (Json.next_is "," _) eqn:E2.
    + destruct (Json.parse_values f _) as [[vs' r']|] eqn:E3; [|done].
      intros [= _ <-]. apply IHl in E3. lengths. lia.
    + destruct (Json.next_is "]" _) eqn:E3; [|done].
      intros [= _ <-]. lengths. lia.
  - intros s ps r. rewrite parse_pairs_S.
    destruct (Json.next_is Json.dquote s) eqn:E0; [|done].
    destruct (Json.scanstring _) as [[k r1]|] eqn:E1; [|done].
    destruct (Json.next_is ":" _) eqn:E2; [|done].
    destruct (Json.scan_once f _) as [[v r3]|] eqn:E3; [|done].
    apply IHv in E3.
    destruct (Json.next_is "," _) eqn:E4.
    + destruct (Json.parse_pairs f _) as [[ps' r']|] eqn:E5; [|done].
      intros [= _ <-]. apply IHp in E5. lengths. lia.
    + destruct (Json.next_is "}" _) eqn:E5; [|done].
      intros [= _ <-]. lengths. lia.
Qed.

(** a scan that succeeds with some fuel succeeds with fuel for twice the
    length of the input *)
Lemma decoded_fuel (fuel : nat) :
  (∀ s x m, Json.scan_once fuel s = Some x →
            2 * String.length s + 1 ≤ m → Json.scan_once m s = Some x)
  ∧ (∀ s x m, Json.parse_values fuel s = Some x →
              2 * String.length s + 2 ≤ m → Json.parse_values m s = Some x)
  ∧ (∀ s x m, Json.parse_pairs fuel s = Some x →
              2 * String.length s + 2 ≤ m → Json.parse_pairs m s = Some x).
Proof.
  induction fuel as [|f (IHv & IHl & IHp)]; [by repeat split|].
  destruct (decoded_shorter f) as (Sv & Sl & Sp).
  split; [|split].
  - intros [|c s] x [|m]; [done|done|simpl; lia|]. rewrite !scan_once_cons.
    simpl String.length. intros H Hm.
    destruct (Ascii.eqb c Json.dquote); [done|].
    destruct (Ascii.eqb c "{").
    { destruct (Json.next_is "}" _) eqn:E1; [done|].
      destruct (Json.parse_pairs f _) as [y|] eqn:E2; [|done].
      rewrite (IHp _ _ m E2); [done|]. lengths. lia. }
    destruct (Ascii.eqb c "[").
    { destruct (Json.next_is "]" _) eqn:E1; [done|].
      destruct (Json.parse_values f _) as [y|] eqn:E2; [|done].
      rewrite (IHl _ _ m E2); [done|]. lengths. lia. }
    done.
  - intros s x [|m]; [lia|]. rewrite !parse_values_S. intros H Hm.
    destruct (Json.scan_once f s) as [[v r1]|] eqn:E1; [|done].
    rewrite (IHv _ _ m E1) by lia. apply Sv in E1.
    destruct (Json.next_is "," _) eqn:E2; [|done].
    destruct (Json.parse_values f _) as [y|] eqn:E3; [|done].
    rewrite (IHl _ _ m E3); [done|]. lengths. lia.
  - intros s x [|m]; [lia|]. rewrite !parse_pairs_S. intros H Hm.
    destruct (Json.next_is Json.dquote s) eqn:E0; [|done].
    destruct (Json.scanstring _) as [[k r1]|] eqn:E1; [|done].
    destruct (Json.next_is ":" _) eqn:E2; [|done].
    destruct (Json.scan_once f _) as [[v r3]|] eqn:E3; [|done].
    rewrite (IHv _ _ m E3) by (lengths; lia). apply Sv in E3.
    destruct (Json.next_is "," _) eqn:E4; [|done].
    destruct (Json.parse_pairs f _) as [y|] eqn:E5; [|done].
    rewrite (IHp _ _ m E5); [done|]. lengths. lia.
Qed.

(** [Json.loads] decodes every text that [scan_once] can scan with some
    fuel: its own fuel is never what makes it fail. *)
Lemma loads_any_fuel (s : string) (j : json) :
  Json.loads s = Some j ↔
  ∃ fuel r, Json.scan_once fuel (Json.skip_ws s) = Some (j, r)
            ∧ Json.skip_ws r = "".
Proof.
  unfold Json.loads. split.
  - destruct (Json.scan_once _ _) as [[v r]|] eqn:E; [|done].
    destruct (String.eqb_spec (Json.skip_ws r) ""); [|done].
    intros [= <-]. eauto.
  - intros (fuel & r & E & Hr).
    rewrite (proj1 (decoded_fuel fuel) _ _ _ E), Hr; [done|].
    pose proof (skip_ws_length s). lia.
Qed.

(** * Suffixes *)

Lemma rev_app_app (s t acc : string) :
  String.rev_app (s +:+ t) acc = String.rev_app t (String.rev_app s acc).
Proof.
  revert acc. induction s as [|a s IH]; intros acc; [reflexivity|].
  rewrite str_app_cons. simpl. by rewrite IH.
Qed.

Lemma rev_app_acc (s acc : string) :
  String.rev_app s acc = String.rev_app s "" +:+ acc.
Proof.
  revert acc. induction s as [|a s IH]; intros acc; [reflexivity|].
  simpl. rewrite IH, (IH (String a "")). by rewrite str_app_assoc.
Qed.

Lemma rev_app_string (s t : string) :
  String.rev (s +:+ t) = String.rev t +:+ String.rev s.
Proof. unfold String.rev. by rewrite rev_app_app, rev_app_acc. Qed.


(** a path that matches [*.json] is not the digest file of any ConfigBase *)
Lemma json_not_digest (config_volume : string) :
  Str.endswith (config_volume +:+ ".md5sum") ".json" = false.
Proof. unfold Str.endswith. by rewrite rev_app_string. Qed.

Lemma endswith_app_l (s t suf : string) :
  Str.endswith t suf = true → Str.endswith (s +:+ t) suf = true.
Proof.
  unfold Str.endswith. rewrite rev_app_string.
  intros [r ->]%startswith_spec. rewrite str_app_assoc. apply startswith_app.
Qed.

Lemma endswith_join (root filename suf : string) :
  Str.endswith filename suf = true →
  Str.endswith (os_path.join root filename) suf = true.
Proof.
  intros H. unfold os_path.join.
  destruct (Str.startswith filename _); [done|].
  destruct (_ || _); [by apply endswith_app_l|].
  by do 2 apply endswith_app_l.
Qed.

(** * What the loop body reads *)

Lemma same_digests_refl fs : same_digests fs fs.
Proof. done. Qed.

Lemma same_digests_trans fs1 fs2 fs3 :
  same_digests fs1 fs2 → same_digests fs2 fs3 → same_digests fs1 fs3.
Proof. intros H1 H2 v. by rewrite H1. Qed.

Lemma digest_same fs fs' (config_volume : string) :
  same_digests fs fs' → digest fs config_volume = digest fs' config_volume.
Proof. intros H. unfold digest. cbv zeta. by rewrite H. Qed.

Lemma digests_same fs fs' (config_volumes : list string) :
  same_digests fs fs' →
  mapM (digest fs) config_volumes = mapM (digest fs') config_volumes.
Proof.
  intros H. induction config_volumes as [|v vs IH]; [done|].
  change (mapM ?f (v :: vs)) with (y ← f v; ys ← mapM f vs; mret (y :: ys)).
  by rewrite IH, (digest_same fs fs' v H).
Qed.

Lemma bind_Ok {A B : Type} (a : A) (k : A → outcome B) : Ok a ≫= k = k a.
Proof. reflexivity. Qed.

Lemma reconcile_same prefix fs fs' text :
  same_digests fs fs' → reconcile prefix fs text = reconcile prefix fs' text.
Proof.
  intros H. unfold reconcile.
  destruct (Json.loads text) as [j|]; [|done].
  rewrite !bind_Ok.
  destruct (_match_config_volumes prefix j) as [vols| | |]; try done.
  rewrite !bind_Ok. by rewrite (digests_same fs fs' vols H).
Qed.

Lemma reconcile_inv prefix fs text h j' :
  reconcile prefix fs text = Ok (Some (h, j')) →
  ∃ d d' config_volumes config_hashes old,
    Json.loads text = Some (JObj d)
    ∧ _match_config_volumes prefix (JObj d) = Ok config_volumes
    ∧ mapM (digest fs) config_volumes = Ok config_hashes
    ∧ stored_hash d = Ok old
    ∧ h = aggregate config_hashes
    ∧ set_hash h d = Ok d'
    ∧ j' = JObj d'.
Proof.
  unfold reconcile.
  destruct (Json.loads text) as [j|]; [|done].
  rewrite bind_Ok.
  destruct (_match_config_volumes prefix j) as [vols| | |] eqn:Ev; try done.
  rewrite bind_Ok.
  destruct (mapM (digest fs) vols) as [hs| | |] eqn:Eh; try done.
  rewrite bind_Ok.
  destruct j as [| | | | |d]; try done.
  destruct (stored_hash d) as [old| | |] eqn:Eo; try done.
  rewrite bind_Ok.
  destruct (py_eq_str _ _); [done|].
  destruct (set_hash (aggregate hs) d) as [d'| | |] eqn:Es; try done.
  rewrite bind_Ok.
  intros [= <- <-]. by exists d, d', vols, hs, old.
Qed.

(** the matcher reads the [volumes] field only *)
Lemma match_config_volumes_field prefix d d' :
  Dict.get "volumes" d = Dict.get "volumes" d' →
  _match_config_volumes prefix (JObj d) = _match_config_volumes prefix (JObj d').
Proof. unfold _match_config_volumes. by intros ->. Qed.

(** A descriptor that has just been rewritten needs no further update. *)
Lemma reconcile_settled prefix fs text h j' :
  reconcile prefix fs text = Ok (Some (h, j')) →
  reconcile prefix fs (Json.dumps j') = Ok None.
Proof.
  intros (d & d' & vols & hs & old & Hl & Hv & Hh & Ho & -> & Hs & ->)
    %reconcile_inv.
  pose proof (loads_wf _ _ Hl) as Hwf.
  pose proof (set_hash_wf _ _ _ Hwf Hs) as Hwf'.
  destruct (set_hash_spec _ _ _ Hs) as ((env' & He & Hh' & _) & Hother & _).
  erewrite reconcile_object;
    [|by apply loads_dumps
     |by rewrite <-(match_config_volumes_field prefix d d')
         by (symmetry; by apply Hother)
     |done
     |by unfold stored_hash; rewrite He, Hh'].
  simpl. by rewrite String.eqb_refl.
Qed.

(** * Descriptors that need no update *)

Lemma settled_noop prefix config st :
  settled prefix (fs st) config → update_hash prefix config st = (Ok (), st).
Proof.
  unfold settled. destruct (obsolete config) eqn:Eo.
  - intros Hnone. by apply (update_hash_removes prefix config st Eo).
  - intros (f & Hf & Hr). by rewrite (update_hash_active _ _ _ f Eo Hf), Hr.
Qed.

(** what one iteration does to the store: nothing, or it deletes the
    descriptor, or it overwrites the descriptor *)
Lemma update_hash_fs prefix config st o st' :
  update_hash prefix config st = (o, st') →
  fs st' = fs st
  ∨ (∃ f, fs st !! config = Some (Regular f))
    ∧ (fs st' = delete config (fs st)
       ∨ ∃ data, fs st' = rewritten (fs st) config data).
Proof.
  destruct (obsolete config) eqn:Eo.
  - rewrite update_hash_obsolete by done.
    unfold _remove_file, path_exists, os_remove, os_path_exists.
    unfold mbind, M_bind. cbv beta.
    destruct (fs st !! config) as [[f|]|] eqn:E.
    + rewrite bool_decide_true by eauto. cbv beta iota. rewrite E.
      intros [= _ <-]. right. split; [eauto|]. by left.
    + rewrite bool_decide_true by eauto. cbv beta iota. rewrite E.
      intros [= _ <-]. by left.
    + rewrite bool_decide_false by (by intros [? ?]). intros [= _ <-]. by left.
  - destruct (fs st !! config) as [[f|]|] eqn:E.
    + rewrite (update_hash_active _ _ _ f Eo E).
      destruct (reconcile _ _ _) as [[[h j]|]| | |]; intros [= _ <-];
        try (by left).
      right. split; [eauto|]. right. by eexists.
    + unfold update_hash. fold (obsolete config). rewrite Eo.
      unfold _slurp, path_exists, read_file, os_path_exists.
      unfold mbind, M_bind. cbv beta. rewrite E.
      rewrite bool_decide_true by eauto. cbv beta iota. rewrite E.
      intros [= _ <-]. by left.
    + unfold update_hash. fold (obsolete config). rewrite Eo.
      unfold _slurp, path_exists, read_file, os_path_exists.
      unfold mbind, M_bind. cbv beta. rewrite E.
      rewrite bool_decide_false by (by intros [? ?]).
      intros [= _ <-]. by left.
Qed.

Lemma rewritten_same_digests fs config data :
  Str.endswith config ".json" = true →
  same_digests fs (rewritten fs config data).
Proof.
  intros Hj v. unfold rewritten. rewrite lookup_insert_ne; [done|].
  intros ->. by rewrite json_not_digest in Hj.
Qed.

Lemma delete_same_digests (fs : filesystem) config :
  Str.endswith config ".json" = true → same_digests fs (delete config fs).
Proof.
  intros Hj v. rewrite lookup_delete_ne; [done|].
  intros ->. by rewrite json_not_digest in Hj.
Qed.

(** After an iteration that returns, its descriptor is settled. *)
Lemma update_hash_settles prefix config st st' :
  Str.endswith config ".json" = true →
  update_hash prefix config st = (Ok (), st') →
  settled prefix (fs st') config.
Proof.
  intros Hj. unfold settled. destruct (obsolete config) eqn:Eo.
  - rewrite update_hash_obsolete by done.
    unfold _remove_file, path_exists, os_remove, os_path_exists.
    unfold mbind, M_bind. cbv beta.
    destruct (fs st !! config) as [[f|]|] eqn:E.
    + rewrite bool_decide_true by eauto. cbv beta iota. rewrite E.
      intros [= <-]. apply lookup_delete_eq.
    + rewrite bool_decide_true by eauto. cbv beta iota. by rewrite E.
    + rewrite bool_decide_false by (by intros [? ?]). by intros [= <-].
  - destruct (fs st !! config) as [[f|]|] eqn:E.
    + rewrite (update_hash_active _ _ _ f Eo E).
      destruct (reconcile _ _ _) as [[[h j]|]| | |] eqn:Er; try done.
      * intros [= <-]. simpl. eexists. unfold rewritten at 1.
        rewrite lookup_insert_eq. split; [done|]. simpl.
        rewrite <-(reconcile_same prefix (fs st))
          by (by apply rewritten_same_digests).
        by eapply reconcile_settled.
      * intros [= <-]. eauto.
    + unfold update_hash. fold (obsolete config). rewrite Eo.
      unfold _slurp, path_exists, read_file, os_path_exists.
      unfold mbind, M_bind. cbv beta. rewrite E.
      rewrite bool_decide_true by eauto. cbv beta iota. by rewrite E.
    + unfold update_hash. fold (obsolete config). rewrite Eo.
      unfold _slurp, path_exists, read_file, os_path_exists.
      unfold mbind, M_bind. cbv beta. rewrite E.
      by rewrite bool_decide_false by (by intros [? ?]).
Qed.

Lemma settled_same prefix fs fs' config :
  fs' !! config = fs !! config → same_digests fs fs' →
  settled prefix fs config → settled prefix fs' config.
Proof.
  unfold settled. intros Hc Hd. destruct (obsolete config); [congruence|].
  intros (f & Hf & Hr). exists f. rewrite Hc. split; [done|].
  by rewrite <-(reconcile_same prefix fs fs').
Qed.

(** An iteration on one descriptor leaves the others settled. *)
Lemma update_hash_keeps_settled prefix p q st o st' :
  Str.endswith q ".json" = true →
  settled prefix (fs st) p →
  update_hash prefix q st = (o, st') →
  settled prefix (fs st') p.
Proof.
  intros Hj Hp Hq. destruct (decide (q = p)) as [->|Hne].
  - rewrite settled_noop in Hq by done. by injection Hq as _ <-.
  - apply update_hash_fs in Hq as [->|[_ [->|[data ->]]]]; [done|..].
    + apply (settled_same prefix (fs st)); [|by apply delete_same_digests|done].
      by apply lookup_delete_ne.
    + apply (settled_same prefix (fs st));
        [|by apply rewritten_same_digests|done].
      unfold rewritten. by apply lookup_insert_ne.
Qed.

(** * The loop over the descriptors *)

Section run.
Variable prefix : string.

Local Abbreviation body := (update_hash prefix).

Lemma run_keeps_settled (l : list string) (p : string) st o st' :
  Forall (λ q, Str.endswith q ".json" = true) l →
  settled prefix (fs st) p →
  mapM body l st = (o, st') →
  settled prefix (fs st') p.
Proof.
  intros Hl. revert st o st'.
  induction Hl as [|q l Hq Hl IH]; intros st o st' Hp.
  - by intros [= _ <-].
  - rewrite mapM_cons_run.
    destruct (body q st) as [o1 st1] eqn:E1.
    pose proof (update_hash_keeps_settled _ _ _ _ _ _ Hq Hp E1) as Hp1.
    destruct o1; try (by intros [= _ <-]).
    destruct (mapM body l st1) as [o2 st2] eqn:E2.
    pose proof (IH _ _ _ Hp1 E2).
    by destruct o2; intros [= _ <-].
Qed.

(** After a loop that returns, every descriptor it went through is
    settled. *)
Lemma run_settles (l : list string) st r st' :
  Forall (λ q, Str.endswith q ".json" = true) l →
  mapM body l st = (Ok r, st') →
  Forall (settled prefix (fs st')) l.
Proof.
  intros Hl. revert st r st'.
  induction Hl as [|q l Hq Hl IH]; intros st r st'.
  - intros _. constructor.
  - rewrite mapM_cons_run.
    destruct (body q st) as [[[]| | |] st1] eqn:E1; try done.
    destruct (mapM body l st1) as [[r2| | |] st2] eqn:E2; try done.
    intros [= _ <-]. constructor; [|by eapply IH].
    eapply run_keeps_settled; [done| |done].
    by eapply update_hash_settles.
Qed.

(** A loop over settled descriptors changes nothing. *)
Lemma run_noop (l : list string) st :
  Forall (settled prefix (fs st)) l →
  ∃ r, mapM body l st = (Ok r, st).
Proof.
  induction 1 as [|q l Hq Hl [r IH]]; [by eexists|].
  rewrite mapM_cons_run, settled_noop by done. rewrite IH. by eexists.
Qed.

End run.

(** * The Descriptor Scanner *)

Lemma shrunk_refl fs : shrunk fs fs.
Proof. intros k. destruct (fs !! k) as [[]|]; eauto. Qed.

Lemma shrunk_trans fs1 fs2 fs3 : shrunk fs1 fs2 → shrunk fs2 fs3 → shrunk fs1 fs3.
Proof.
  intros H12 H23 k. specialize (H12 k). specialize (H23 k).
  destruct (fs3 !! k) as [[]|]; [|by rewrite H23 in H12|done].
  destruct H23 as [f2 Hf2]. by rewrite Hf2 in H12.
Qed.

Lemma update_hash_shrinks prefix config st o st' :
  update_hash prefix config st = (o, st') → shrunk (fs st) (fs st').
Proof.
  intros [->|[[f Hf] [->|[data ->]]]]%update_hash_fs; [apply shrunk_refl|..];
    intros k.
  - destruct (decide (config = k)) as [->|].
    + by rewrite lookup_delete_eq.
    + rewrite lookup_delete_ne by done. apply shrunk_refl.
  - unfold rewritten. destruct (decide (config = k)) as [->|].
    + rewrite lookup_insert_eq. eauto.
    + rewrite lookup_insert_ne by done. apply shrunk_refl.
Qed.

Lemma run_shrinks prefix (l : list string) st o st' :
  mapM (update_hash prefix) l st = (o, st') → shrunk (fs st) (fs st').
Proof.
  revert st o st'. induction l as [|q l IH]; intros st o st'.
  - intros [= _ <-]. apply shrunk_refl.
  - rewrite mapM_cons_run.
    destruct (update_hash prefix q st) as [o1 st1] eqn:E1.
    apply update_hash_shrinks in E1.
    destruct o1; try (by intros [= _ <-]).
    destruct (mapM (update_hash prefix) l st1) as [o2 st2] eqn:E2.
    apply IH in E2.
    pose proof (shrunk_trans _ _ _ E1 E2).
    by destruct o2; intros [= _ <-].
Qed.

Lemma found_shrunk top fs fs' p : shrunk fs fs' → found top fs' p → found top fs p.
Proof.
  intros Hs (Ht & [f Hf] & Hw). split; [|split; [|done]].
  - specialize (Hs top). by rewrite Ht in Hs.
  - specialize (Hs p). by rewrite Hf in Hs.
Qed.

Lemma walked_join top p root filename :
  walked top p = Some (root, filename) → os_path.join root filename = p.
Proof.
  unfold walked. destruct (_ && _) eqn:E; [|done]. intros [= <- <-].
  by apply andb_true_iff in E as [_ ?%String.eqb_eq].
Qed.

Lemma found_json top fs p : found top fs p → Str.endswith p ".json" = true.
Proof.
  intros (_ & _ & root & filename & Hw & Hj).
  rewrite <-(walked_join _ _ _ _ Hw). by apply endswith_join.
Qed.

Lemma find_run (top : string) (st : state) :
  ∃ l st', _find top st = (Ok l, st')
           ∧ fs st' = fs st ∧ changed st' = changed st
           ∧ ∀ p, p ∈ l ↔ found top (fs st) p.
Proof.
  unfold _find, path_exists, walk, os_path_exists, mbind at 1, M_bind at 1.
  cbv beta. destruct (fs st !! top) as [n|] eqn:Et.
  - rewrite bool_decide_true by eauto. cbv beta iota.
    unfold mbind at 1, M_bind at 1. cbv beta.
    eexists _, st. split; [reflexivity|]. split; [done|]. split; [done|].
    intros p. rewrite list_elem_of_bind. unfold os_walk, found. rewrite Et.
    split.
    + intros ([[root ds] filenames] & Hp & He).
      destruct n; [by apply elem_of_nil in He|].
      apply list_elem_of_omap in He as ([k [f|]] & Hk & He); [|done].
      apply elem_of_map_to_list in Hk.
      destruct (walked top k) as [[r n]|] eqn:Ew; [|done].
      injection He as <- <- <-.
      unfold fnmatch_filter_json in Hp.
      apply list_elem_of_fmap in Hp as (name & -> & Hn).
      apply list_elem_of_filter in Hn as [Hj ->%list_elem_of_singleton].
      rewrite (walked_join _ _ _ _ Ew). eauto 10.
    + intros ([= ->] & [f Hf] & root & filename & Hw & Hj).
      exists (root, [], [filename]). split.
      * rewrite <-(walked_join _ _ _ _ Hw). apply list_elem_of_fmap_2.
        unfold fnmatch_filter_json. apply list_elem_of_filter.
        split; [done|]. by apply list_elem_of_singleton.
      * apply list_elem_of_omap. exists (p, Regular f).
        split; [by apply elem_of_map_to_list|]. by rewrite Hw.
  - rewrite bool_decide_false by (by intros [? ?]). cbv beta iota.
    eexists [], _. split; [reflexivity|]. split; [done|]. split; [done|].
    intros p. split; [by intros ?%elem_of_nil|]. intros [? _]. congruence.
Qed.

Lemma update_hashes_run (prefix : string) (st : state) :
  ∃ l st0, _find CONTAINER_STARTUP_CONFIG st = (Ok l, st0)
           ∧ fs st0 = fs st ∧ changed st0 = changed st
           ∧ (∀ p, p ∈ l ↔ found CONTAINER_STARTUP_CONFIG (fs st) p)
           ∧ _update_hashes prefix st
             = match mapM (update_hash prefix) l st0 with
               | (Ok _, st') => (Ok (), st')
               | (Fail msg, st') => (Fail msg, st')
               | (Raise e, st') => (Raise e, st')
               | (Hang, st') => (Hang, st')
               end.
Proof.
  destruct (find_run CONTAINER_STARTUP_CONFIG st) as (l & st0 & Hf & ? & ? & ?).
  exists l, st0. repeat (split; [done|]).
  unfold _update_hashes. rewrite M_bind_run, Hf, M_bind_run.
  by destruct (mapM (update_hash prefix) l st0) as [[]?].
Qed.

(** C7. An active descriptor whose [environment] already stores the
    aggregate just computed, the aggregate not being empty, is left alone:
    the loop body writes nothing and leaves the state, the [changed] flag
    included, as it was.  A descriptor that an iteration has gone through is
    left alone by the next iteration on it.  And when a run over a store
    completes, a second run over the store it leaves writes nothing and
    reports no change. *)
Theorem second_run_unchanged :
  (∀ (prefix config : string) (st : state) (f : file)
     (d env : list (string * json)) (config_volumes : list string)
     (config_hashes : list (option string)),
     Str.startswith (os_path.splitext (os_path.basename config)).1 "hashed-"
     = false →
     fs st !! config = Some (Regular f) →
     Json.loads (content f) = Some (JObj d) →
     _match_config_volumes prefix (JObj d) = Ok config_volumes →
     mapM (digest (fs st)) config_volumes = Ok config_hashes →
     aggregate config_hashes ≠ "" →
     Dict.get "environment" d = Some (JObj env) →
     Dict.get "EDPM_CONFIG_HASH" env = Some (JStr (aggregate config_hashes)) →
     update_hash prefix config st = (Ok (), st))
  ∧ (∀ (prefix config : string) (st st1 : state),
       Str.endswith config ".json" = true →
       update_hash prefix config st = (Ok (), st1) →
       update_hash prefix config st1 = (Ok (), st1))
  ∧ (∀ (m : module) (fs0 : filesystem) (st1 : state),
       main m fs0 = (Ok (), st1) →
       ∃ st2, main m (fs st1) = (Ok (), st2)
              ∧ fs st2 = fs st1 ∧ changed st2 = false).
Proof.
  split; [|split].
  - intros prefix config st f d env vols hs Hact Hf Hd Hv Hh _ He Hs.
    rewrite (update_hash_active prefix config st f Hact Hf).
    erewrite reconcile_object;
      [|done|done|done|by unfold stored_hash; rewrite He, Hs].
    simpl. by rewrite String.eqb_refl.
  - intros prefix config st st1 Hj H1. apply settled_noop.
    by eapply update_hash_settles.
  - intros m fs0 st1. unfold main, ContainerConfigHashManager.
    set (prefix := config_vol_prefix (module_params m)).
    destruct (update_hashes_run prefix (State fs0 false [] []))
      as (l1 & st0 & _ & Hfs0 & _ & Hl1 & ->).
    destruct (mapM (update_hash prefix) l1 st0) as [[r1| | |] st1'] eqn:E1;
      try done.
    intros [= ->].
    destruct (update_hashes_run prefix (State (fs st1) false [] []))
      as (l2 & st2 & _ & Hfs2 & Hch2 & Hl2 & ->).
    simpl in Hfs0, Hfs2, Hch2, Hl1, Hl2.
    assert (Forall (λ q, Str.endswith q ".json" = true) l1) as Hjson.
    { apply Forall_forall. intros p Hp%Hl1. by eapply found_json. }
    pose proof (run_settles prefix l1 st0 r1 st1 Hjson E1) as Hsettled.
    pose proof (run_shrinks prefix l1 st0 _ st1 E1) as Hshrunk.
    rewrite Hfs0 in Hshrunk.
    destruct (run_noop prefix l2 st2) as [r2 ->].
    { apply Forall_forall. intros p Hp%Hl2. rewrite Hfs2.
      rewrite Forall_forall in Hsettled. apply Hsettled, Hl1.
      by eapply found_shrunk. }
    by exists st2.
Qed.

Lemma second_run_unchanged_witness :
  let m := default_params false in
  let fs0 := nova_host (Json.dumps (JObj [("volumes", nova_volumes)]))
                       nova_digest in
  let st1 := (main m fs0).2 in
  changed st1 = true
  ∧ ∃ st2, main m (fs st1) = (Ok (), st2)
           ∧ fs st2 = fs st1 ∧ changed st2 = false.
Proof.
  intros m fs0 st1. split; [by vm_compute|].
  apply (proj2 (proj2 second_run_unchanged) m fs0 st1).
  by vm_compute.
Defined.

(** C8. A descriptor whose name without the extension begins with
    [hashed-] is deleted whatever it holds: the loop body removes the file,
    touches nothing else, and returns without reading or parsing it, so it
    never reaches the matcher or the aggregator.  Removal is idempotent: on a
    path that no longer exists the body does nothing.  When a run completes,
    no descriptor of that name that the scanner had discovered is left. *)
Theorem obsolete_descriptor_removed :
  (∀ (prefix config : string) (st : state),
     Str.startswith (os_path.splitext (os_path.basename config)).1 "hashed-"
     = true →
     (∀ f, fs st !! config = Some (Regular f) →
           update_hash prefix config st
           = (Ok (), State (delete config (fs st)) (changed st) (warnings st)
                           (debug_log st))
           ∧ delete config (fs st) !! config = None)
     ∧ (os_path_exists (fs st) config = false →
        update_hash prefix config st = (Ok (), st)))
  ∧ (∀ (m : module) (fs0 : filesystem) (st1 : state) (config : string),
       main m fs0 = (Ok (), st1) →
       found CONTAINER_STARTUP_CONFIG fs0 config →
       Str.startswith (os_path.splitext (os_path.basename config)).1 "hashed-"
       = true →
       fs st1 !! config = None).
Proof.
  split.
  - intros prefix config st Hobs.
    destruct (update_hash_removes prefix config st Hobs) as [Hfile Habsent].
    split.
    + intros f Hf. split; [exact (Hfile f Hf)|apply lookup_delete_eq].
    + intros He. apply Habsent. unfold os_path_exists in He.
      apply bool_decide_eq_false in He. destruct (fs st !! config); [|done].
      destruct He. eauto.
  - intros m fs0 st1 config. unfold main, ContainerConfigHashManager.
    set (prefix := config_vol_prefix (module_params m)).
    destruct (update_hashes_run prefix (State fs0 false [] []))
      as (l1 & st0 & _ & Hfs0 & _ & Hl1 & ->).
    destruct (mapM (update_hash prefix) l1 st0) as [[r1| | |] st1'] eqn:E1;
      try done.
    intros [= ->] Hfound Hobs. simpl in Hl1.
    assert (Forall (λ q, Str.endswith q ".json" = true) l1) as Hjson.
    { apply Forall_forall. intros p Hp%Hl1. by eapply found_json. }
    pose proof (run_settles prefix l1 st0 r1 st1 Hjson E1) as Hsettled.
    rewrite Forall_forall in Hsettled.
    specialize (Hsettled config (proj2 (Hl1 config) Hfound)).
    unfold settled, obsolete in Hsettled. by rewrite Hobs in Hsettled.
Qed.

Lemma obsolete_descriptor_removed_witness :
  let config :=
    "/var/lib/edpm-config/container-startup-config/hashed-nova.json" in
  let st := State {[ config := Regular (File "not JSON" 420) ]} false [] [] in
  update_hash "/var/lib/config-data" config st = (Ok (), State ∅ false [] [])
  ∧ update_hash "/var/lib/config-data" config (State ∅ false [] [])
    = (Ok (), State ∅ false [] []).
Proof.
  intros config st.
  destruct (proj1 obsolete_descriptor_removed "/var/lib/config-data" config st)
    as [Hfile _]; [reflexivity|].
  destruct (proj1 obsolete_descriptor_removed "/var/lib/config-data" config
              (State ∅ false [] [])) as [_ Habsent]; [reflexivity|].
  split.
  - destruct (Hfile (File "not JSON" 420)) as [-> _]; [reflexivity|].
    simpl. by rewrite delete_singleton_eq.
  - by apply Habsent.
Defined.

(** C6, as the code has it.  The error that names the prefix and the
    descriptor is what a descriptor that is not a JSON object gets, since
    fetching its [volumes] field is what fails: the matcher fails with it,
    the loop body on such a descriptor fails with it and writes nothing, and
    the loop stops there, in the state that the descriptors before it have
    left. *)
Theorem non_object_descriptor_fails :
  (∀ (prefix : string) (config : json),
     (∀ d, config ≠ JObj d) →
     _match_config_volumes prefix config
     = Fail (Format "Error fetching volumes. Prefix: {} - Config: {}"
                    [ArgStr prefix; ArgJson config]))
  ∧ (∀ (prefix path : string) (l1 l2 : list string) (st0 st : state)
       (r : list ()) (f : file) (j : json),
       mapM (update_hash prefix) l1 st0 = (Ok r, st) →
       Str.startswith (os_path.splitext (os_path.basename path)).1 "hashed-"
       = false →
       fs st !! path = Some (Regular f) →
       Json.loads (content f) = Some j →
       (∀ d, j ≠ JObj d) →
       update_hash prefix path st
       = (Fail (error_fetching_volumes prefix j), st)
       ∧ mapM (update_hash prefix) (l1 ++ path :: l2) st0
         = (Fail (error_fetching_volumes prefix j), st)).
Proof.
  split; [apply match_non_object|].
  intros prefix path l1 l2 st0 st r f j H1 Hact Hf Hj Hobj.
  assert (update_hash prefix path st
          = (Fail (error_fetching_volumes prefix j), st)) as Hbody.
  { rewrite (update_hash_active prefix path st f Hact Hf). unfold reconcile.
    by rewrite Hj, bind_Ok, (match_non_object prefix j Hobj). }
  split; [done|].
  destruct (mapM_app_abort (update_hash prefix) l1 l2 path st0 st st r _
              H1 Hbody) as (o' & -> & Ho'); [done|].
  destruct o'; try done. by rewrite Ho'.
Qed.

Lemma non_object_descriptor_fails_witness :
  let fs0 := nova_host "[]" [] in
  let st := State fs0 false [] [] in
  update_hash "/var/lib/config-data" nova_json st
  = (Fail (error_fetching_volumes "/var/lib/config-data" (JArr [])), st)
  ∧ mapM (update_hash "/var/lib/config-data") [nova_json; nova_json] st
    = (Fail (error_fetching_volumes "/var/lib/config-data" (JArr [])), st).
Proof.
  intros fs0 st.
  apply (proj2 non_object_descriptor_fails "/var/lib/config-data" nova_json
           [] [nova_json] st st [] (File "[]" 420) (JArr []));
    try reflexivity.
  intros d. discriminate.
Defined.

(** C6 as stated fails.  A [volumes] field that holds a JSON object is
    iterated over its keys and the matcher returns; one that holds a number
    ends the matcher with an uncaught [TypeError].  Neither is the error that
    names the prefix and the descriptor. *)
Lemma malformed_volumes_not_reported :
  _match_config_volumes "/var/lib/config-data"
    (JObj [("volumes", JObj [("/etc/hosts", JStr "/etc/hosts")])]) = Ok []
  ∧ _match_config_volumes "/var/lib/config-data"
      (JObj [("volumes", JInt 5)]) = Raise TypeError.
Proof. by split. Qed.

(** * More on the Base Resolver *)






Section generated.
Variables prefix volume : string.
Let base := Str.rstrip os_path.sep prefix.
Let base_generated := os_path.join base "ansible-generated".
Hypothesis base_nonempty : base ≠ "".






End generated.

(** X1. Base resolution is idempotent: a path that the Base Resolver has
    returned for some volume resolves to itself. *)
Theorem config_base_idempotent (prefix volume path : string) :
  _get_config_base prefix volume = Ok path →
  _get_config_base prefix path = Ok path.
Proof.
  unfold _get_config_base. intros (Hs & Hd & _)%crawl_ok.
  simpl. rewrite Hs.
  by destruct Hd as [-> | ->]; rewrite String.eqb_refl, ?orb_true_r.
Qed.

Lemma config_base_idempotent_witness :
  _get_config_base "/var/lib/config-data" "/var/lib/config-data/nova"
  = Ok "/var/lib/config-data/nova".
Proof.
  apply (config_base_idempotent "/var/lib/config-data"
           "/var/lib/config-data/nova/etc/nova/nova.conf").
  reflexivity.
Defined.



(** * More on the Volume Matcher *)




Lemma update_hash_match_raise prefix config st f j e :
  obsolete config = false →
  fs st !! config = Some (Regular f) →
  Json.loads (content f) = Some j →
  _match_config_volumes prefix j = Raise e →
  update_hash prefix config st = (Raise e, st).
Proof.
  intros Hact Hf Hj Hm. rewrite (update_hash_active prefix config st f Hact Hf).
  unfold reconcile. by rewrite Hj, bind_Ok, Hm.
Qed.





(** * The loop body on descriptors that are missing or malformed *)

Lemma update_hash_missing prefix config st :
  obsolete config = false →
  fs st !! config = None →
  update_hash prefix config st
  = (Raise JSONDecodeError,
     State (fs st) (changed st)
           (warnings st ++ [Format "{} was not found." [ArgStr config]])
           (debug_log st)).
Proof.
  unfold update_hash, obsolete. intros -> Hf.
  unfold _slurp, path_exists, module_warn, json_loads, lift, os_path_exists.
  unfold mbind, M_bind, mret, M_ret. cbv beta.
  rewrite bool_decide_false by (rewrite Hf; by intros [? ?]).
  reflexivity.
Qed.

Lemma update_hash_directory prefix config st :
  obsolete config = false →
  fs st !! config = Some Directory →
  update_hash prefix config st = (Raise IsADirectoryError, st).
Proof.
  unfold update_hash, obsolete. intros -> Hf.
  unfold _slurp, path_exists, read_file, json_loads, lift, os_path_exists.
  unfold mbind, M_bind. cbv beta.
  rewrite bool_decide_true by eauto. cbv beta iota. by rewrite Hf.
Qed.


Lemma config_bases_none prefix volumes :
  Forall (λ v, ∃ s, v = JStr s ∧ Str.startswith s prefix = false) volumes →
  config_bases prefix volumes = Ok [].
Proof.
  induction 1 as [|v volumes (s & -> & Hs) _ IH]; [done|].
  simpl. by rewrite Hs.
Qed.

(** X5. A descriptor that mounts nothing under the prefix (it has no
    [volumes] field, or a list of volumes none of which starts with the
    prefix) and stores no hash (no [environment], no [EDPM_CONFIG_HASH] in
    it, or the empty string there) is left as it is: the loop body writes
    nothing and does not touch the state. *)
Theorem unmounted_descriptor_untouched (prefix config : string) (st : state)
    (f : file) (d : list (string * json)) :
  Str.startswith (os_path.splitext (os_path.basename config)).1 "hashed-"
  = false →
  fs st !! config = Some (Regular f) →
  Json.loads (content f) = Some (JObj d) →
  (Dict.get "volumes" d = None
   ∨ ∃ volumes,
       Dict.get "volumes" d = Some (JArr volumes)
       ∧ Forall (λ v, ∃ s, v = JStr s ∧ Str.startswith s prefix = false)
                volumes) →
  (Dict.get "environment" d = None
   ∨ ∃ env,
       Dict.get "environment" d = Some (JObj env)
       ∧ (Dict.get "EDPM_CONFIG_HASH" env = None
          ∨ Dict.get "EDPM_CONFIG_HASH" env = Some (JStr ""))) →
  update_hash prefix config st = (Ok (), st).
Proof.
  intros Hact Hf Hd Hv He.
  rewrite (update_hash_active prefix config st f Hact Hf).
  assert (_match_config_volumes prefix (JObj d) = Ok []) as Hm.
  { unfold _match_config_volumes.
    destruct Hv as [->|(volumes & -> & Hall)]; [done|].
    simpl. by rewrite (config_bases_none prefix volumes Hall). }
  assert (stored_hash d = Ok (JStr "")) as Hs.
  { unfold stored_hash.
    destruct He as [->|(env & -> & [->| ->])]; done. }
  by rewrite (reconcile_object prefix (fs st) (content f) d [] [] (JStr "")
               Hd Hm eq_refl Hs).
Qed.

Lemma unmounted_descriptor_untouched_witness :
  let d := [("image", JStr "quay.io/cron");
            ("volumes", JArr [JStr "/etc/hosts:/etc/hosts:ro"]);
            ("environment", JObj [("TZ", JStr "UTC")])] in
  let st := State (nova_host (Json.dumps (JObj d)) nova_digest) false [] [] in
  update_hash "/var/lib/config-data" nova_json st = (Ok (), st).
Proof.
  intros d st.
  apply (unmounted_descriptor_untouched "/var/lib/config-data" nova_json st
           (File (Json.dumps (JObj d)) 420) d).
  - reflexivity.
  - reflexivity.
  - by vm_compute.
  - right. eexists. split; [reflexivity|].
    apply Forall_cons_2; [|apply Forall_nil_2]. by eexists.
  - right. eexists. split; [reflexivity|]. by left.
Defined.

(** X6. An [environment] field that is not a JSON object has no [get]: once
    the volumes are matched and the digests read, the loop body ends with an
    uncaught [AttributeError] and writes nothing. *)
Theorem malformed_environment_raises (prefix config : string) (st : state)
    (f : file) (d : list (string * json)) (e : json)
    (config_volumes : list string) (config_hashes : list (option string)) :
  Str.startswith (os_path.splitext (os_path.basename config)).1 "hashed-"
  = false →
  fs st !! config = Some (Regular f) →
  Json.loads (content f) = Some (JObj d) →
  _match_config_volumes prefix (JObj d) = Ok config_volumes →
  mapM (digest (fs st)) config_volumes = Ok config_hashes →
  Dict.get "environment" d = Some e →
  (∀ env, e ≠ JObj env) →
  update_hash prefix config st = (Raise AttributeError, st).
Proof.
  intros Hact Hf Hd Hm Hh He Hobj.
  rewrite (update_hash_active prefix config st f Hact Hf).
  unfold reconcile. rewrite Hd, bind_Ok, Hm, bind_Ok, Hh, bind_Ok.
  unfold stored_hash. rewrite He.
  destruct e as [| | | | |env]; try done. by destruct (Hobj env).
Qed.

Lemma malformed_environment_raises_witness :
  let d := [("volumes", nova_volumes);
            ("environment", JArr [JStr "EDPM_CONFIG_HASH=0ld"])] in
  let st := State (nova_host (Json.dumps (JObj d)) nova_digest) false [] [] in
  update_hash "/var/lib/config-data" nova_json st = (Raise AttributeError, st).
Proof.
  intros d st.
  apply (malformed_environment_raises "/var/lib/config-data" nova_json st
           (File (Json.dumps (JObj d)) 420) d
           (JArr [JStr "EDPM_CONFIG_HASH=0ld"])
           ["/var/lib/config-data/nova"] [Some "abc123"]);
    try (by vm_compute).
Defined.



(** * What the module writes *)

Lemma update_container_config_run (path : string) (j : json) (st : state) :
  fs st !! path ≠ Some Directory →
  _update_container_config path j st
  = (Ok (), State (rewritten (fs st) path (Json.dumps j)) true (warnings st)
                  (debug_log st)).
Proof.
  intros Hd. unfold _update_container_config, write_file, os_chmod, set_changed.
  unfold mbind, M_bind, put_fs. cbv beta.
  assert (∀ fs' : filesystem,
            fs' !! path = Some (Regular (File (Json.dumps j) 384)) →
            (∀ k, k ≠ path → fs' !! k = fs st !! k) →
            fs' = rewritten (fs st) path (Json.dumps j)) as Heq.
  { intros fs' Hp Hk. apply map_eq. intros k. unfold rewritten.
    destruct (decide (path = k)) as [<-|Hne].
    - by rewrite lookup_insert_eq.
    - rewrite lookup_insert_ne by done. apply Hk. congruence. }
  destruct (fs st !! path) as [[f|]|] eqn:Hf; [|done|]; simpl; f_equal;
    f_equal; apply Heq.
  - by rewrite lookup_alter_eq, lookup_insert_eq.
  - intros k Hk. by rewrite lookup_alter_ne, lookup_insert_ne.
  - by rewrite lookup_alter_eq, lookup_insert_eq.
  - intros k Hk. by rewrite lookup_alter_ne, lookup_insert_ne.
Qed.

Lemma slurp_loads_run (path : string) (st : state) (f : file) :
  fs st !! path = Some (Regular f) →
  (text ← _slurp path; json_loads text) st
  = (match Json.loads (content f) with
     | Some j => Ok j
     | None => Raise JSONDecodeError
     end, st).
Proof.
  intros Hf. unfold _slurp, path_exists, read_file, json_loads, lift.
  unfold os_path_exists, mbind, M_bind. cbv beta.
  rewrite bool_decide_true by eauto. cbv beta iota. by rewrite Hf.
Qed.

(** X8. What the module writes it reads back.  Encoding a decoded
    descriptor, or one that has then been given a hash, and decoding the
    text gives the same value; and where the path is not a directory,
    [_update_container_config] leaves a file with the encoded text and mode
    0600, touches no other path, sets [changed], and slurping and decoding
    that file returns the descriptor. *)
Theorem written_descriptor_reads_back :
  (∀ (text : string) (j : json),
     Json.loads text = Some j → Json.loads (Json.dumps j) = Some j)
  ∧ (∀ (text h : string) (d d' : list (string * json)),
       Json.loads text = Some (JObj d) → set_hash h d = Ok d' →
       Json.loads (Json.dumps (JObj d')) = Some (JObj d'))
  ∧ (∀ (path : string) (j : json) (st : state),
       Json.loads (Json.dumps j) = Some j →
       fs st !! path ≠ Some Directory →
       ∃ st', _update_container_config path j st = (Ok (), st')
              ∧ fs st' !! path = Some (Regular (File (Json.dumps j) 384))
              ∧ (∀ p, p ≠ path → fs st' !! p = fs st !! p)
              ∧ changed st' = true
              ∧ (text ← _slurp path; json_loads text) st' = (Ok j, st')).
Proof.
  split; [|split].
  - intros text j Hj. by apply loads_dumps, (loads_wf text).
  - intros text h d d' Hd Hs.
    apply loads_dumps, (set_hash_wf h d); [|done]. by apply (loads_wf text).
  - intros path j st Hj Hd. eexists.
    split; [by apply update_container_config_run|]. simpl. unfold rewritten.
    split; [by rewrite lookup_insert_eq|].
    split; [by intros p Hp; rewrite lookup_insert_ne|].
    split; [done|].
    erewrite slurp_loads_run; [|simpl; apply lookup_insert_eq].
    simpl. by rewrite Hj.
Qed.

Lemma written_descriptor_reads_back_witness :
  let j := JObj [("image", JStr ("caf" +:+ String "233" ""));
                 ("privileged", JBool true);
                 ("volumes", nova_volumes); ("ulimit", JArr [JInt (-1)])] in
  ∃ st', _update_container_config nova_json j (State ∅ false [] [])
         = (Ok (), st')
         ∧ fs st' !! nova_json = Some (Regular (File (Json.dumps j) 384))
         ∧ (∀ p, p ≠ nova_json → fs st' !! p = (∅ : filesystem) !! p)
         ∧ changed st' = true
         ∧ (text ← _slurp nova_json; json_loads text) st' = (Ok j, st').
Proof.
  intros j.
  apply (proj2 (proj2 written_descriptor_reads_back) nova_json j
           (State ∅ false [] [])).
  - by vm_compute.
  - by vm_compute.
Defined.

(** ** The text is ASCII *)

Lemma isascii_app (s t : string) :
  Str.isascii (s +:+ t) = Str.isascii s && Str.isascii t.
Proof.
  induction s as [|a s IH]; [reflexivity|].
  rewrite str_app_cons. simpl. by rewrite IH, andb_assoc.
Qed.

Lemma isascii_repeat_space (n : nat) : Str.isascii (Str.repeat " " n) = true.
Proof. induction n as [|n IH]; [done|]. simpl. by rewrite IH. Qed.

Lemma isascii_newline_indent (level : nat) :
  Str.isascii (Json.newline_indent level) = true.
Proof. unfold Json.newline_indent. simpl. apply isascii_repeat_space. Qed.

Lemma isascii_escape (c : ascii) : Str.isascii (Json.escape c) = true.
Proof. by destruct c as [[] [] [] [] [] [] [] []]; vm_compute. Qed.

Lemma isascii_encode_str (s : string) : Str.isascii (Json.encode_str s) = true.
Proof.
  unfold Json.encode_str. simpl. rewrite isascii_app, andb_true_r.
  induction s as [|c s IH]; [done|].
  simpl. by rewrite isascii_app, isascii_escape, IH.
Qed.

Lemma isascii_uint (d : Decimal.uint) :
  Str.isascii (NilZero.string_of_uint d) = true.
Proof.
  unfold NilZero.string_of_uint. destruct d; try done.
  all: simpl; induction d; simpl; try done.
Qed.

Lemma isascii_int_repr (z : Z) : Str.isascii (Json.int_repr z) = true.
Proof.
  unfold Json.int_repr, NilZero.string_of_int.
  destruct (Z.to_int z); [apply isascii_uint|].
  simpl. apply isascii_uint.
Qed.

Lemma isascii_join (sep : string) (l : list string) :
  Str.isascii sep = true → Forall (λ s, Str.isascii s = true) l →
  Str.isascii (Str.join sep l) = true.
Proof.
  intros Hsep. induction 1 as [|x l Hx Hl IH]; [done|].
  destruct l as [|y l]; [done|].
  change (Str.join sep (x :: y :: l)) with (x +:+ sep +:+ Str.join sep (y :: l)).
  by rewrite !isascii_app, Hx, Hsep, IH.
Qed.

Lemma isascii_iterencode (j : json) (level : nat) :
  Str.isascii (Json.iterencode level j) = true.
Proof.
  revert level. induction j as [|[]|z|s|l IH|d IH] using json_nested_ind;
    intros level; try done.
  - apply isascii_int_repr.
  - apply isascii_encode_str.
  - destruct l as [|x l]; [done|].
    change (Json.iterencode level (JArr (x :: l)))
      with ("[" +:+ Json.newline_indent (S level)
            +:+ Str.join ("," +:+ Json.newline_indent (S level))
                  (Json.iterencode (S level) <$> x :: l)
            +:+ Json.newline_indent level +:+ "]").
    rewrite !isascii_app, !isascii_newline_indent, isascii_join; [done|..].
    + by rewrite isascii_app, isascii_newline_indent.
    + apply Forall_fmap. eapply Forall_impl; [exact IH|]. intros v Hv. apply Hv.
  - destruct d as [|x d]; [done|].
    change (Json.iterencode level (JObj (x :: d)))
      with ("{" +:+ Json.newline_indent (S level)
            +:+ Str.join ("," +:+ Json.newline_indent (S level))
                  (Json.encode_item (Json.iterencode (S level)) <$> x :: d)
            +:+ Json.newline_indent level +:+ "}").
    rewrite !isascii_app, !isascii_newline_indent, isascii_join; [done|..].
    + by rewrite isascii_app, isascii_newline_indent.
    + apply Forall_fmap. eapply Forall_impl; [exact IH|]. intros [k v] Hv.
      simpl in Hv.
      change (Str.isascii (Json.encode_item (Json.iterencode (S level)) (k, v))
              = true).
      rewrite encode_item_eq.
      by rewrite !isascii_app, isascii_encode_str, Hv.
Qed.

(** X9. The text that [_update_container_config] writes is ASCII whatever
    the descriptor holds, since the encoder escapes every character that is
    not printable ASCII: encoding it as UTF-8 yields the same characters,
    one byte each. *)
Theorem written_text_is_ascii (path : string) (j : json) (st : state)
    (f : file) :
  let st' := (_update_container_config path j st).2 in
  Str.isascii (Json.dumps j) = true
  ∧ (fs st' !! path = Some (Regular f) → Str.isascii (content f) = true).
Proof.
  intros st'. split; [apply isascii_iterencode|].
  unfold st'. destruct (fs st !! path) as [[g|]|] eqn:Hf.
  - rewrite update_container_config_run by (by rewrite Hf). simpl.
    unfold rewritten. rewrite lookup_insert_eq. intros [= <-].
    apply isascii_iterencode.
  - unfold _update_container_config, write_file, mbind, M_bind. cbv beta.
    rewrite Hf. simpl. by rewrite Hf.
  - rewrite update_container_config_run by (by rewrite Hf). simpl.
    unfold rewritten. rewrite lookup_insert_eq. intros [= <-].
    apply isascii_iterencode.
Qed.

Lemma written_text_is_ascii_witness :
  let j := JObj [("image", JStr ("caf" +:+ String "233" ""))] in
  let st' := (_update_container_config nova_json j (State ∅ false [] [])).2 in
  Str.isascii ("caf" +:+ String "233" "") = false
  ∧ Str.isascii (Json.dumps j) = true
  ∧ (fs st' !! nova_json = Some (Regular (File (Json.dumps j) 384)) →
     Str.isascii (content (File (Json.dumps j) 384)) = true).
Proof.
  intros j st'. split; [reflexivity|].
  apply (written_text_is_ascii nova_json j (State ∅ false [] [])
           (File (Json.dumps j) 384)).
Defined.

(** * Storing the hash *)

Lemma dict_get_keys (k : string) (d : list (string * json)) :
  Dict.get k d = None ↔ k ∉ d.*1.
Proof.
  induction d as [|[k' v] d IH]; simpl.
  - split; [intros _; apply not_elem_of_nil|done].
  - rewrite not_elem_of_cons.
    destruct (String.eqb_spec k' k) as [->|Hne]; [by split; [|intros []]|].
    rewrite IH. split; [by split|by intros []].
Qed.

Lemma dict_contains_keys (k : string) (d : list (string * json)) :
  Dict.contains k d = true ↔ k ∈ d.*1.
Proof.
  unfold Dict.contains. pose proof (dict_get_keys k d) as H.
  destruct (Dict.get k d).
  - split; [|done]. intros _. destruct (decide (k ∈ d.*1)) as [|Hn]; [done|].
    by apply H in Hn.
  - split; [done|]. intros Hin. by apply H in Hin.
Qed.

(** X10. Storing a hash changes one variable and nothing else.  The keys
    of the descriptor keep their order, [environment] going last when it had
    to be created; every other field keeps its value; inside [environment]
    the variables keep their order, [EDPM_CONFIG_HASH] going last when it is
    new, and every other variable keeps its value.  The last hash stored
    wins: storing a second hash gives what storing it alone would have
    given, so storing the same hash twice changes nothing more. *)
Theorem set_hash_keeps_the_rest (h : string) (d d' : list (string * json)) :
  set_hash h d = Ok d' →
  d'.*1 = (if Dict.contains "environment" d then d.*1
           else d.*1 ++ ["environment"])
  ∧ (∀ k, k ≠ "environment" → Dict.get k d' = Dict.get k d)
  ∧ (∃ env',
       Dict.get "environment" d' = Some (JObj env')
       ∧ Dict.get "EDPM_CONFIG_HASH" env' = Some (JStr h)
       ∧ ∀ env, Dict.get "environment" d = Some (JObj env) →
           env'.*1 = (if Dict.contains "EDPM_CONFIG_HASH" env then env.*1
                      else env.*1 ++ ["EDPM_CONFIG_HASH"])
           ∧ ∀ k, k ≠ "EDPM_CONFIG_HASH" → Dict.get k env' = Dict.get k env)
  ∧ (∀ h2, set_hash h2 d' = set_hash h2 d)
  ∧ set_hash h d' = Ok d'.
Proof.
  intros Hs. pose proof Hs as (env & He & ->)%set_hash_eq.
  assert (∀ k v (e : list (string * json)),
            (Dict.set k v e).*1
            = if Dict.contains k e then e.*1 else e.*1 ++ [k]) as Hkeys.
  { intros k v e. rewrite dict_set_keys.
    pose proof (dict_contains_keys k e) as Hc.
    destruct (decide _) as [Hin|Hn], (Dict.contains k e); try done.
    - by apply Hc in Hin.
    - destruct Hn. by apply Hc. }
  assert (∀ h2, set_hash h2
                  (Dict.set "environment"
                     (JObj (Dict.set "EDPM_CONFIG_HASH" (JStr h) env)) d)
                = set_hash h2 d) as Hlast.
  { intros h2. unfold set_hash at 1, Dict.contains.
    rewrite !dict_get_set_eq, !dict_set_set.
    unfold set_hash, Dict.contains.
    destruct He as [He|[He ->]]; rewrite He; [by rewrite He|].
    by rewrite dict_get_set_eq, dict_set_set. }
  split; [apply Hkeys|].
  split; [by intros k Hk; apply dict_get_set_ne|].
  split.
  - eexists. split; [apply dict_get_set_eq|]. split; [apply dict_get_set_eq|].
    intros env0 He0. destruct He as [He|[He _]]; [|congruence].
    rewrite He in He0. injection He0 as <-.
    split; [apply Hkeys|]. by intros k Hk; apply dict_get_set_ne.
  - split; [done|]. by rewrite Hlast.
Qed.

Lemma set_hash_keeps_the_rest_witness :
  let d := [("image", JStr "quay.io/nova"); ("volumes", nova_volumes)] in
  ∃ d', set_hash "abc123" d = Ok d'
        ∧ d'.*1 = ["image"; "volumes"; "environment"]
        ∧ set_hash "def456" d' = set_hash "def456" d.
Proof.
  intros d. eexists. split; [reflexivity|].
  destruct (set_hash_keeps_the_rest "abc123" d _ eq_refl)
    as (Hkeys & _ & _ & Hlast & _).
  split; [exact Hkeys|apply Hlast].
Defined.

(** * The Scanner *)

Lemma walk_entry_key (top k : string) (n : node)
    (entry : string * list string * list string) :
  match n with
  | Regular _ =>
      match walked top k with
      | Some (root, filename) => Some (root, [], [filename])
      | None => None
      end
  | Directory => None
  end = Some entry →
  joined entry = [k] ∨ joined entry = [].
Proof.
  destruct n as [f|]; [|done].
  destruct (walked top k) as [[root filename]|] eqn:Ew; [|done].
  intros [= <-]. unfold joined, fnmatch_filter_json.
  rewrite filter_cons, filter_nil.
  destruct (decide _); [left|by right].
  simpl. by rewrite (walked_join _ _ _ _ Ew).
Qed.

Lemma walk_NoDup (fs : filesystem) (top : string) :
  NoDup (os_walk fs top ≫= joined).
Proof.
  unfold os_walk. destruct (fs !! top) as [[f|]|]; try apply NoDup_nil_2.
  pose proof (NoDup_fst_map_to_list fs) as Hnd.
  set (F := λ entry : string * node, _).
  enough (NoDup (omap F (map_to_list fs) ≫= joined)
          ∧ ∀ p, p ∈ omap F (map_to_list fs) ≫= joined
                 → p ∈ (map_to_list fs).*1) as [? _] by done.
  induction (map_to_list fs) as [|[k n] L IH].
  { split; [apply NoDup_nil_2|]. by intros p ?%elem_of_nil. }
  rewrite fmap_cons in Hnd. apply NoDup_cons in Hnd as [Hk Hnd].
  destruct (IH Hnd) as [IH1 IH2].
  change (omap F ((k, n) :: L))
    with (match F (k, n) with
          | Some y => y :: omap F L
          | None => omap F L
          end).
  destruct (F (k, n)) as [entry|] eqn:EF.
  - rewrite bind_cons.
    destruct (walk_entry_key top k n entry EF) as [-> | ->].
    + split.
      * apply NoDup_cons. split; [|done]. intros Hin. by apply Hk, IH2.
      * intros p [->|Hp]%elem_of_cons; [left|right; by apply IH2].
    + split; [done|]. intros p Hp. right. by apply IH2.
  - split; [done|]. intros p Hp. right. by apply IH2.
Qed.

Lemma find_spec (top : string) (st : state) :
  ∃ l, _find top st
       = (Ok l,
          if os_path_exists (fs st) top then st
          else State (fs st) (changed st)
                     (warnings st ++ [Format "{} does not exists" [ArgStr top]])
                     (debug_log st))
       ∧ NoDup l
       ∧ ∀ p, p ∈ l ↔ found top (fs st) p.
Proof.
  destruct (find_run top st) as (l & st' & Hrun & _ & _ & Hl).
  exists l. split; [|split; [|done]].
  - rewrite Hrun. f_equal. revert Hrun.
    unfold _find, path_exists, walk, module_warn, mbind, M_bind, mret, M_ret.
    cbv beta. destruct (os_path_exists (fs st) top); cbv beta iota; congruence.
  - revert Hrun.
    unfold _find, path_exists, walk, module_warn, mbind, M_bind, mret, M_ret.
    cbv beta. destruct (os_path_exists (fs st) top); cbv beta iota.
    + intros [= <- _]. apply walk_NoDup.
    + intros [= <- _]. apply NoDup_nil_2.
Qed.

Lemma found_under (top : string) (fs : filesystem) (p : string) :
  found top fs p → Str.startswith p top = true.
Proof.
  intros (_ & _ & root & filename & Hw & _). unfold walked in Hw.
  set (r := Str.take _ p) in Hw.
  destruct (_ && _) eqn:E; [|done]. apply andb_true_iff in E as [E _].
  assert (Str.startswith p r = true) as Hr by apply startswith_take.
  apply orb_true_iff in E as [E|E].
  - apply String.eqb_eq in E. by rewrite <-E.
  - apply (startswith_trans _ _ _ Hr). apply (startswith_trans _ _ _ E).
    apply startswith_app.
Qed.

(** X11. The Scanner lists every regular file of the store that the walk
    of the directory reports and whose name matches [*.json], each one once,
    and nothing else: every path listed ends in [.json] and starts with the
    path of the directory.  It touches neither the store nor the [changed]
    flag, and it warns, once, only when the path does not exist. *)
Theorem find_lists_descriptors_once (top : string) (st : state) :
  ∃ (l : list string) (st' : state),
    _find top st = (Ok l, st')
    ∧ fs st' = fs st ∧ changed st' = changed st
    ∧ warnings st'
      = (if os_path_exists (fs st) top then warnings st
         else warnings st ++ [Format "{} does not exists" [ArgStr top]])
    ∧ NoDup l
    ∧ (∀ p, p ∈ l ↔
            fs st !! top = Some Directory
            ∧ (∃ f, fs st !! p = Some (Regular f))
            ∧ ∃ root filename,
                walked top p = Some (root, filename)
                ∧ Str.endswith filename ".json" = true)
    ∧ (∀ p, p ∈ l →
            Str.endswith p ".json" = true ∧ Str.startswith p top = true).
Proof.
  destruct (find_spec top st) as (l & Hrun & Hnd & Hl).
  exists l. eexists. split; [exact Hrun|].
  split; [by destruct (os_path_exists _ _)|].
  split; [by destruct (os_path_exists _ _)|].
  split; [by destruct (os_path_exists _ _)|].
  split; [done|]. split; [exact Hl|].
  intros p Hp%Hl. split; [by eapply found_json|by eapply found_under].
Qed.

(** * What a run leaves alone *)

Lemma update_hash_obsolete_directory prefix config st :
  obsolete config = true →
  fs st !! config = Some Directory →
  update_hash prefix config st = (Raise IsADirectoryError, st).
Proof.
  intros Hobs Hf. rewrite update_hash_obsolete by done.
  unfold _remove_file, path_exists, os_remove, os_path_exists, mbind, M_bind.
  cbv beta. rewrite bool_decide_true by eauto. cbv beta iota. by rewrite Hf.
Qed.

(** One iteration leaves the store and the flag as they were, or removes an
    obsolete descriptor, or rewrites an active one and sets the flag. *)
Lemma update_hash_effect prefix config st o st' :
  update_hash prefix config st = (o, st') →
  (fs st' = fs st ∧ changed st' = changed st)
  ∨ (obsolete config = true ∧ o = Ok ()
     ∧ (∃ f, fs st !! config = Some (Regular f))
     ∧ fs st' = delete config (fs st) ∧ changed st' = changed st)
  ∨ (obsolete config = false ∧ o = Ok ()
     ∧ (∃ f, fs st !! config = Some (Regular f))
     ∧ (∃ data, fs st' = rewritten (fs st) config data)
     ∧ changed st' = true).
Proof.
  destruct (obsolete config) eqn:Hobs.
  - destruct (update_hash_removes prefix config st Hobs) as [Hfile Habsent].
    destruct (fs st !! config) as [[f|]|] eqn:Hf.
    + rewrite (Hfile f eq_refl). intros [= <- <-]. right. left. eauto 10.
    + rewrite update_hash_obsolete_directory by done. intros [= <- <-].
      by left.
    + rewrite Habsent by done. intros [= <- <-]. by left.
  - destruct (fs st !! config) as [[f|]|] eqn:Hf.
    + rewrite (update_hash_active prefix config st f Hobs Hf).
      destruct (reconcile _ _ _) as [[[h j]|]| | |]; intros [= <- <-];
        try (by left).
      right. right. simpl. eauto 10.
    + rewrite update_hash_directory by done. intros [= <- <-]. by left.
    + rewrite update_hash_missing by done. intros [= <- <-]. by left.
Qed.

Lemma update_hash_frame prefix config st o st' p :
  update_hash prefix config st = (o, st') → p ≠ config →
  fs st' !! p = fs st !! p.
Proof.
  intros H Hp.
  destruct (update_hash_effect prefix config st o st' H)
    as [[-> _]|[(_ & _ & _ & -> & _)|(_ & _ & _ & [data ->] & _)]].
  - done.
  - by rewrite lookup_delete_ne.
  - unfold rewritten. by rewrite lookup_insert_ne.
Qed.

Lemma update_hash_quiet prefix config st o st' :
  is_Some (fs st !! config) →
  update_hash prefix config st = (o, st') → warnings st' = warnings st.
Proof.
  intros [n Hn]. destruct (obsolete config) eqn:Hobs.
  - destruct (update_hash_removes prefix config st Hobs) as [Hfile _].
    destruct n as [f|].
    + rewrite (Hfile f Hn). by intros [= <- <-].
    + rewrite update_hash_obsolete_directory by done. by intros [= <- <-].
  - destruct n as [f|].
    + rewrite (update_hash_active prefix config st f Hobs Hn).
      by destruct (reconcile _ _ _) as [[[h j]|]| | |]; intros [= <- <-].
    + rewrite update_hash_directory by done. by intros [= <- <-].
Qed.

(** a property of the states at the two ends of one iteration that is
    reflexive and transitive holds of the two ends of the loop *)
Lemma mapM_run_ind {A B : Type} (f : A → M B) (P : state → state → Prop)
    (l : list A) :
  (∀ st, P st st) →
  (∀ st1 st2 st3, P st1 st2 → P st2 st3 → P st1 st3) →
  (∀ x st o st', x ∈ l → f x st = (o, st') → P st st') →
  ∀ st o st', mapM f l st = (o, st') → P st st'.
Proof.
  intros Hrefl Htrans. induction l as [|x l IH]; intros Hstep st o st'.
  { intros [= <- <-]. apply Hrefl. }
  rewrite mapM_cons_run.
  destruct (f x st) as [o1 st1] eqn:E1.
  assert (P st st1) as H1 by (eapply Hstep; [left|done]).
  assert (∀ o2 st2, mapM f l st1 = (o2, st2) → P st st2) as Hrest.
  { intros o2 st2 E2. apply (Htrans _ st1); [done|].
    eapply IH; [|done]. intros y s o' s' Hy. apply Hstep. by right. }
  destruct o1; try (by intros [= <- <-]).
  destruct (mapM f l st1) as [o2 st2] eqn:E2.
  specialize (Hrest _ _ eq_refl).
  by destruct o2; intros [= <- <-].
Qed.

Lemma run_frame prefix (l : list string) st o st' p :
  mapM (update_hash prefix) l st = (o, st') → p ∉ l →
  fs st' !! p = fs st !! p.
Proof.
  intros H Hp.
  apply (mapM_run_ind (update_hash prefix)
           (λ s s', fs s' !! p = fs s !! p) l) with (o := o); [done| | |done].
  - intros s1 s2 s3 H1 H2. by rewrite H2.
  - intros x s o' s' Hx Hs. eapply update_hash_frame; [done|].
    by intros ->.
Qed.

Lemma run_quiet prefix (l : list string) st o st' :
  NoDup l → (∀ p, p ∈ l → ∃ f, fs st !! p = Some (Regular f)) →
  mapM (update_hash prefix) l st = (o, st') →
  warnings st' = warnings st.
Proof.
  intros Hnd. revert st o st'.
  induction Hnd as [|x l Hx Hnd IH]; intros st o st' Hreg.
  { by intros [= <- <-]. }
  rewrite mapM_cons_run.
  destruct (update_hash prefix x st) as [o1 st1] eqn:E1.
  assert (warnings st1 = warnings st) as H1.
  { eapply update_hash_quiet; [|done]. destruct (Hreg x) as [f ->]; [left|].
    done. }
  assert (∀ o2 st2, mapM (update_hash prefix) l st1 = (o2, st2)
                    → warnings st2 = warnings st) as Hrest.
  { intros o2 st2 E2. rewrite <-H1. eapply IH; [|done].
    intros p Hp. rewrite (update_hash_frame _ _ _ _ _ p E1).
    - apply Hreg. by right.
    - by intros ->. }
  destruct o1; try (by intros [= <- <-]).
  destruct (mapM (update_hash prefix) l st1) as [o2 st2] eqn:E2.
  specialize (Hrest _ _ eq_refl).
  by destruct o2; intros [= <- <-].
Qed.

(** [main] as the loop over what the Scanner lists *)
Lemma main_run (m : module) (fs0 : filesystem) :
  ∃ l, NoDup l
       ∧ (∀ p, p ∈ l ↔ found CONTAINER_STARTUP_CONFIG fs0 p)
       ∧ ∀ o st1, main m fs0 = (o, st1) →
           let st0 :=
             State fs0 false
                   (if os_path_exists fs0 CONTAINER_STARTUP_CONFIG then []
                    else [Format "{} does not exists"
                            [ArgStr CONTAINER_STARTUP_CONFIG]]) [] in
           ∃ o', mapM (update_hash (config_vol_prefix (module_params m))) l st0
                 = (o', st1)
                 ∧ match o' with
                   | Ok _ => o = Ok ()
                   | Fail msg => o = Fail msg
                   | Raise e => o = Raise e
                   | Hang => o = Hang
                   end.
Proof.
  unfold main, ContainerConfigHashManager.
  set (prefix := config_vol_prefix (module_params m)).
  set (st := State fs0 false [] []).
  destruct (find_spec CONTAINER_STARTUP_CONFIG st) as (l & Hfind & Hnd & Hl).
  exists l. split; [done|]. split; [done|]. intros o st1.
  unfold _update_hashes. rewrite M_bind_run, Hfind, M_bind_run.
  change (fs st) with fs0.
  set (st0 := if os_path_exists fs0 CONTAINER_STARTUP_CONFIG then st else _).
  assert (st0 = State fs0 false
                  (if os_path_exists fs0 CONTAINER_STARTUP_CONFIG then []
                   else [Format "{} does not exists"
                           [ArgStr CONTAINER_STARTUP_CONFIG]]) []) as <-.
  { unfold st0. by destruct (os_path_exists _ _). }
  destruct (mapM (update_hash prefix) l st0) as [o' st'] eqn:E.
  destruct o'; intros [= <- <-]; by eexists.
Qed.

(** X12. The one warning that a run can give is that the startup-config
    directory does not exist; in that case, and when the path is not a
    directory, the run succeeds, touches nothing and reports no change.  A
    run over an existing directory gives no warning, whatever its outcome:
    a digest file that is missing is skipped in silence. *)
Theorem run_warns_only_of_missing_directory (m : module) (fs0 : filesystem)
    (o : outcome ()) (st1 : state) :
  main m fs0 = (o, st1) →
  warnings st1
  = (if os_path_exists fs0 CONTAINER_STARTUP_CONFIG then []
     else [Format "{} does not exists" [ArgStr CONTAINER_STARTUP_CONFIG]])
  ∧ (fs0 !! CONTAINER_STARTUP_CONFIG ≠ Some Directory →
     o = Ok () ∧ fs st1 = fs0 ∧ changed st1 = false).
Proof.
  intros Hmain. destruct (main_run m fs0) as (l & Hnd & Hl & Hrun).
  destruct (Hrun o st1 Hmain) as (o' & E & Ho). split.
  - pose proof (λ Hreg, run_quiet _ l _ o' st1 Hnd Hreg E) as Hq.
    rewrite Hq; [done|]. intros p (_ & Hf & _)%Hl. exact Hf.
  - intros Hdir. destruct l as [|p l].
    + injection E as <- <-. by rewrite Ho.
    + destruct (proj1 (Hl p)) as [? _]; [left|done].
Qed.

Lemma run_warns_only_of_missing_directory_witness :
  let fs0 := nova_host (Json.dumps (JObj [("volumes", nova_volumes)])) [] in
  let run := main (default_params false) fs0 in
  fs0 !! "/var/lib/config-data/nova.md5sum" = None
  ∧ warnings run.2 = [].
Proof.
  intros fs0 run. split; [reflexivity|].
  apply (run_warns_only_of_missing_directory (default_params false) fs0
           run.1 run.2).
  apply surjective_pairing.
Defined.

(** X13. A run touches the descriptors that the Scanner lists and nothing
    else, however it ends: every other path of the store holds after the run
    what it held before.  So a path that does not end in [.json] (a digest
    file, say) is left as it is, no file is created, and no directory is
    removed or made. *)
Theorem run_touches_descriptors_only (m : module) (fs0 : filesystem)
    (o : outcome ()) (st1 : state) :
  main m fs0 = (o, st1) →
  (∀ p, ¬ found CONTAINER_STARTUP_CONFIG fs0 p → fs st1 !! p = fs0 !! p)
  ∧ (∀ p, Str.endswith p ".json" = false → fs st1 !! p = fs0 !! p)
  ∧ (∀ p, fs0 !! p = None → fs st1 !! p = None)
  ∧ (∀ p, fs0 !! p = Some Directory ↔ fs st1 !! p = Some Directory).
Proof.
  intros Hmain. destruct (main_run m fs0) as (l & Hnd & Hl & Hrun).
  destruct (Hrun o st1 Hmain) as (o' & E & Ho).
  assert (∀ p, ¬ found CONTAINER_STARTUP_CONFIG fs0 p
               → fs st1 !! p = fs0 !! p) as Hframe.
  { intros p Hp. erewrite run_frame; [|exact E|by intros ?%Hl]. done. }
  split; [done|]. split; [|split].
  - intros p Hp. apply Hframe. intros Hf%found_json. congruence.
  - intros p Hp. rewrite Hframe; [done|]. intros (_ & [f Hf] & _). congruence.
  - intros p. split.
    + intros Hp. rewrite Hframe; [done|]. intros (_ & [f Hf] & _). congruence.
    + intros Hp. pose proof (run_shrinks _ _ _ _ _ E p) as Hs.
      by rewrite Hp in Hs.
Qed.

Lemma run_touches_descriptors_only_witness :
  let fs0 := nova_host (Json.dumps (JObj [("volumes", nova_volumes)]))
                       nova_digest in
  let run := main (default_params false) fs0 in
  changed run.2 = true
  ∧ fs run.2 !! "/var/lib/config-data/nova.md5sum"
    = fs0 !! "/var/lib/config-data/nova.md5sum".
Proof.
  intros fs0 run. split; [by vm_compute|].
  destruct (run_touches_descriptors_only (default_params false) fs0
              run.1 run.2) as (_ & H & _); [apply surjective_pairing|].
  by apply H.
Defined.

(** X14. A run that reports no change has rewritten nothing: however it
    ends, with [changed] false every path whose name is not of the obsolete
    scheme holds what it held before.  Removing obsolete descriptors is the
    one thing a run does to the store without reporting a change. *)
Theorem unchanged_run_only_cleans (m : module) (fs0 : filesystem)
    (o : outcome ()) (st1 : state) :
  main m fs0 = (o, st1) →
  changed st1 = false →
  ∀ p, Str.startswith (os_path.splitext (os_path.basename p)).1 "hashed-"
       = false →
       fs st1 !! p = fs0 !! p.
Proof.
  intros Hmain Hch p Hp. destruct (main_run m fs0) as (l & _ & _ & Hrun).
  destruct (Hrun o st1 Hmain) as (o' & E & _).
  set (P := λ s s' : state,
              changed s' = false → changed s = false ∧ fs s' !! p = fs s !! p).
  enough (P (State fs0 false
               (if os_path_exists fs0 CONTAINER_STARTUP_CONFIG then []
                else [Format "{} does not exists"
                        [ArgStr CONTAINER_STARTUP_CONFIG]]) []) st1) as H
    by (by destruct (H Hch)).
  apply (mapM_run_ind (update_hash (config_vol_prefix (module_params m))) P l)
    with (o := o'); [| | |exact E]; unfold P.
  - done.
  - intros s1 s2 s3 H1 H2 H3. destruct (H2 H3) as [H2a H2b].
    destruct (H1 H2a) as [H1a H1b]. split; [done|]. by rewrite H2b.
  - intros x s o1 s' _ Hs Hc.
    destruct (update_hash_effect _ _ _ _ _ Hs)
      as [[-> <-]|[(Hobs & _ & _ & -> & <-)|(_ & _ & _ & _ & Ht)]].
    + done.
    + split; [done|]. apply lookup_delete_ne. intros ->.
      unfold obsolete in Hobs. congruence.
    + congruence.
Qed.

Lemma unchanged_run_only_cleans_witness :
  let hashed :=
    "/var/lib/edpm-config/container-startup-config/hashed-nova.json" in
  let fs0 := <[hashed := Regular (File "{}" 420)]>
               (nova_host (Json.dumps (JObj [("volumes", JArr [])])) []) in
  let run := main (default_params false) fs0 in
  fs run.2 !! hashed = None
  ∧ fs run.2 !! nova_json = fs0 !! nova_json.
Proof.
  intros hashed fs0 run. split; [by vm_compute|].
  apply (unchanged_run_only_cleans (default_params false) fs0 run.1 run.2).
  - apply surjective_pairing.
  - by vm_compute.
  - reflexivity.
Defined.

(** * The order of the descriptors *)

(** One iteration reads the descriptor and the digest files, nothing else:
    from two states that agree on them it ends the same way, leaves the same
    descriptor, and sets the flag in both or in neither. *)
Lemma update_hash_local prefix config st1 st2 o st1' :
  fs st1 !! config = fs st2 !! config →
  same_digests (fs st1) (fs st2) →
  update_hash prefix config st1 = (o, st1') →
  ∃ st2', update_hash prefix config st2 = (o, st2')
          ∧ fs st2' !! config = fs st1' !! config
          ∧ (changed st1' = changed st1 ∧ changed st2' = changed st2
             ∨ changed st1' = true ∧ changed st2' = true).
Proof.
  intros Hc Hd. destruct (obsolete config) eqn:Hobs.
  - destruct (update_hash_removes prefix config st1 Hobs) as [Hfile1 Habs1].
    destruct (update_hash_removes prefix config st2 Hobs) as [Hfile2 Habs2].
    destruct (fs st1 !! config) as [[f|]|] eqn:Hf.
    + rewrite (Hfile1 f eq_refl), (Hfile2 f (eq_sym Hc)). intros [= <- <-].
      eexists. split; [done|]. simpl. rewrite !lookup_delete_eq. auto.
    + rewrite !update_hash_obsolete_directory by done. intros [= <- <-].
      eexists. split; [done|]. rewrite Hf. auto.
    + rewrite Habs1, Habs2 by done. intros [= <- <-].
      eexists. split; [done|]. rewrite Hf. auto.
  - destruct (fs st1 !! config) as [[f|]|] eqn:Hf.
    + rewrite (update_hash_active prefix config st1 f Hobs Hf).
      rewrite (update_hash_active prefix config st2 f Hobs (eq_sym Hc)).
      rewrite <-(reconcile_same prefix _ _ (content f) Hd).
      destruct (reconcile _ _ _) as [[[h j]|]| | |]; intros [= <- <-];
        eexists; (split; [done|]); simpl; rewrite ?Hf; auto.
      unfold rewritten. rewrite !lookup_insert_eq. auto.
    + rewrite !update_hash_directory by done. intros [= <- <-].
      eexists. split; [done|]. rewrite Hf. auto.
    + rewrite !update_hash_missing by done. intros [= <- <-].
      eexists. split; [done|]. simpl. rewrite Hf. auto.
Qed.

Lemma update_hash_keeps_digests prefix config st o st' :
  Str.endswith config ".json" = true →
  update_hash prefix config st = (o, st') →
  same_digests (fs st) (fs st').
Proof.
  intros Hj H config_volume. symmetry.
  eapply update_hash_frame; [done|]. intros E.
  by rewrite <-E, json_not_digest in Hj.
Qed.

(** the states between iterations as far as the result of a run goes: the
    store and the flag *)
Lemma update_hash_respects prefix config st st' o s1 :
  fs st = fs st' → changed st = changed st' →
  update_hash prefix config st = (o, s1) →
  ∃ s1', update_hash prefix config st' = (o, s1')
         ∧ fs s1 = fs s1' ∧ changed s1 = changed s1'.
Proof.
  intros Hfs Hch H.
  destruct (update_hash_local prefix config st st' o s1)
    as (s1' & H' & Hc & Hflag); [by rewrite Hfs|by rewrite Hfs|done|].
  exists s1'. split; [done|]. split.
  - apply map_eq. intros p. destruct (decide (p = config)) as [->|Hp]; [done|].
    rewrite (update_hash_frame _ _ _ _ _ p H Hp).
    rewrite (update_hash_frame _ _ _ _ _ p H' Hp). by rewrite Hfs.
  - destruct Hflag as [[-> ->]|[-> ->]]; done.
Qed.

Lemma mapM_cons_Ok {A B : Type} (f : A → M B) (x : A) (l : list A)
    (st s1 : state) (r : list B) :
  mapM f (x :: l) st = (Ok r, s1) ↔
  ∃ y a ys, f x st = (Ok y, a) ∧ mapM f l a = (Ok ys, s1) ∧ r = y :: ys.
Proof.
  rewrite mapM_cons_run. split.
  - destruct (f x st) as [[y| | |] a]; try done.
    destruct (mapM f l a) as [[ys| | |] b] eqn:E; try done.
    intros [= <- <-]. by eexists _, _, _.
  - intros (y & a & ys & -> & -> & ->). done.
Qed.

Lemma run_respects prefix (l : list string) st st' r s1 :
  fs st = fs st' → changed st = changed st' →
  mapM (update_hash prefix) l st = (Ok r, s1) →
  ∃ r' s1', mapM (update_hash prefix) l st' = (Ok r', s1')
            ∧ fs s1 = fs s1' ∧ changed s1 = changed s1'.
Proof.
  revert st st' r. induction l as [|x l IH]; intros st st' r Hfs Hch.
  { intros [= <- <-]. by exists [], st'. }
  intros (y & a & ys & Hx & Hl & ->)%mapM_cons_Ok.
  destruct (update_hash_respects prefix x st st' _ a Hfs Hch Hx)
    as (a' & Hx' & Hfa & Hca).
  destruct (IH a a' ys Hfa Hca Hl) as (r' & s1' & Hl' & ? & ?).
  exists (y :: r'), s1'. split; [|done]. apply mapM_cons_Ok. eauto 10.
Qed.

Lemma update_hash_swap prefix x y st s1 s2 :
  x ≠ y →
  Str.endswith x ".json" = true → Str.endswith y ".json" = true →
  update_hash prefix x st = (Ok (), s1) →
  update_hash prefix y s1 = (Ok (), s2) →
  ∃ t1 t2, update_hash prefix y st = (Ok (), t1)
           ∧ update_hash prefix x t1 = (Ok (), t2)
           ∧ fs s2 = fs t2 ∧ changed s2 = changed t2.
Proof.
  intros Hne Hjx Hjy Hx Hy.
  destruct (update_hash_local prefix y s1 st (Ok ()) s2)
    as (t1 & Hy' & Hyc & Hyf).
  { eapply update_hash_frame; [done|]. by intros ->. }
  { intros v. symmetry. by apply (update_hash_keeps_digests prefix x _ _ _ Hjx Hx). }
  { done. }
  destruct (update_hash_local prefix x st t1 (Ok ()) s1)
    as (t2 & Hx' & Hxc & Hxf).
  { symmetry. eapply update_hash_frame; [done|done]. }
  { by apply (update_hash_keeps_digests prefix y _ _ _ Hjy Hy'). }
  { done. }
  exists t1, t2. split; [done|]. split; [done|]. split.
  - apply map_eq. intros p.
    destruct (decide (p = x)) as [->|Hpx].
    { rewrite Hxc. eapply update_hash_frame; [done|done]. }
    rewrite (update_hash_frame _ _ _ _ _ p Hx' Hpx).
    destruct (decide (p = y)) as [->|Hpy]; [done|].
    rewrite (update_hash_frame _ _ _ _ _ p Hy Hpy).
    rewrite (update_hash_frame _ _ _ _ _ p Hy' Hpy).
    by rewrite (update_hash_frame _ _ _ _ _ p Hx Hpx).
  - destruct Hyf as [[Hy1 Hy2]|[Hy1 Hy2]], Hxf as [[Hx1 Hx2]|[Hx1 Hx2]];
      congruence.
Qed.

Lemma run_permuted prefix (l l' : list string) :
  l ≡ₚ l' →
  Forall (λ q, Str.endswith q ".json" = true) l →
  ∀ st st' r s1,
    fs st = fs st' → changed st = changed st' →
    mapM (update_hash prefix) l st = (Ok r, s1) →
    ∃ r' s1', mapM (update_hash prefix) l' st' = (Ok r', s1')
              ∧ fs s1 = fs s1' ∧ changed s1 = changed s1'.
Proof.
  induction 1 as [|x l l' Hp IH|x y l|l l2 l' Hp1 IH1 Hp2 IH2];
    intros Hjson st st' r s1 Hfs Hch Hrun.
  - injection Hrun as <- <-. by exists [], st'.
  - apply Forall_cons in Hjson as [_ Hjson].
    apply mapM_cons_Ok in Hrun as (u & a & us & Hx & Hl & ->).
    destruct (update_hash_respects prefix x st st' _ a Hfs Hch Hx)
      as (a' & Hx' & Hfa & Hca).
    destruct (IH Hjson a a' us s1 Hfa Hca Hl) as (r' & s1' & Hl' & ? & ?).
    exists (u :: r'), s1'. split; [|done]. apply mapM_cons_Ok. eauto 10.
  - destruct (decide (x = y)) as [->|Hne].
    { by apply (run_respects prefix _ st st' r s1). }
    apply Forall_cons in Hjson as [Hjy [Hjx _]%Forall_cons].
    apply mapM_cons_Ok in Hrun as ([] & a & us & Hy & Hrun & ->).
    apply mapM_cons_Ok in Hrun as ([] & b & vs & Hx & Hl & ->).
    destruct (update_hash_swap prefix y x st a b) as (t1 & t2 & Hx1 & Hy1 & Hf & Hc);
      [done|done|done|done|done|].
    destruct (run_respects prefix l b t2 vs s1 Hf Hc Hl)
      as (r2 & s2 & Hl2 & Hf2 & Hc2).
    assert (mapM (update_hash prefix) (x :: y :: l) st
            = (Ok (() :: () :: r2), s2)) as Hrun2.
    { apply mapM_cons_Ok. eexists _, _, _. split; [done|]. split; [|done].
      apply mapM_cons_Ok. eauto 10. }
    destruct (run_respects prefix _ st st' _ s2 Hfs Hch Hrun2)
      as (r3 & s3 & Hl3 & Hf3 & Hc3).
    exists r3, s3. split; [done|]. split; congruence.
  - destruct (IH1 Hjson st st r s1 eq_refl eq_refl Hrun)
      as (r2 & s2 & Hrun2 & Hf2 & Hc2).
    assert (Forall (λ q, Str.endswith q ".json" = true) l2) as Hjson2
      by (by rewrite <-Hp1).
    destruct (IH2 Hjson2 st st' r2 s2 Hfs Hch Hrun2)
      as (r3 & s3 & Hrun3 & Hf3 & Hc3).
    exists r3, s3. split; [done|]. split; congruence.
Qed.

Lemma units_eq (r r' : list ()) : length r = length r' → r = r'.
Proof.
  revert r'. induction r as [|[] r IH]; intros [|[] r'] H; try done.
  f_equal. apply IH. by injection H.
Qed.

(** X15. The order in which the Scanner lists the descriptors does not
    matter to a run that completes: the loop over the same descriptors in
    any other order completes too, and leaves the same store and the same
    [changed] flag. *)
Theorem loop_order_irrelevant (prefix : string) (l l' : list string)
    (st st1 : state) (r : list ()) :
  l ≡ₚ l' →
  Forall (λ q, Str.endswith q ".json" = true) l →
  mapM (update_hash prefix) l st = (Ok r, st1) →
  ∃ st1', mapM (update_hash prefix) l' st = (Ok r, st1')
          ∧ fs st1' = fs st1 ∧ changed st1' = changed st1.
Proof.
  intros Hp Hjson Hrun.
  destruct (run_permuted prefix l l' Hp Hjson st st r st1 eq_refl eq_refl Hrun)
    as (r' & st1' & Hrun' & Hf & Hc).
  exists st1'. split; [|done].
  rewrite Hrun'. f_equal. f_equal.
  assert (∀ (k : list string) s (u : list ()) s',
            mapM (update_hash prefix) k s = (Ok u, s') → length u = length k)
    as Hlen.
  { induction k as [|x k IH]; intros s u s'.
    - by intros [= <- <-].
    - intros (y & a & ys & _ & Hk & ->)%mapM_cons_Ok. simpl.
      by rewrite (IH _ _ _ Hk). }
  apply Hlen in Hrun, Hrun'. rewrite (Permutation_length Hp) in Hrun.
  apply units_eq. congruence.
Qed.

Lemma loop_order_irrelevant_witness :
  let prefix := "/var/lib/config-data" in
  let glance := "/var/lib/edpm-config/container-startup-config/glance.json" in
  let fs0 := <[glance := Regular (File (Json.dumps (JObj [("volumes", nova_volumes)])) 420)]>
               (nova_host (Json.dumps (JObj [("volumes", nova_volumes)]))
                          nova_digest) in
  let st := State fs0 false [] [] in
  let run := mapM (update_hash prefix) [nova_json; glance] st in
  ∃ st1', mapM (update_hash prefix) [glance; nova_json] st = (Ok [(); ()], st1')
          ∧ fs st1' = fs run.2 ∧ changed st1' = changed run.2.
Proof.
  intros prefix glance fs0 st run.
  apply (loop_order_irrelevant prefix [nova_json; glance] [glance; nova_json]
           st run.2 [(); ()]).
  - apply perm_swap.
  - repeat (apply Forall_cons_2; [reflexivity|]). apply Forall_nil_2.
  - by vm_compute.
Defined.

(** * Termination of a run *)

Section decided.
Variable prefix : string.
Hypothesis base_nonempty : Str.rstrip os_path.sep prefix ≠ "".

Lemma get_config_base_decided (volume : string) :
  _get_config_base prefix volume ≠ Hang.
Proof. apply crawl_decided; [done|lia]. Qed.

Lemma config_bases_decided (volumes : list json) :
  config_bases prefix volumes ≠ Hang.
Proof.
  induction volumes as [|v volumes IH]; [done|].
  destruct v as [| | |s| |]; try done. simpl.
  destruct (Str.startswith s prefix); [|done].
  pose proof (get_config_base_decided (hd "" (Str.split ":" s))) as Hb.
  destruct (_get_config_base _ _); try done. rewrite bind_Ok.
  by destruct (config_bases prefix volumes).
Qed.

Lemma match_config_volumes_decided (config : json) :
  _match_config_volumes prefix config ≠ Hang.
Proof.
  destruct config as [| | | | |d]; try done. unfold _match_config_volumes.
  destruct (py_iter _) as [vs| | |] eqn:Hvs; try done.
  { rewrite bind_Ok. pose proof (config_bases_decided vs) as Hb.
    by destruct (config_bases prefix vs). }
  by destruct (default _ _).
Qed.

Lemma digests_decided (fs : filesystem) (config_volumes : list string) :
  mapM (digest fs) config_volumes ≠ Hang.
Proof.
  induction config_volumes as [|v l IH]; [done|].
  change (mapM (digest fs) (v :: l))
    with (y ← digest fs v; k ← mapM (digest fs) l; mret (y :: k)).
  assert (digest fs v ≠ Hang) as Hv.
  { unfold digest. by destruct (fs !! (v +:+ ".md5sum")) as [[f|]|]. }
  destruct (digest fs v); try done.
  rewrite bind_Ok. by destruct (mapM (digest fs) l).
Qed.

Lemma reconcile_decided (fs : filesystem) (text : string) :
  reconcile prefix fs text ≠ Hang.
Proof.
  unfold reconcile. destruct (Json.loads text) as [j|]; [|done].
  rewrite bind_Ok. pose proof (match_config_volumes_decided j) as Hm.
  destruct (_match_config_volumes prefix j) as [vs| | |]; try done.
  rewrite bind_Ok. pose proof (digests_decided fs vs) as Hd.
  destruct (mapM (digest fs) vs) as [hs| | |]; try done.
  rewrite bind_Ok. destruct j as [| | | | |d]; try done.
  unfold stored_hash.
  assert (∀ h, set_hash h d ≠ Hang) as Hset.
  { intros h. unfold set_hash.
    by destruct (Dict.get _ _) as [[]|]. }
  destruct (Dict.get "environment" d) as [[| | | | |env]|]; try done.
  - rewrite bind_Ok. destruct (py_eq_str _ _); [done|].
    specialize (Hset (aggregate hs)). by destruct (set_hash _ _).
  - rewrite bind_Ok. destruct (py_eq_str _ _); [done|].
    specialize (Hset (aggregate hs)). by destruct (set_hash _ _).
Qed.

Lemma update_hash_decided (config : string) (st : state) :
  (update_hash prefix config st).1 ≠ Hang.
Proof.
  destruct (obsolete config) eqn:Hobs.
  - destruct (update_hash_removes prefix config st Hobs) as [Hfile Habsent].
    destruct (fs st !! config) as [[f|]|] eqn:Hf.
    + by rewrite (Hfile f eq_refl).
    + by rewrite update_hash_obsolete_directory.
    + by rewrite Habsent.
  - destruct (fs st !! config) as [[f|]|] eqn:Hf.
    + rewrite (update_hash_active prefix config st f Hobs Hf).
      pose proof (reconcile_decided (fs st) (content f)) as Hr.
      by destruct (reconcile _ _ _) as [[[h j]|]| | |].
    + by rewrite update_hash_directory.
    + by rewrite update_hash_missing.
Qed.

Lemma run_decided (l : list string) (st : state) :
  (mapM (update_hash prefix) l st).1 ≠ Hang.
Proof.
  revert st. induction l as [|x l IH]; intros st; [done|].
  rewrite mapM_cons_run. pose proof (update_hash_decided x st) as Hx.
  destruct (update_hash prefix x st) as [[[]| | |] a]; try done.
  specialize (IH a). by destruct (mapM (update_hash prefix) l a) as [[]?].
Qed.

End decided.

(** X16. A run terminates whenever the prefix is more than separators: with
    a prefix that is not empty once its trailing separators are stripped,
    [main] ends with a result, a failure or an exception whatever the store
    holds.  The condition is needed: with the prefix [/] the crawl from
    [/etc/nova] never ends, and neither does the run over a descriptor that
    mounts it. *)
Theorem run_terminates :
  (∀ (m : module) (fs0 : filesystem),
     Str.rstrip os_path.sep (config_vol_prefix (module_params m)) ≠ "" →
     (main m fs0).1 ≠ Hang)
  ∧ (∀ fuel, crawl fuel "/" (Str.rstrip os_path.sep "/")
               (os_path.join (Str.rstrip os_path.sep "/") "ansible-generated")
               "/etc/nova" "/etc/nova" = Hang)
  ∧ (main (Module_ (Params false "/" false 6) false)
          (nova_host
             (Json.dumps (JObj [("volumes", JArr [JStr "/etc/nova:/etc/nova"])]))
             [])).1 = Hang.
Proof.
  split; [|split].
  - intros m fs0 Hne. destruct (main_run m fs0) as (l & _ & _ & Hrun).
    destruct (main m fs0) as [o st1] eqn:E.
    destruct (Hrun o st1 eq_refl) as (o' & E' & Ho). simpl. intros ->.
    pose proof (run_decided _ Hne l
                  (State fs0 false
                     (if os_path_exists fs0 CONTAINER_STARTUP_CONFIG then []
                      else [Format "{} does not exists"
                              [ArgStr CONTAINER_STARTUP_CONFIG]]) [])) as Hd.
    rewrite E' in Hd. by destruct o'.
  - intros fuel. by apply crawl_hang_forever.
  - by vm_compute.
Qed.

Lemma run_terminates_witness :
  (main (default_params false)
        (nova_host (Json.dumps (JObj [("volumes", nova_volumes)])) nova_digest)).1
  ≠ Hang.
Proof.
  apply (proj1 run_terminates). vm_compute. discriminate.
Defined.

(** * What a run reports and what it leaves *)

(** an iteration that sets the flag has put another text in the descriptor *)
Lemma update_hash_rewrite_differs prefix config st o st' :
  update_hash prefix config st = (o, st') →
  changed st = false → changed st' = true →
  obsolete config = false
  ∧ ∃ f data, fs st !! config = Some (Regular f)
              ∧ fs st' !! config = Some (Regular (File data 384))
              ∧ data ≠ content f.
Proof.
  intros H Hc Hc'. destruct (obsolete config) eqn:Hobs.
  - destruct (update_hash_effect _ _ _ _ _ H)
      as [[_ E]|[(_ & _ & _ & _ & E)|(? & _)]]; congruence.
  - split; [done|]. destruct (fs st !! config) as [[f|]|] eqn:Hf.
    + rewrite (update_hash_active prefix config st f Hobs Hf) in H.
      destruct (reconcile prefix (fs st) (content f)) as [[[h j]|]| | |] eqn:Er;
        injection H as <- <-; try congruence.
      exists f, (Json.dumps j). split; [done|]. simpl. unfold rewritten.
      split; [by rewrite lookup_insert_eq|]. intros E.
      pose proof (reconcile_settled _ _ _ _ _ Er) as Hs.
      rewrite E in Hs. congruence.
    + rewrite update_hash_directory in H by done. injection H as <- <-.
      congruence.
    + rewrite update_hash_missing in H by done. injection H as <- <-.
      simpl in Hc'. congruence.
Qed.

Lemma run_changed prefix (l : list string) st o st' :
  NoDup l →
  mapM (update_hash prefix) l st = (o, st') →
  changed st = false → changed st' = true →
  ∃ p, p ∈ l ∧ obsolete p = false ∧ fs st' !! p ≠ fs st !! p.
Proof.
  intros Hnd. revert st o st'.
  induction Hnd as [|x l Hx Hnd IH]; intros st o st'.
  { intros [= <- <-]. congruence. }
  rewrite mapM_cons_run.
  destruct (update_hash prefix x st) as [o1 s1] eqn:E1. intros Hrun Hc Hc'.
  assert (∃ o2, mapM (update_hash prefix) l s1 = (o2, st')
          ∨ s1 = st') as [o2 Hrest].
  { destruct o1; try (injection Hrun as <- <-; by eexists (Ok []); right).
    destruct (mapM (update_hash prefix) l s1) as [o2 s2].
    exists o2. left. by destruct o2; injection Hrun as <- <-. }
  assert (fs st' !! x = fs s1 !! x) as Hxframe.
  { destruct Hrest as [Hrest| <-]; [|done]. by eapply run_frame. }
  destruct (changed s1) eqn:Hc1.
  - destruct (update_hash_rewrite_differs _ _ _ _ _ E1 Hc Hc1)
      as (Hact & f & data & Hf & Hf' & Hne).
    exists x. split; [left|]. split; [done|].
    rewrite Hxframe, Hf, Hf'. intros [= <-]. done.
  - destruct Hrest as [Hrest| <-]; [|congruence].
    destruct (IH s1 o2 st' Hrest Hc1 Hc') as (p & Hp & Hact & Hne).
    exists p. split; [by right|]. split; [done|].
    rewrite <-(update_hash_frame _ _ _ _ _ p E1); [done|]. by intros ->.
Qed.

(** X17. The [changed] flag is exact about the descriptors of the current
    naming scheme: however the run ends, it reports a change exactly when
    some path whose name is not of the obsolete scheme holds after the run
    something else than before (and such a path is then a descriptor that
    the Scanner had listed). *)
Theorem changed_flag_exact (m : module) (fs0 : filesystem) (o : outcome ())
    (st1 : state) :
  main m fs0 = (o, st1) →
  (changed st1 = true ↔
   ∃ p, Str.startswith (os_path.splitext (os_path.basename p)).1 "hashed-"
        = false
        ∧ fs st1 !! p ≠ fs0 !! p)
  ∧ (changed st1 = true →
     ∃ p, found CONTAINER_STARTUP_CONFIG fs0 p
          ∧ Str.startswith (os_path.splitext (os_path.basename p)).1 "hashed-"
            = false
          ∧ fs st1 !! p ≠ fs0 !! p).
Proof.
  intros Hmain. destruct (main_run m fs0) as (l & Hnd & Hl & Hrun).
  destruct (Hrun o st1 Hmain) as (o' & E & _).
  assert (changed st1 = true →
          ∃ p, found CONTAINER_STARTUP_CONFIG fs0 p
               ∧ obsolete p = false ∧ fs st1 !! p ≠ fs0 !! p) as Hfwd.
  { intros Hc.
    destruct (run_changed _ l _ o' st1 Hnd E eq_refl Hc) as (p & Hp & ? & ?).
    exists p. split; [by apply Hl|done]. }
  split; [|done]. split.
  - intros Hc. destruct (Hfwd Hc) as (p & _ & ? & ?). by exists p.
  - intros (p & Hact & Hne). destruct (changed st1) eqn:Hc; [done|].
    destruct Hne.
    set (P := λ s s' : state,
                changed s' = false
                → changed s = false ∧ fs s' !! p = fs s !! p).
    enough (P (State fs0 false
                 (if os_path_exists fs0 CONTAINER_STARTUP_CONFIG then []
                  else [Format "{} does not exists"
                          [ArgStr CONTAINER_STARTUP_CONFIG]]) []) st1) as H
      by (by destruct (H Hc)).
    apply (mapM_run_ind (update_hash (config_vol_prefix (module_params m))) P l)
      with (o := o'); [| | |exact E]; unfold P.
    + done.
    + intros s1 s2 s3 H1 H2 H3. destruct (H2 H3) as [H2a H2b].
      destruct (H1 H2a) as [H1a H1b]. split; [done|]. by rewrite H2b.
    + intros x s o1 s' _ Hs Hc'.
      destruct (update_hash_effect _ _ _ _ _ Hs)
        as [[-> <-]|[(Hobs & _ & _ & -> & <-)|(_ & _ & _ & _ & Ht)]].
      * done.
      * split; [done|]. apply lookup_delete_ne. intros ->.
        unfold obsolete in Hobs. congruence.
      * congruence.
Qed.

Lemma changed_flag_exact_witness :
  let fs0 := nova_host (Json.dumps (JObj [("volumes", nova_volumes)]))
                       nova_digest in
  let run := main (default_params false) fs0 in
  changed run.2 = true ↔
  ∃ p, Str.startswith (os_path.splitext (os_path.basename p)).1 "hashed-"
       = false
       ∧ fs run.2 !! p ≠ fs0 !! p.
Proof.
  intros fs0 run.
  apply (changed_flag_exact (default_params false) fs0 run.1 run.2).
  apply surjective_pairing.
Defined.



